(** * Mining Manager: the scan, projection and dispatch core

    A shallow embedding of [miner_app/core/scanner.py] and of the scan and
    monitor logic of [miner_app/ui/app.py].

    - Python [float] is IEEE binary64: [PrimFloat.float], with the source's
      literals.
    - Python [str] is [string]; the text handled here (unit labels, status
      labels, addresses) is ASCII, and [upper]/[lower] act on ASCII letters.
    - An expression that may raise is a [Result]: [Raised e] carries the
      exception's [str(e)].
    - A [dict] keyed by strings is a [gmap string _].
    - The devices are pyasic objects; a [Miner] records what each awaited
      call on it ends in during the operation at hand: it returns, it
      raises an [Exception], or it is cancelled and raises
      [asyncio.CancelledError], which is a [BaseException] and no
      [Exception].
    - Coroutines gathered on one event loop finish in an order the
      scheduler picks; a dispatch takes that order as an argument.
    - The application is a state with a step per event: a button pressed,
      a worker thread moving on, the Tk loop running a queued callback. *)

From Stdlib Require Import Floats.PrimFloat.
From Stdlib Require Import Floats.FloatClass Floats.SpecFloat Floats.FloatOps.
From Stdlib Require Import Floats.FloatAxioms.
From Stdlib Require Import Reals Lra.
From Stdlib Require Import Ascii NArith ZArith.
From stdpp Require Import gmap strings list pretty.

(** ** Python values and exceptions *)

Module Py.

Definition Exception := string.

Inductive Result (A : Type) : Type :=
| Raised (e : Exception)
| Returned (a : A).
Arguments Raised {A} e.
Arguments Returned {A} a.

(** Sequencing: the first exception raised ends the block.  With the two
    instances the bodies below are written [x ← e1; e2]. *)
Definition bind {A B} (r : Result A) (k : A -> Result B) : Result B :=
  match r with
  | Raised e => Raised e
  | Returned a => k a
  end.

#[export] Instance Result_ret : MRet Result := @Returned.

#[export] Instance Result_bind : MBind Result := fun A B k r => bind r k.

(** What awaiting a device call ends in.  [Ended r]: the call returned, or
    raised an instance of [Exception].  [Cancelled]: it raised
    [asyncio.CancelledError]; [except Exception] does not catch it,
    [isinstance(_, Exception)] is false of it, and [gather] with
    [return_exceptions=True] hands it back as that awaitable's outcome. *)
Inductive Awaited (A : Type) : Type :=
| Ended (r : Result A)
| Cancelled.
Arguments Ended {A} r.
Arguments Cancelled {A}.

(** Awaiting in sequence: the first call that does not return ends the
    block.  With the two instances a coroutine body is written
    [x ← e1; e2] as well. *)
Definition await_bind {A B} (w : Awaited A) (k : A -> Awaited B)
    : Awaited B :=
  match w with
  | Ended (Returned a) => k a
  | Ended (Raised e) => Ended (Raised e)
  | Cancelled => Cancelled
  end.

#[export] Instance Awaited_ret : MRet Awaited :=
  fun A a => Ended (Returned a).

#[export] Instance Awaited_bind : MBind Awaited :=
  fun A B k w => await_bind w k.

(** [try: body / except Exception as e: handler(e)] *)
Definition try_except {A} (body : Result A) (handler : Exception -> A) : A :=
  match body with
  | Raised e => handler e
  | Returned a => a
  end.

(** An attribute an object may lack ([hasattr], [getattr] with a default). *)
Inductive attr (A : Type) : Type :=
| NoAttr
| Attr (a : A).
Arguments NoAttr {A}.
Arguments Attr {A} a.

(** Truth value of [None], [True], [False]. *)
Definition truthy (v : option bool) : bool :=
  match v with
  | Some b => b
  | None => false
  end.

(** [s or d] on strings: the empty string is false. *)
Definition str_or (s d : string) : string :=
  match s with
  | EmptyString => d
  | _ => s
  end.

(** [v or d] where [v] is [None] or a string. *)
Definition opt_or (v : option string) (d : string) : string :=
  match v with
  | Some s => str_or s d
  | None => d
  end.

Definition upper_char (c : ascii) : ascii :=
  let n := N_of_ascii c in
  if (97 <=? n)%N && (n <=? 122)%N then ascii_of_N (n - 32) else c.

Definition lower_char (c : ascii) : ascii :=
  let n := N_of_ascii c in
  if (65 <=? n)%N && (n <=? 90)%N then ascii_of_N (n + 32) else c.

Fixpoint map_chars (f : ascii -> ascii) (s : string) : string :=
  match s with
  | EmptyString => EmptyString
  | String c s' => String (f c) (map_chars f s')
  end.

Definition upper : string -> string := map_chars upper_char.
Definition lower : string -> string := map_chars lower_char.

(** [sub in s] *)
Fixpoint contains (sub s : string) : bool :=
  String.prefix sub s ||
  match s with
  | EmptyString => false
  | String _ s' => contains sub s'
  end.

(** [s.replace(old, new)] for a non-empty [old]: leftmost occurrences,
    not overlapping.  [skip] counts the characters of a match still to be
    passed over. *)
Fixpoint replace_from (old new : string) (skip : nat) (s : string) : string :=
  match s with
  | EmptyString => EmptyString
  | String c s' =>
      match skip with
      | S k => replace_from old new k s'
      | O =>
          if String.prefix old s
          then new +:+ replace_from old new (String.length old - 1) s'
          else String c (replace_from old new 0 s')
      end
  end.

Definition replace (old new s : string) : string := replace_from old new 0 s.

(** Whitespace of [str.strip()] among ASCII characters. *)
Definition is_space (c : ascii) : bool :=
  let n := N_of_ascii c in
  ((9 <=? n)%N && (n <=? 13)%N) || ((28 <=? n)%N && (n <=? 32)%N).

Fixpoint lstrip (s : string) : string :=
  match s with
  | EmptyString => EmptyString
  | String c s' => if is_space c then lstrip s' else s
  end.

(** [s.strip()] *)
Definition strip (s : string) : string :=
  String.rev (lstrip (String.rev (lstrip s))).

(** Truth value of a string. *)
Definition str_truthy (s : string) : bool :=
  match s with
  | EmptyString => false
  | _ => true
  end.

(** [asyncio.gather] with [return_exceptions=True]: the awaitables' outcomes
    in the order of the awaitables, an exception as that awaitable's outcome;
    the call itself returns. *)
Definition gather {A} (aws : list A) : Result (list A) :=
  Returned aws.

End Py.

Import Py.

Set Warnings "-inexact-float".

(** ** Number formatting *)

(** [f"{n}"] for an [int]. *)
Definition str_int (n : Z) : string := pretty n.

(** [len(l)] inside an f-string. *)
Definition str_len {A} (l : list A) : string := pretty (length l).

(** Hundredths nearest to [n / d], ties to the even one ([0 < d]). *)
Definition round_half_even (n d : Z) : Z :=
  let q := (n / d)%Z in
  let r := (n mod d)%Z in
  match (2 * r ?= d)%Z with
  | Lt => q
  | Gt => (q + 1)%Z
  | Eq => if Z.even q then q else (q + 1)%Z
  end.

Definition two_digits (n : Z) : string :=
  if (n <? 10)%Z then "0" +:+ pretty n else pretty n.

(** [f"{x:.2f}"]: the exact binary value rounded to two decimals. *)
Definition format_2f (x : float) : string :=
  match Prim2SF x with
  | S754_nan => "nan"
  | S754_infinity s => if s then "-inf" else "inf"
  | S754_zero s => if s then "-0.00" else "0.00"
  | S754_finite s m e =>
      let h := match e with
               | Zneg k => round_half_even (Zpos m * 100) (2 ^ Zpos k)
               | _ => (Zpos m * 100 * 2 ^ e)%Z
               end in
      (if s then "-" else "") +:+ pretty (h / 100)%Z +:+ "."
      +:+ two_digits (h mod 100)%Z
  end.

(** ** The pyasic objects the scanner reads *)

(** [data.hashrate]: [hr_rate] is what [float(hr.rate)] yields, [hr_unit]
    what [str(hr.unit)] yields, [hr_str] is [str(hr)]. *)
Record HashRate := {
  hr_rate : Result float;
  hr_unit : Result string;
  hr_str : string;
}.

(** One entry of [data.pools]; [pm_url] is [str(pool.url)] when the url is
    set. *)
Record PoolMetrics := {
  pm_url : option string;
  pm_user : option string;
  pm_active : option bool;
  pm_alive : option bool;
}.

(** [MinerData]; reading [is_mining] or [temperature_avg] may raise.
    [temperature_avg] is an [int] in pyasic. *)
Record MinerData := {
  is_mining : Result (option bool);
  model : option string;
  make : option string;
  hashrate : option HashRate;
  temperature_avg : Result (option Z);
  pools : option (list PoolMetrics);
}.

(** [pyasic.config.mining.MiningPoolConfig] *)
Record MiningPoolConfig := {
  mpc_url : string;
  mpc_user : string;
  mpc_password : string;
}.

(** [cfg.mining_mode], which may or may not carry a [pools] attribute. *)
Record MiningMode := {
  mm_name : string;
  mm_pools : attr (list MiningPoolConfig);
}.

(** The configuration [get_config] returns; [cfg_other] stands for the
    settings the dispatcher never touches. *)
Record MinerConfig := {
  mining_mode : attr (option MiningMode);
  cfg_other : string;
}.

(** A discovered device: its address, its class name, and what each awaited
    call on it ends in. *)
Record Miner := {
  miner_ip : attr string;
  class_name : string;
  get_data : Awaited MinerData;
  reboot : Awaited unit;
  get_config : Awaited MinerConfig;
  send_config : MinerConfig -> Awaited unit;
}.

(** [MinerNetwork.from_subnet(subnet)] followed by [network.scan()]: the
    handles found, or the [Exception] raised. *)
Definition Network := string -> Result (list Miner).

(** [str(getattr(miner, "ip", "?"))] *)
Definition ip_of (miner : Miner) : string :=
  match miner_ip miner with
  | Attr a => a
  | NoAttr => "?"
  end.

(** ** Configuration file *)

(** A value [json.load] returns.  [JFloat], [JArr] and [JObj] have a [str]
    the model does not compute: where one is needed it is given by
    [repr_]. *)
#[warnings="-register-all"]
Inductive json :=
| JNull
| JBool (b : bool)
| JNum (n : Z)
| JFloat (f : float)
| JStr (s : string)
| JArr (l : list json)
| JObj (o : gmap string json).

(** The [defaults] of [load_config], in the order of the literal. *)
Definition default_passwords : list (string * json) :=
  [("antminer_web", JStr "root");
   ("antminer_ssh", JStr "root");
   ("whatsminer_rpc", JStr "admin");
   ("bosminer_web", JStr "root");
   ("bosminer_ssh", JStr "root");
   ("vnish_web", JStr "admin");
   ("goldshell_web", JStr "123456789");
   ("auradine_web", JStr "admin");
   ("epic_web", JStr "letmein");
   ("hive_web", JStr "admin");
   ("innosilicon_web", JStr "admin")].

Definition default_network : list (string * json) :=
  [("ip_from", JStr "192.168.1.1");
   ("ip_to", JStr "192.168.1.254");
   ("scan_timeout", JNum 3);
   ("monitor_interval_minutes", JNum 5)].

Definition defaults : list (string * list (string * json)) :=
  [("passwords", default_passwords); ("network", default_network)].

(** A dict literal as the object it builds. *)
Definition dict_of (items : list (string * json)) : gmap string json :=
  foldl (fun d '(k, v) => <[k := v]> d) ∅ items.

Definition defaults_json : json :=
  JObj (dict_of (map (fun '(section, values) =>
                        (section, JObj (dict_of values))) defaults)).

(** [d.setdefault(k, v)] *)
Definition setdefault (k : string) (v : json) (d : gmap string json)
    : gmap string json :=
  match d !! k with
  | Some _ => d
  | None => <[k := v]> d
  end.

(** The inner loop: [for k, v in values.items(): data[section].setdefault(k, v)] *)
Definition merge_section (values : list (string * json))
    (d : gmap string json) : gmap string json :=
  foldl (fun d '(k, v) => setdefault k v d) d values.

(** One pass of the outer loop on [data].  [section not in data] and
    [data[section] = values] raise [TypeError] unless [data] is a dict (a
    list or a string passes the first and fails the second); [setdefault]
    raises [AttributeError] unless [data[section]] is a dict. *)
Definition merge_one (data : json) (section : string)
    (values : list (string * json)) : Result json :=
  match data with
  | JObj o =>
      match o !! section with
      | None => Returned (JObj (<[section := JObj (dict_of values)]> o))
      | Some (JObj d) =>
          Returned (JObj (<[section := JObj (merge_section values d)]> o))
      | Some _ => Raised "object has no attribute 'setdefault'"
      end
  | _ => Raised "object does not support item assignment"
  end.

Definition merge_defaults (data : json) : Result json :=
  foldl (fun acc '(section, values) =>
           data ← acc; merge_one data section values)
        (Returned data) defaults.

(** [load_config()]; [file] is what opening the file and [json.load] yield. *)
Definition load_config (file : Result json) : json :=
  try_except (data ← file; merge_defaults data) (fun _ => defaults_json).

(** ** Passwords *)

(** [str(value)] of a loaded value. *)
Definition py_str (repr_ : json -> string) (v : json) : string :=
  match v with
  | JNull => "None"
  | JBool true => "True"
  | JBool false => "False"
  | JNum n => str_int n
  | JStr s => s
  | _ => repr_ v
  end.

(** [pyasic.settings]: the store [update] writes.  [supported] tells the
    keys for which the installed pyasic's [update] returns; on the others
    it raises. *)
Definition settings_update (supported : string -> bool) (key val : string)
    (settings : gmap string string) : Result (gmap string string) :=
  if supported key then Returned (<[key := val]> settings)
  else Raised ("unknown setting " +:+ key).

(** The [mapping] of [configure_passwords_from_config], in the order of the
    literal. *)
Definition mapping : list (string * string) :=
  [("antminer_web", "default_antminer_web_password");
   ("antminer_ssh", "default_antminer_ssh_password");
   ("whatsminer_rpc", "default_whatsminer_rpc_password");
   ("bosminer", "default_bosminer_password");
   ("vnish_web", "default_vnish_web_password");
   ("luxos_web", "default_luxos_web_password");
   ("luxos_ssh", "default_luxos_ssh_password");
   ("goldshell_web", "default_goldshell_web_password");
   ("iceriver_web", "default_iceriver_web_password");
   ("epic_web", "default_epic_web_password");
   ("elphapex_web", "default_elphapex_web_password");
   ("innosilicon_web", "default_innosilicon_web_password");
   ("hive_web", "default_hive_web_password");
   ("hammer_web", "default_hammer_web_password");
   ("mskminer_web", "default_mskminer_web_password");
   ("auradine_web", "default_auradine_web_password");
   ("bitaxe_web", "default_bitaxe_web_password");
   ("blockminer_web", "default_blockminer_web_password")].

(** [d.get(key)]: only a dict has the method. *)
Definition dict_get (d : json) (key : string) : Result (option json) :=
  match d with
  | JObj o => Returned (o !! key)
  | _ => Raised "object has no attribute 'get'"
  end.

(** [value is not None] for what [get] returned. *)
Definition is_not_none (value : option json) : bool :=
  match value with
  | None | Some JNull => false
  | Some _ => true
  end.

(** [s.startswith("_")] *)
Definition starts_with_underscore (s : string) : bool :=
  String.prefix "_" s.

(** One pass of the loop of [configure_passwords_from_config]. *)
Definition apply_password (repr_ : json -> string)
    (supported : string -> bool) (pw : json)
    (settings : gmap string string) (entry : string * string)
    : Result (gmap string string) :=
  let '(config_key, pyasic_key) := entry in
  value ← dict_get pw config_key;
  if is_not_none value && negb (starts_with_underscore config_key)
  then mret (try_except
               (settings_update supported pyasic_key
                  (py_str repr_ (default JNull value)) settings)
               (fun _ => settings))
  else mret settings.

(** [configure_passwords_from_config()]: the settings it leaves. *)
Definition configure_passwords_from_config (repr_ : json -> string)
    (supported : string -> bool) (file : Result json)
    (settings : gmap string string) : Result (gmap string string) :=
  let cfg := load_config file in
  found ← dict_get cfg "passwords";
  let pw := default (JObj ∅) found in
  foldl (fun acc entry =>
           settings ← acc; apply_password repr_ supported pw settings entry)
        (Returned settings) mapping.

(** The [mapping] inside [configure_passwords]. *)
Definition override_mapping : list (string * string) :=
  [("antminer_web", "default_antminer_web_password");
   ("antminer_ssh", "default_antminer_ssh_password");
   ("whatsminer", "default_whatsminer_rpc_password");
   ("bosminer", "default_bosminer_web_password")].

(** [mapping.get(k)] on a dict literal with distinct keys. *)
Definition literal_get (items : list (string * string)) (k : string)
    : option string :=
  snd <$> List.find (fun kv => bool_decide (kv.1 = k)) items.

(** [configure_passwords] called with the keyword arguments [overrides], in
    the order given; [update] is not guarded here. *)
Definition configure_passwords (repr_ : json -> string)
    (supported : string -> bool) (file : Result json)
    (overrides : list (string * string)) (settings : gmap string string)
    : Result (gmap string string) :=
  settings ← configure_passwords_from_config repr_ supported file settings;
  foldl (fun acc '(k, v) =>
           settings ← acc;
           match literal_get override_mapping k with
           | Some key =>
               if str_truthy key
               then settings_update supported key v settings
               else mret settings
           | None => mret settings
           end)
        (Returned settings) overrides.

(** ** Hashrate helpers *)

Definition factors : gmap string float :=
  list_to_map
    [("H/S", 1e-12%float); ("KH/S", 1e-9%float); ("MH/S", 1e-6%float);
     ("GH/S", 1e-3%float); ("TH/S", 1.0%float); ("PH/S", 1e3%float)].

Definition hashrate_to_ths (data : MinerData) : float :=
  match hashrate data with
  | None => 0.0%float
  | Some hr =>
      try_except
        (rate ← hr_rate hr;
         unit_ ← hr_unit hr;
         mret (rate * default 1.0 (factors !! upper unit_))%float)
        (fun _ => 0.0%float)
  end.

Definition unit_clean (unit_ : string) : string :=
  let cleaned := replace "/s" "H/s" (replace "/S" "H/s" unit_) in
  if contains "gh" (lower unit_) then "GH/s"
  else if contains "th" (lower unit_) then "TH/s"
  else if contains "mh" (lower unit_) then "MH/s"
  else if contains "ph" (lower unit_) then "PH/s"
  else cleaned.

Definition hashrate_display (data : MinerData) : string :=
  match hashrate data with
  | None => "N/A"
  | Some hr =>
      try_except
        (rate ← hr_rate hr;
         unit_ ← hr_unit hr;
         mret (format_2f rate +:+ " " +:+ unit_clean unit_))
        (fun _ => hr_str hr)
  end.

(** ** Rows *)

(** An entry of [all_pools]. *)
Record PoolDict := {
  index : nat;
  url : string;
  user : string;
  active : option bool;
  alive : option bool;
}.

Record MinerRow := {
  ip : string;
  status : string;
  miner_type : string;
  hashrate_str : string;
  hashrate_ths : float;
  temperature : string;
  pool1_url : string;
  worker : string;
  miner_obj : Miner;
  data_obj : option MinerData;
  all_pools : list PoolDict;
}.

(** ** Scanning *)

(** The progress callback, when the caller supplies one, receives [msg];
    the messages delivered are collected in order. *)
Definition notify (progress_cb : bool) (msg : string) : list string :=
  if progress_cb then [msg] else [].

(** The row appended when [get_data] raised an [Exception]. *)
Definition error_row (miner : Miner) : MinerRow :=
  {| ip := ip_of miner;
     status := "Error";
     miner_type := class_name miner;
     hashrate_str := "N/A";
     hashrate_ths := 0.0%float;
     temperature := "N/A";
     pool1_url := "N/A";
     worker := "N/A";
     miner_obj := miner;
     data_obj := None;
     all_pools := [] |}.

Definition status_of (data : MinerData) : string :=
  try_except
    (flag ← is_mining data;
     mret (if truthy flag then "Minando" else "Parado"))
    (fun _ => "OK").

Definition display_type_of (miner : Miner) (data : MinerData) : string :=
  let model_ := opt_or (model data) (class_name miner) in
  let make_ := opt_or (make data) "" in
  if str_truthy make_ && str_truthy model_
  then strip (make_ +:+ " " +:+ model_)
  else str_or model_ (class_name miner).

Definition temp_of (data : MinerData) : string :=
  try_except
    (t ← temperature_avg data;
     mret match t with
          | Some v => str_int v +:+ "°C"
          | None => "N/A"
          end)
    (fun _ => "N/A").

Definition pool_dict (idx : nat) (pool : PoolMetrics) : PoolDict :=
  {| index := idx;
     url := match pm_url pool with Some u => u | None => "" end;
     user := opt_or (pm_user pool) "";
     active := pm_active pool;
     alive := pm_alive pool |}.

(** The pools block: [(pool1_url, worker, all_pools)] after the [try]. *)
Definition pools_of (data : MinerData) : string * string * list PoolDict :=
  match pools data with
  | None | Some [] => ("N/A", "N/A", [])
  | Some pool_list =>
      let all_pools := imap pool_dict pool_list in
      let active_pool :=
        match List.find (fun p => truthy (active p)) all_pools with
        | Some p => Returned p
        | None =>
            match all_pools !! 0 with
            | Some p => Returned p
            | None => Raised "list index out of range"
            end
        end in
      match active_pool with
      | Returned p => (str_or (url p) "N/A", str_or (user p) "N/A", all_pools)
      | Raised _ => ("N/A", "N/A", all_pools)
      end
  end.

(** The row appended for a gathered [result] that is an [Exception] instance
    or the device's data. *)
Definition project_row (miner : Miner) (result : Result MinerData) : MinerRow :=
  match result with
  | Raised _ => error_row miner
  | Returned data =>
      let '(pool1, worker_, pools_) := pools_of data in
      {| ip := ip_of miner;
         status := status_of data;
         miner_type := display_type_of miner data;
         hashrate_str := hashrate_display data;
         hashrate_ths := hashrate_to_ths data;
         temperature := temp_of data;
         pool1_url := pool1;
         worker := worker_;
         miner_obj := miner;
         data_obj := Some data;
         all_pools := pools_ |}
  end.

(** One pass of the loop over [zip(miners, results)].  A gathered
    [CancelledError] fails the [isinstance] test and is used as the data:
    the reads of [is_mining], [temperature_avg] and [pools] raise inside
    their [try], [getattr] falls back on its default, and then
    [hashrate_display] reads [data.hashrate] outside any [try]. *)
Definition scan_pass (miner : Miner) (result : Awaited MinerData)
    : Result MinerRow :=
  match result with
  | Ended result => Returned (project_row miner result)
  | Cancelled => Raised "'CancelledError' object has no attribute 'hashrate'"
  end.

Definition scan_loop (rows : list MinerRow)
    (pairs : list (Miner * Awaited MinerData)) : Result (list MinerRow) :=
  foldl (fun acc '(miner, result) =>
           rows ← acc; row ← scan_pass miner result; mret (rows ++ [row]))
        (Returned rows) pairs.

(** [scan_network(subnet, progress_cb)]: the messages delivered to the
    callback and the outcome of the call. *)
Definition scan_network (network : Network) (subnet : string)
    (progress_cb : bool) : list string * Result (list MinerRow) :=
  let rows : list MinerRow := [] in
  let log := notify progress_cb ("Escaneando " +:+ subnet +:+ "...") in
  match network subnet with
  | Raised e =>
      (log ++ notify progress_cb ("Error al escanear: " +:+ e), Returned rows)
  | Returned [] =>
      (log ++ notify progress_cb "No se encontraron miners.", Returned rows)
  | Returned miners =>
      let log := log ++ notify progress_cb
        ("Encontrados " +:+ str_len miners
         +:+ " miners. Obteniendo datos...") in
      match gather (map get_data miners) with
      | Raised e => (log, Raised e)
      | Returned results =>
          match scan_loop rows (zip miners results) with
          | Raised e => (log, Raised e)
          | Returned rows =>
              (log ++ notify progress_cb
                 ("✅ Completado: " +:+ str_len rows +:+ " miners procesados."),
               Returned rows)
          end
      end
  end.

(** ** Control *)

(** The coroutines of one [gather] run on one event loop and share the
    [results] dictionary; each writes its entry after its last awaited call,
    so the dictionary is filled in the order the coroutines finish.  That
    order is the scheduler's: the dispatch functions take it as [order], a
    rearrangement of the miners passed in. *)

(** [_reboot(miner)]: the dictionary it leaves and what the coroutine ends
    in.  A cancelled [reboot] passes the [except Exception] and ends the
    coroutine before it writes. *)
Definition _reboot (miner : Miner) (results : gmap string string)
    : gmap string string * Awaited unit :=
  let ip := ip_of miner in
  match reboot miner with
  | Ended (Returned _) => (<[ip := "OK"]> results, Ended (Returned tt))
  | Ended (Raised e) => (<[ip := "Error: " +:+ e]> results, Ended (Returned tt))
  | Cancelled => (results, Cancelled)
  end.

Definition reboot_miners (miners order : list Miner)
    : Result (gmap string string) :=
  let results : gmap string string := ∅ in
  let results := foldl (fun results miner => fst (_reboot miner results))
                       results order in
  _ ← gather (map (fun miner => snd (_reboot miner results)) miners);
  mret results.

(** A pool entry of the caller: a [dict] with keys among ["url"], ["user"]
    and ["password"]. *)
Definition pool_filter (pools : list (gmap string string))
    : list (gmap string string) :=
  filter (fun p => str_truthy (strip (default "" (p !! "url")))) pools.

(** [MiningPoolConfig(url=p["url"], user=p.get("user", ""),
    password=p.get("password", "x") or "x")] *)
Definition new_pool (p : gmap string string) : Result MiningPoolConfig :=
  match p !! "url" with
  | None => Raised "'url'"
  | Some u =>
      Returned {| mpc_url := u;
                  mpc_user := default "" (p !! "user");
                  mpc_password := str_or (default "x" (p !! "password")) "x" |}
  end.

Definition build_new_pools (pool_list : list (gmap string string))
    : list MiningPoolConfig :=
  foldl (fun new_pools p =>
           try_except
             (c ← new_pool p; mret (new_pools ++ [c]))
             (fun _ => new_pools))
        [] pool_list.

(** The pool update tried on the configuration object, between
    [get_config] and [send_config]: the object it leaves, or the exception
    it raises.  [imported] is what
    [from pyasic.config.mining import MiningPoolConfig] yields; the
    statement runs only for a configuration whose [mining_mode] has a
    [pools] attribute, and the module belongs to the installed pyasic. *)
Definition update_cfg (imported : Result unit) (cfg : MinerConfig)
    (pools : list (gmap string string)) : Result MinerConfig :=
  let pool_list := pool_filter pools in
  match mining_mode cfg with
  | Attr (Some mm) =>
      match mm_pools mm with
      | Attr _ =>
          _ ← imported;
          let new_pools := build_new_pools pool_list in
          match new_pools with
          | [] => mret cfg
          | _ =>
              mret {| mining_mode :=
                        Attr (Some {| mm_name := mm_name mm;
                                      mm_pools := Attr new_pools |});
                      cfg_other := cfg_other cfg |}
          end
      | NoAttr => mret cfg
      end
  | _ => mret cfg
  end.

(** [_send(miner)]: the dictionary it leaves and what the coroutine ends
    in.  A cancelled [get_config] or [send_config] passes the
    [except Exception] and ends the coroutine before it writes. *)
Definition _send (imported : Result unit) (pools : list (gmap string string))
    (miner : Miner) (results : gmap string string)
    : gmap string string * Awaited unit :=
  let ip := ip_of miner in
  match
    cfg ← get_config miner;
    cfg ← Ended (update_cfg imported cfg pools);
    _ ← send_config miner cfg;
    mret "OK"
  with
  | Ended (Returned ok) => (<[ip := ok]> results, Ended (Returned tt))
  | Ended (Raised e) =>
      (<[ip := "Error: " +:+ e]> results, Ended (Returned tt))
  | Cancelled => (results, Cancelled)
  end.

Definition send_pool_config (imported : Result unit)
    (miners order : list Miner) (pools : list (gmap string string))
    : Result (gmap string string) :=
  let results : gmap string string := ∅ in
  let results :=
    foldl (fun results miner => fst (_send imported pools miner results))
          results order in
  _ ← gather (map (fun miner => snd (_send imported pools miner results))
                  miners);
  mret results.

(** ** The application: scan button, monitor thread, Tk main loop *)

(** The state is the attributes of [MiningManagerApp] the scan and monitor
    logic reads or writes, the worker threads under way, and the queue of
    callbacks handed to the main loop.  Buttons, progress bar and tree are
    left out: nothing below reads them. *)

(** What a worker thread hands to the main loop with [self.after(0, ...)]. *)
Inductive Callback :=
| CbSetStatus (msg : string)
| CbUpdateTable (rows : list MinerRow)
| CbScanDone.

(** Where a monitor thread stands in [_monitor_loop]. *)
Inductive MonitorPc :=
| AtWhile
| InScan (subnet : string)
| InSleep (remaining : nat)
| Finished.

Record App := {
  _rows : list MinerRow;
  _monitor_active : bool;
  _scan_running : bool;
  _miner_map : gmap string MinerRow;
  _ip_from_var : string;
  _status_var : string;
  _count_var : string;
  _monitor_info_var : string;
  (** the threads started by [_start_scan] that are inside [scan_network],
      each with its subnet *)
  scan_threads : list string;
  (** the threads started by [_on_monitor_toggle] *)
  monitor_threads : list MonitorPc;
  (** the callbacks queued with [after(0, ...)], oldest first *)
  after_queue : list Callback;
}.

Definition init (ip_from : string) : App :=
  {| _rows := [];
     _monitor_active := false;
     _scan_running := false;
     _miner_map := ∅;
     _ip_from_var := ip_from;
     _status_var := "";
     _count_var := "";
     _monitor_info_var := "Monitor: inactivo";
     scan_threads := [];
     monitor_threads := [];
     after_queue := [] |}.

Definition set_status (msg : string) (a : App) : App :=
  {| _rows := _rows a; _monitor_active := _monitor_active a;
     _scan_running := _scan_running a; _miner_map := _miner_map a;
     _ip_from_var := _ip_from_var a; _status_var := msg;
     _count_var := _count_var a; _monitor_info_var := _monitor_info_var a;
     scan_threads := scan_threads a; monitor_threads := monitor_threads a;
     after_queue := after_queue a |}.

Definition set_scan_running (b : bool) (a : App) : App :=
  {| _rows := _rows a; _monitor_active := _monitor_active a;
     _scan_running := b; _miner_map := _miner_map a;
     _ip_from_var := _ip_from_var a; _status_var := _status_var a;
     _count_var := _count_var a; _monitor_info_var := _monitor_info_var a;
     scan_threads := scan_threads a; monitor_threads := monitor_threads a;
     after_queue := after_queue a |}.

Definition set_monitor (b : bool) (info : string) (a : App) : App :=
  {| _rows := _rows a; _monitor_active := b;
     _scan_running := _scan_running a; _miner_map := _miner_map a;
     _ip_from_var := _ip_from_var a; _status_var := _status_var a;
     _count_var := _count_var a; _monitor_info_var := info;
     scan_threads := scan_threads a; monitor_threads := monitor_threads a;
     after_queue := after_queue a |}.

Definition set_scan_threads (ts : list string) (a : App) : App :=
  {| _rows := _rows a; _monitor_active := _monitor_active a;
     _scan_running := _scan_running a; _miner_map := _miner_map a;
     _ip_from_var := _ip_from_var a; _status_var := _status_var a;
     _count_var := _count_var a; _monitor_info_var := _monitor_info_var a;
     scan_threads := ts; monitor_threads := monitor_threads a;
     after_queue := after_queue a |}.

Definition set_monitor_threads (ts : list MonitorPc) (a : App) : App :=
  {| _rows := _rows a; _monitor_active := _monitor_active a;
     _scan_running := _scan_running a; _miner_map := _miner_map a;
     _ip_from_var := _ip_from_var a; _status_var := _status_var a;
     _count_var := _count_var a; _monitor_info_var := _monitor_info_var a;
     scan_threads := scan_threads a; monitor_threads := ts;
     after_queue := after_queue a |}.

Definition set_after_queue (q : list Callback) (a : App) : App :=
  {| _rows := _rows a; _monitor_active := _monitor_active a;
     _scan_running := _scan_running a; _miner_map := _miner_map a;
     _ip_from_var := _ip_from_var a; _status_var := _status_var a;
     _count_var := _count_var a; _monitor_info_var := _monitor_info_var a;
     scan_threads := scan_threads a; monitor_threads := monitor_threads a;
     after_queue := q |}.

(** [self.after(0, ...)] *)
Definition after (cbs : list Callback) (a : App) : App :=
  set_after_queue (after_queue a ++ cbs) a.

(** [s.split(".")] *)
Fixpoint split_dot (cur s : string) : list string :=
  match s with
  | EmptyString => [String.rev cur]
  | String c s' =>
      if Ascii.eqb c "."%char
      then String.rev cur :: split_dot EmptyString s'
      else split_dot (String c cur) s'
  end.

Definition _get_subnet (a : App) : string :=
  match split_dot EmptyString (strip (_ip_from_var a)) with
  | [p0; p1; p2; _] => p0 +:+ "." +:+ p1 +:+ "." +:+ p2 +:+ ".0/24"
  | _ => "192.168.1.0/24"
  end.

Definition _start_scan (subnet : string) (a : App) : App :=
  set_scan_threads (scan_threads a ++ [subnet])
    (set_status ("Escaneando " +:+ subnet +:+ "...")
       (set_scan_running true a)).

Definition _on_scan (a : App) : App :=
  if _scan_running a
  then set_status "⚠️  Ya hay un escaneo en curso..." a
  else _start_scan (_get_subnet a) a.

Definition _scan_done (a : App) : App := set_scan_running false a.

Definition _on_monitor_toggle (a : App) : App :=
  if _monitor_active a
  then set_status "Monitor detenido."
         (set_monitor false "Monitor: inactivo" a)
  else set_monitor_threads (monitor_threads a ++ [AtWhile])
         (set_monitor true "Monitor: activo ⏱"
            (set_status "Monitor activo — escaneo cada 5 min." a)).

(** The row tag chosen in [_update_table]. *)
Definition row_tag (idx : nat) (row : MinerRow) : string :=
  let status_lower := lower (status row) in
  if contains "mina" status_lower then "mining"
  else if contains "error" status_lower || contains "fail" status_lower
  then "error"
  else if contains "para" status_lower then "stopped"
  else if Nat.even idx then "even" else "odd".

Definition mining_count (rows : list MinerRow) : nat :=
  length (filter (fun row => contains "mina" (lower (status row)) = true) rows).

(** [sum(r.hashrate_ths for r in rows)]: the items added from left to
    right, starting from 0. *)
Definition total_ths (rows : list MinerRow) : float :=
  foldl (fun acc r => (acc + hashrate_ths r)%float) 0.0%float rows.

(** [_update_table]: the state it leaves; the tree widget it refills is not
    part of the state. *)
Definition _update_table (rows : list MinerRow) (a : App) : App :=
  {| _rows := rows;
     _monitor_active := _monitor_active a;
     _scan_running := _scan_running a;
     _miner_map := foldl (fun m r => <[ip r := r]> m) ∅ rows;
     _ip_from_var := _ip_from_var a;
     _status_var :=
       "✅  " +:+ str_len rows +:+ " miners encontrados — "
       +:+ format_2f (total_ths rows) +:+ " TH/s";
     _count_var :=
       str_len rows +:+ " miners  |  " +:+ pretty (mining_count rows)
       +:+ " activos  |  " +:+ format_2f (total_ths rows) +:+ " TH/s total";
     _monitor_info_var := _monitor_info_var a;
     scan_threads := scan_threads a;
     monitor_threads := monitor_threads a;
     after_queue := after_queue a |}.

Definition run_callback (cb : Callback) (a : App) : App :=
  match cb with
  | CbSetStatus msg => set_status msg a
  | CbUpdateTable rows => _update_table rows a
  | CbScanDone => _scan_done a
  end.

(** What a thread queues once its [scan_network] call is over: the progress
    messages, then the table update or the error status. *)
Definition scan_callbacks (error_prefix : string)
    (out : list string * Result (list MinerRow)) : list Callback :=
  map CbSetStatus (fst out) ++
  match snd out with
  | Returned rows => [CbUpdateTable rows]
  | Raised e => [CbSetStatus (error_prefix +:+ e)]
  end.

(** The thread of [_start_scan] leaves [scan_network]. *)
Definition scan_thread_returns (i : nat) (network : Network) (a : App) : App :=
  match scan_threads a !! i with
  | None => a
  | Some subnet =>
      after (scan_callbacks "Error: " (scan_network network subnet true)
             ++ [CbScanDone])
        (set_scan_threads (delete i (scan_threads a)) a)
  end.

(** One step of a monitor thread through [_monitor_loop]. *)
Definition monitor_thread_step (i : nat) (network : Network) (a : App) : App :=
  match monitor_threads a !! i with
  | None => a
  | Some AtWhile =>
      if _monitor_active a
      then after [CbSetStatus "🔄 Monitor: escaneando..."]
             (set_monitor_threads
                (<[i := InScan (_get_subnet a)]> (monitor_threads a)) a)
      else set_monitor_threads (<[i := Finished]> (monitor_threads a)) a
  | Some (InScan subnet) =>
      after (scan_callbacks "Monitor error: "
               (scan_network network subnet true))
        (set_monitor_threads (<[i := InSleep 300]> (monitor_threads a)) a)
  | Some (InSleep (S n)) =>
      if _monitor_active a
      then set_monitor_threads (<[i := InSleep n]> (monitor_threads a)) a
      else set_monitor_threads (<[i := AtWhile]> (monitor_threads a)) a
  | Some (InSleep O) =>
      set_monitor_threads (<[i := AtWhile]> (monitor_threads a)) a
  | Some Finished => a
  end.

(** The main loop runs the oldest queued callback. *)
Definition tk_idle (a : App) : App :=
  match after_queue a with
  | [] => a
  | cb :: q => run_callback cb (set_after_queue q a)
  end.

Inductive Event :=
| OnScan
| OnMonitorToggle
| ScanThreadReturns (i : nat) (network : Network)
| MonitorThreadStep (i : nat) (network : Network)
| TkIdle.

Definition step (a : App) (ev : Event) : App :=
  match ev with
  | OnScan => _on_scan a
  | OnMonitorToggle => _on_monitor_toggle a
  | ScanThreadReturns i network => scan_thread_returns i network a
  | MonitorThreadStep i network => monitor_thread_step i network a
  | TkIdle => tk_idle a
  end.

Definition run (a : App) (evs : list Event) : App := foldl step a evs.

Definition reachable (a : App) : Prop :=
  exists ip_from evs, a = run (init ip_from) evs.

Definition monitor_scanning (pc : MonitorPc) : bool :=
  match pc with
  | InScan _ => true
  | _ => false
  end.

(** The [scan_network] calls under way. *)
Definition pipelines_in_flight (a : App) : nat :=
  length (scan_threads a)
  + length (filter (fun pc => monitor_scanning pc = true) (monitor_threads a)).

(** [_on_scan] turned the request down: nothing but the status line changed,
    and that reads the warning. *)
Definition rejected (before after_ : App) : Prop :=
  after_ = set_status "⚠️  Ya hay un escaneo en curso..." before.

(** ** Predicates and derived notions the statements use *)




(** The four statuses of the description of the scan: "flag true → mining;
    explicit false → stopped; snapshot fetch failed → error; flag unreadable
    → unknown".  A flag that reads [None] is neither true nor an explicit
    false: no value was read. *)
Inductive Status := Mining | Stopped | Failed | Unknown.

Definition spec_status (result : Result MinerData) : Status :=
  match result with
  | Raised _ => Failed
  | Returned data =>
      match is_mining data with
      | Returned (Some true) => Mining
      | Returned (Some false) => Stopped
      | Returned None | Raised _ => Unknown
      end
  end.

(** The label [scan_network] has for each. *)
Definition status_label (s : Status) : string :=
  match s with
  | Mining => "Minando"
  | Stopped => "Parado"
  | Failed => "Error"
  | Unknown => "OK"
  end.

(** The unit labels of the factor table, as [hashrate_to_ths] compares them. *)
Definition known_units : list string :=
  ["H/S"; "KH/S"; "MH/S"; "GH/S"; "TH/S"; "PH/S"].

(** No query of [miners] was cancelled: they ended in [results], each in
    the device's data or in an [Exception]. *)
Definition queries_end (miners : list Miner)
    (results : list (Result MinerData)) : Prop :=
  get_data <$> miners = Ended <$> results.

(** What [_reboot] writes for a miner, if it writes. *)
Definition reboot_outcome (miner : Miner) : option string :=
  match reboot miner with
  | Ended (Returned _) => Some "OK"
  | Ended (Raised e) => Some ("Error: " +:+ e)
  | Cancelled => None
  end.

(** What [_send] writes for a miner, if it writes. *)
Definition send_outcome (imported : Result unit)
    (pools : list (gmap string string)) (miner : Miner) : option string :=
  match get_config miner with
  | Cancelled => None
  | Ended (Raised e) => Some ("Error: " +:+ e)
  | Ended (Returned cfg) =>
      match update_cfg imported cfg pools with
      | Raised e => Some ("Error: " +:+ e)
      | Returned cfg =>
          match send_config miner cfg with
          | Cancelled => None
          | Ended (Raised e) => Some ("Error: " +:+ e)
          | Ended (Returned _) => Some "OK"
          end
      end
  end.

(** The dictionary of a dispatch to one device. *)
Definition alone (ip : string) (outcome : option string)
    : gmap string string :=
  match outcome with
  | Some v => {[ip := v]}
  | None => ∅
  end.

(** The dictionary a dispatch leaves when its coroutines finish in [order],
    [out] telling what each writes, if it writes. *)
Definition filled (out : Miner -> option string)
    (results : gmap string string) (order : list Miner)
    : gmap string string :=
  foldl (fun results miner =>
           match out miner with
           | Some v => <[ip_of miner := v]> results
           | None => results
           end)
        results order.

Definition count_value (v : string) (results : gmap string string) : nat :=
  length (filter (fun kv => kv.2 = v) (map_to_list results)).

(** [hasattr(cfg, "mining_mode") and cfg.mining_mode is not None] and
    [hasattr(mm, "pools")] *)
Definition exposes_pool_list (cfg : MinerConfig) : bool :=
  match mining_mode cfg with
  | Attr (Some mm) =>
      match mm_pools mm with
      | Attr _ => true
      | NoAttr => false
      end
  | _ => false
  end.

Definition is_scan_done (cb : Callback) : bool :=
  match cb with
  | CbScanDone => true
  | _ => false
  end.

(** The [_scan_done] calls queued and not yet run. *)
Definition pending_done (a : App) : nat :=
  length (filter (fun cb => is_scan_done cb = true) (after_queue a)).

(** The flag covers the threads of [_start_scan]: while it is clear none of
    them is scanning or waiting for its [_scan_done], and there is never
    more than one. *)
Definition flag_covers_manual (a : App) : Prop :=
  (_scan_running a = false -> scan_threads a = [] /\ pending_done a = 0)
  /\ length (scan_threads a) + pending_done a <= 1.

(** The factor [hashrate_to_ths] applies to a unit label. *)
Definition factor_of (unit_ : string) : float :=
  default 1.0%float (factors !! upper unit_).

(** A value in TH/s in the native [unit_]: divided by the unit's factor. *)
Definition native_value (v : float) (unit_ : string) : float :=
  (v / factor_of unit_)%float.

(** A value in TH/s taken to the native [unit_] and back through
    [hashrate_to_ths]. *)
Definition unit_round_trip (v : float) (unit_ : string) : float :=
  hashrate_to_ths
    {| is_mining := Returned (Some true);
       model := None;
       make := None;
       hashrate :=
         Some {| hr_rate := Returned (native_value v unit_);
                 hr_unit := Returned unit_;
                 hr_str := "" |};
       temperature_avg := Returned None;
       pools := None |}.

(** *** Floats as reals *)

(** The number of bits of a mantissa. *)
Definition digits2_nat (p : positive) : nat := Pos.to_nat (digits2_pos p).

(** [2^e] as a real. *)
Definition pow2 (e : Z) : R := powerRZ 2 e.

(** The real [z] lies in the slot of width [2^e] at [m], where [l] says. *)
Definition located (m e : Z) (l : location) (z : R) : Prop :=
  match l with
  | loc_Exact => z = IZR m * pow2 e
  | loc_Inexact Lt => IZR m * pow2 e < z < (IZR m + / 2) * pow2 e
  | loc_Inexact Eq => z = (IZR m + / 2) * pow2 e
  | loc_Inexact Gt => (IZR m + / 2) * pow2 e < z < (IZR m + 1) * pow2 e
  end%R.

(** The magnitude of a finite float. *)
Definition mag (m : positive) (e : Z) : R := (IZR (Zpos m) * pow2 e)%R.

(** The real a float stands for (0 for what is not finite). *)
Definition F2R (x : float) : R :=
  match Prim2SF x with
  | S754_finite s m e => if s then (- mag m e)%R else mag m e
  | _ => 0%R
  end.

(** A normal number: finite, with a full mantissa. *)
Definition is_normal (x : float) : bool :=
  match classify x with
  | PNormal | NNormal => true
  | _ => false
  end.

(** The relative tolerance of the round trip: [2^-50]. *)
Definition tolerance : R := (/ 1125899906842624)%R.

(** What [binary_round_aux] returns for the mantissa [m2] it rounded to at
    the exponent [e1]: a mantissa of 54 bits is shifted once more, and an
    exponent above the largest one gives an infinity. *)
Definition rounded (sx : bool) (m2 e1 : Z) : spec_float :=
  if (m2 =? 9007199254740992)%Z
  then if (e1 + 1 <=? 971)%Z
       then S754_finite sx 4503599627370496 (e1 + 1)
       else S754_infinity sx
  else match m2 with
       | Z0 => S754_zero sx
       | Zpos p => if (e1 <=? 971)%Z then S754_finite sx p e1
                   else S754_infinity sx
       | Zneg _ => S754_nan
       end.

(** How close the native value is to the exact quotient: within [2^-53] of
    itself when it is normal, within half a least positive number when it
    is subnormal. *)
Definition close_native (Q V F : R) (normal : bool) : Prop :=
  if normal
  then (Rabs (Q - V / F) <= Q / 9007199254740992)%R
  else (Rabs (Q - V / F) <= pow2 (SpecFloat.emin prec emax) / 2
        /\ Q <= pow2 (SpecFloat.emin prec emax + 52)
                - pow2 (SpecFloat.emin prec emax)
        /\ F <= 1)%R.

(** The value in the native unit is held by binary64 without loss of
    range: it is a normal number, or a subnormal one reached through a
    factor of at most 1, which taking it back does not enlarge.  A native
    value that is infinite overflowed; one that is subnormal after a
    division by a factor above 1, or zero where the value is not,
    underflowed.  The values that are themselves a zero, an infinity or a
    NaN are the [special_value]s below. *)
Definition native_in_range (v : float) (unit_ : string) : bool :=
  match classify (native_value v unit_) with
  | PNormal | NNormal => true
  | PSubn | NSubn => (factor_of unit_ <=? 1)%float
  | _ => false
  end.

(** A zero, an infinity or a NaN. *)
Definition special_value (v : float) : bool :=
  match classify v with
  | PNormal | NNormal | PSubn | NSubn => false
  | _ => true
  end.

(** The factors [hashrate_to_ths] can apply. *)
Definition factor_values : list float :=
  [1e-12; 1e-9; 1e-6; 1e-3; 1.0; 1e3]%float.

(** ** Control from the table *)

(** [_get_selected_rows]; [selected] is what [self._tree.selection()]
    returns. *)
Definition _get_selected_rows (selected : list string) (a : App)
    : list MinerRow :=
  omap (fun ip => _miner_map a !! ip) selected.

(** A button handler leaves a state and, when it started a worker thread,
    the argument handed to the thread.  A row's [miner_obj] is a device
    handle, which is true, so every row passes [if r.miner_obj]. *)
Definition _do_reboot (miners : list Miner) (a : App)
    : App * option (list Miner) :=
  (set_status ("Reiniciando " +:+ str_len miners +:+ " miners...") a,
   Some miners).

(** [confirm] is the answer [messagebox.askyesno] gives when it is shown. *)
Definition _on_reboot_selected (selected : list string) (confirm : bool)
    (a : App) : App * option (list Miner) :=
  match _get_selected_rows selected a with
  | [] => (a, None)
  | sel => if confirm then _do_reboot (map miner_obj sel) a else (a, None)
  end.

Definition _on_reboot_all (confirm : bool) (a : App)
    : App * option (list Miner) :=
  match _rows a with
  | [] => (a, None)
  | rows => if confirm then _do_reboot (map miner_obj rows) a else (a, None)
  end.

(** The thread of [_do_reboot]: the status it queues once [reboot_miners]
    is over, the coroutines having finished in [order]. *)
Definition reboot_thread (miners order : list Miner) : Callback :=
  match reboot_miners miners order with
  | Returned results =>
      CbSetStatus ("✅ Reboot completado: "
                   +:+ pretty (count_value "OK" results) +:+ "/"
                   +:+ str_len miners +:+ " OK")
  | Raised e => CbSetStatus ("Error reboot: " +:+ e)
  end.

(** One row of the pool form: the text of its three entries. *)
Record PoolVars := {
  pv_url : string;
  pv_user : string;
  pv_password : string;
}.

(** The dict appended for a row of the form whose trimmed url is [url]. *)
Definition form_entry (url : string) (pv : PoolVars) : gmap string string :=
  <["password" := str_or (strip (pv_password pv)) "x"]>
    (<["user" := strip (pv_user pv)]> (<["url" := url]> ∅)).

(** The [pools] list [_on_update_pools] builds from the form. *)
Definition form_pools (only_enabled : bool) (pool_vars : list PoolVars)
    : list (gmap string string) :=
  foldl (fun pools pv =>
           let url := strip (pv_url pv) in
           if negb (str_truthy url) && only_enabled
           then pools
           else pools ++ [form_entry url pv])
        [] pool_vars.

Definition _on_update_pools (selected : list string) (only_enabled : bool)
    (pool_vars : list PoolVars) (a : App)
    : App * option (list Miner * list (gmap string string)) :=
  match _get_selected_rows selected a with
  | [] => (a, None)
  | sel =>
      match form_pools only_enabled pool_vars with
      | [] => (a, None)
      | pools =>
          let miners := map miner_obj sel in
          (set_status ("Enviando config a " +:+ str_len miners
                       +:+ " miners...") a,
           Some (miners, pools))
      end
  end.

(** *** Notions the statements on control use *)

(** [miner.reboot()] returned. *)
Definition reboot_succeeds (miner : Miner) : bool :=
  match reboot miner with
  | Ended (Returned _) => true
  | _ => false
  end.

(** The address map is the one [_update_table] builds from the rows. *)
Definition map_of_rows (a : App) : Prop :=
  _miner_map a = foldl (fun m r => <[ip r := r]> m) ∅ (_rows a).

(** *** Notions the statements on the configuration use *)

(** The sections [load_config] completes. *)
Definition sections : list string := ["passwords"; "network"].

(** The entries of section [s] in a loaded object: none when the section is
    missing. *)
Definition section_of (o : gmap string json) (s : string)
    : gmap string json :=
  match o !! s with
  | Some (JObj d) => d
  | _ => ∅
  end.

(** A section of the file that [load_config] can complete: missing, or an
    object. *)
Definition section_ok (o : gmap string json) (s : string) : bool :=
  match o !! s with
  | None | Some (JObj _) => true
  | Some _ => false
  end.

(** The object [load_config] returns for a file it can complete. *)
Definition completed (o : gmap string json) : gmap string json :=
  <["network" := JObj (merge_section default_network (section_of o "network"))]>
    (<["passwords" :=
         JObj (merge_section default_passwords (section_of o "passwords"))]> o).

(** The [passwords] section of what [load_config] returns. *)
Definition loaded_passwords (file : Result json) : gmap string json :=
  match load_config file with
  | JObj o => section_of o "passwords"
  | _ => ∅
  end.

(** What the loop of [configure_passwords_from_config] leaves under
    [pyasic_key] when the mapping sends [config_key] to it. *)
Definition applied (repr_ : json -> string) (supported : string -> bool)
    (pw : gmap string json) (settings : gmap string string)
    (config_key pyasic_key : string) : option string :=
  if is_not_none (pw !! config_key) && supported pyasic_key
  then Some (py_str repr_ (default JNull (pw !! config_key)))
  else settings !! pyasic_key.

(** *** Notions the statements on text use *)

(** The number of dots of a string. *)
Fixpoint dots (s : string) : nat :=
  match s with
  | EmptyString => 0
  | String c s' => (if Ascii.eqb c "."%char then 1 else 0) + dots s'
  end.

(** The device answered and its [is_mining] flag reads true. *)
Definition reports_mining (miner : Miner) : bool :=
  match get_data miner with
  | Ended (Returned data) =>
      match is_mining data with
      | Returned flag => truthy flag
      | Raised _ => false
      end
  | _ => false
  end.

(** A string that does not begin with white space. *)
Definition starts_clean (s : string) : Prop :=
  match s with
  | EmptyString => True
  | String c _ => is_space c = false
  end.

(** *** Notions the statements on the scan cycle use *)

(** No manual scan under way and nothing queued for the main loop. *)
Definition idle (a : App) : Prop :=
  _scan_running a = false /\ scan_threads a = [] /\ after_queue a = [].

(** The events of one manual scan: the button, the thread leaving
    [scan_network], and the main loop running the [n] callbacks queued. *)
Definition scan_round (network : Network) (n : nat) : list Event :=
  [OnScan; ScanThreadReturns 0 network] ++ replicate n TkIdle.

(** Where a monitor thread stands after one more step once the monitor is
    off. *)
Definition stopped_next (pc : MonitorPc) : MonitorPc :=
  match pc with
  | AtWhile => Finished
  | InScan _ => InSleep 300
  | InSleep _ => AtWhile
  | Finished => Finished
  end.

(** ** Sample devices and inputs *)

Definition sample_hashrate (rate : float) (unit_ : string) : HashRate :=
  {| hr_rate := Returned rate; hr_unit := Returned unit_; hr_str := "" |}.

Definition sample_data (hr : option HashRate) : MinerData :=
  {| is_mining := Returned (Some true);
     model := Some "S19";
     make := Some "Antminer";
     hashrate := hr;
     temperature_avg := Returned (Some 61%Z);
     pools := Some [] |}.

Definition sample_miner (addr : string) (fetched : Result MinerData) : Miner :=
  {| miner_ip := Attr addr;
     class_name := "BMMinerS19";
     get_data := Ended fetched;
     reboot := Ended (Returned tt);
     get_config := Ended (Raised "not supported");
     send_config := fun _ => Ended (Returned tt) |}.

Definition data_with_flag (flag : Result (option bool)) : MinerData :=
  {| is_mining := flag;
     model := None;
     make := None;
     hashrate := None;
     temperature_avg := Returned None;
     pools := None |}.

Definition pool_entry (u : option string) (act : option bool) : PoolMetrics :=
  {| pm_url := u; pm_user := None; pm_active := act; pm_alive := None |}.

Definition pool_of (u w : option string) (act : option bool) : PoolMetrics :=
  {| pm_url := u; pm_user := w; pm_active := act; pm_alive := None |}.

Definition data_with_pools (ps : option (list PoolMetrics)) : MinerData :=
  {| is_mining := Returned (Some true);
     model := None;
     make := None;
     hashrate := None;
     temperature_avg := Returned None;
     pools := ps |}.

Definition three_miners : list Miner :=
  [sample_miner "10.0.0.1" (Raised "timed out");
   sample_miner "10.0.0.2" (Returned (sample_data None));
   sample_miner "10.0.0.3" (Raised "connection refused")].

(** What their queries end in. *)
Definition three_results : list (Result MinerData) :=
  [Raised "timed out"; Returned (sample_data None);
   Raised "connection refused"].

(** A device whose query is cancelled. *)
Definition cancelled_query (addr : string) : Miner :=
  {| miner_ip := Attr addr;
     class_name := "BMMinerS19";
     get_data := Cancelled;
     reboot := Ended (Returned tt);
     get_config := Ended (Raised "not supported");
     send_config := fun _ => Ended (Returned tt) |}.

Definition one_query_cancelled : list Miner :=
  [sample_miner "10.0.0.1" (Returned (sample_data None));
   cancelled_query "10.0.0.2";
   sample_miner "10.0.0.3" (Raised "connection refused")].



(** A range [MinerNetwork] rejects, and a range on which nothing answers. *)
Definition network_raises (e : Exception) : Network := fun _ => Raised e.

Definition network_silent : Network := fun _ => Returned [].

Definition rebooting (addr : string) (outcome : Result unit) : Miner :=
  {| miner_ip := Attr addr;
     class_name := "BMMinerS19";
     get_data := Ended (Raised "unused");
     reboot := Ended outcome;
     get_config := Ended (Raised "unused");
     send_config := fun _ => Ended (Returned tt) |}.

(** A device whose reboot is cancelled. *)
Definition cancelled_reboot (addr : string) : Miner :=
  {| miner_ip := Attr addr;
     class_name := "BMMinerS19";
     get_data := Ended (Raised "unused");
     reboot := Cancelled;
     get_config := Ended (Raised "unused");
     send_config := fun _ => Ended (Returned tt) |}.

Definition one_reboot_cancelled : list Miner :=
  [rebooting "10.0.0.1" (Returned tt);
   cancelled_reboot "10.0.0.2";
   rebooting "10.0.0.3" (Returned tt);
   rebooting "10.0.0.4" (Raised "connection refused");
   rebooting "10.0.0.5" (Returned tt)].

Definition five_miners : list Miner :=
  [rebooting "10.0.0.1" (Returned tt);
   rebooting "10.0.0.2" (Raised "timed out");
   rebooting "10.0.0.3" (Returned tt);
   rebooting "10.0.0.4" (Raised "connection refused");
   rebooting "10.0.0.5" (Returned tt)].

Definition legacy_cfg : MinerConfig :=
  {| mining_mode := Attr (Some {| mm_name := "normal"; mm_pools := NoAttr |});
     cfg_other := "fan=auto" |}.

Definition legacy_miner : Miner :=
  {| miner_ip := Attr "10.0.0.6";
     class_name := "CGMinerA10";
     get_data := Ended (Raised "unused");
     reboot := Ended (Returned tt);
     get_config := Ended (Returned legacy_cfg);
     send_config := fun _ => Ended (Returned tt) |}.

(** The import on a pyasic whose [pyasic.config.mining] defines no
    [MiningPoolConfig]: an [ImportError], whose message ends with the path
    of the module file. *)
Definition import_error : Exception :=
  "cannot import name 'MiningPoolConfig' from 'pyasic.config.mining' (/usr/lib/python3/site-packages/pyasic/config/mining/__init__.py)".

Definition import_fails : Result unit := Raised import_error.

Definition one_pool : list (gmap string string) :=
  [list_to_map [("url", "stratum+tcp://pool.example:3333"); ("user", "w1")]].

Definition modern_miner : Miner :=
  {| miner_ip := Attr "10.0.0.7";
     class_name := "BOSMinerS19";
     get_data := Ended (Raised "unused");
     reboot := Ended (Returned tt);
     get_config :=
       Ended (Returned
         {| mining_mode :=
              Attr (Some {| mm_name := "normal"; mm_pools := Attr [] |});
            cfg_other := "" |});
     send_config := fun _ => Ended (Raised "rejected") |}.

(** *** Sample configuration files *)

(** A file that sets one password and carries a section of its own. *)
Definition partial_file : gmap string json :=
  dict_of
    [("passwords", JObj (dict_of [("antminer_web", JStr "s3cret");
                                  ("bosminer_web", JStr "other")]));
     ("pools", JArr [])].

(** A file whose [network] section is not an object. *)
Definition broken_file : gmap string json :=
  dict_of
    [("passwords", JObj (dict_of [("antminer_web", JStr "s3cret")]));
     ("network", JNull)].

(** [partial_file] without its [bosminer_web] entry. *)
Definition partial_file' : gmap string json :=
  dict_of
    [("passwords", JObj (dict_of [("antminer_web", JStr "s3cret")]));
     ("pools", JArr [])].

(** [repr] of the values [py_str] leaves to it; the samples have none. *)
Definition no_repr : json -> string := fun _ => "".

(** *** Sample forms *)

Definition blank_form : list PoolVars :=
  [{| pv_url := "  "; pv_user := "w1"; pv_password := "" |};
   {| pv_url := ""; pv_user := ""; pv_password := "" |};
   {| pv_url := ""; pv_user := ""; pv_password := "" |}].

Definition two_same_address : list Miner :=
  [rebooting "10.0.0.1" (Returned tt); rebooting "10.0.0.1" (Returned tt)].

(** A table that shows one device. *)
Definition one_row_app : App :=
  _update_table [error_row (rebooting "10.0.0.2" (Returned tt))]
                (init "10.0.0.1").

(** * Properties *)

(** [H : x ∈ [a; b; ...]]: one case per listed element, each closed by
    [tac] applied to the equation [x = a]. *)
Ltac elem_cases H tac :=
  repeat (let E := fresh "E" in
          apply elem_of_cons in H as [E | H]; [tac E |]);
  apply elem_of_nil in H; destruct H.

(** The least exponent of binary64, and arithmetic on its constants. *)
Abbreviation emin64 := (SpecFloat.emin prec emax).

Ltac format_lia := unfold fexp, SpecFloat.emin, prec, emax in *; lia.

(** ** The Python layer on sample text *)

Example upper_lower_samples :
  upper "Th/s" = "TH/S" /\ lower "Parado" = "parado"
  /\ contains "para" (lower "Parado") = true
  /\ contains "error" (lower "OK") = false.
Proof. repeat split. Qed.

Example replace_samples :
  replace "/s" "H/s" "T/s" = "TH/s" /\ replace "ab" "x" "ababa" = "xxa"
  /\ strip "  10.0.0.1 " = "10.0.0.1".
Proof. repeat split. Qed.

Example format_2f_samples :
  format_2f 13.5%float = "13.50" /\ format_2f 0.125%float = "0.12"
  /\ format_2f 0.375%float = "0.38" /\ format_2f (-2.675)%float = "-2.67"
  /\ format_2f 1e3%float = "1000.00" /\ format_2f 0.995%float = "0.99".
Proof. vm_compute. repeat split. Qed.

Example hashrate_display_samples :
  hashrate_display (sample_data (Some (sample_hashrate 13.5 "TH/s")))
  = "13.50 TH/s"
  /\ hashrate_display (sample_data (Some (sample_hashrate 420 "Sol/s")))
     = "420.00 SolH/s"
  /\ hashrate_display (sample_data None) = "N/A".
Proof. vm_compute. repeat split. Qed.

Example get_subnet_samples :
  _get_subnet (init " 10.20.30.40 ") = "10.20.30.0/24"
  /\ _get_subnet (init "10.20.30") = "192.168.1.0/24".
Proof. vm_compute. repeat split. Qed.

(** ** Binary64 arithmetic *)

(** *** Exact cases *)

(** Multiplying by 1.0 is exact: the product's mantissa is the rate's
    shifted by 52 bits, and rounding shifts it back with nothing lost. *)
Lemma one_spec : Prim2SF 1.0%float = S754_finite false 4503599627370496 (-52).
Proof. reflexivity. Qed.

Lemma digits2_shift (p : positive) :
  Zpos (digits2_pos (Pos.iter xO p 52)) = (Zpos (digits2_pos p) + 52)%Z.
Proof. cbn [Pos.iter digits2_pos]. lia. Qed.

Lemma mul_pow52 (p : positive) :
  (p * 4503599627370496)%positive = Pos.iter xO p 52.
Proof. rewrite Pos.mul_comm. reflexivity. Qed.

Lemma shr_52 (p : positive) :
  SpecFloat.iter_pos shr_1 52
    (Build_shr_record (Zpos (Pos.iter xO p 52)) false false)
  = Build_shr_record (Zpos p) false false.
Proof. reflexivity. Qed.

Lemma SFmul_one (x : spec_float) :
  valid_binary x = true ->
  SF64mul x (S754_finite false 4503599627370496 (-52)) = x.
Proof.
  intros Hx. destruct x as [[|] | [|] | | sx mx ex]; try reflexivity.
  unfold SF64mul, SFmul. rewrite xorb_false_r, mul_pow52.
  unfold valid_binary, bounded, canonical_mantissa in Hx.
  apply andb_prop in Hx as [Hcanon Hbound]. apply Z.eqb_eq in Hcanon.
  unfold binary_round_aux, shr_fexp, Zdigits2.
  rewrite digits2_shift.
  replace (Zpos (digits2_pos mx) + 52 + (ex + -52))%Z
    with (Zpos (digits2_pos mx) + ex)%Z by lia.
  rewrite Hcanon.
  replace (ex - (ex + -52))%Z with 52%Z by lia.
  cbn [shr_record_of_loc shr]. rewrite shr_52.
  cbn [shr_m loc_of_shr_record round_nearest_even Zdigits2].
  replace (ex + -52 + 52)%Z with ex by lia.
  rewrite Hcanon, Z.sub_diag. cbn [shr_record_of_loc shr shr_m].
  rewrite Hbound. reflexivity.
Qed.

Lemma mul_one_r (x : float) : (x * 1.0)%float = x.
Proof.
  apply Prim2SF_inj. rewrite mul_spec, one_spec.
  apply SFmul_one, Prim2SF_valid.
Qed.


(** [iter_pos] counted in [nat]. *)
Lemma iter_pos_nat {A} (f : A -> A) (p : positive) (x : A) :
  SpecFloat.iter_pos f p x = Nat.iter (Pos.to_nat p) f x.
Proof.
  revert x. induction p as [p IH | p IH |]; intros x.
  - change (SpecFloat.iter_pos f p~1 x)
      with (SpecFloat.iter_pos f p (SpecFloat.iter_pos f p (f x))).
    rewrite !IH, Pos2Nat.inj_xI, Nat.iter_succ_r, <- Nat.iter_add.
    f_equal. lia.
  - change (SpecFloat.iter_pos f p~0 x)
      with (SpecFloat.iter_pos f p (SpecFloat.iter_pos f p x)).
    rewrite !IH, Pos2Nat.inj_xO, <- Nat.iter_add. f_equal. lia.
  - reflexivity.
Qed.

(** Fewer shifts than the mantissa has bits leave it positive. *)
Lemma shr_iter_positive (k : nat) : forall (p : positive) (r s : bool),
  (k < digits2_nat p)%nat ->
  exists q r' s', Nat.iter k shr_1 (Build_shr_record (Zpos p) r s)
                  = Build_shr_record (Zpos q) r' s'.
Proof.
  induction k as [| k IH]; intros p r s Hk.
  - exists p, r, s. reflexivity.
  - rewrite Nat.iter_succ_r. unfold digits2_nat in *.
    destruct p as [p | p |]; simpl in *.
    + apply IH. unfold digits2_nat. rewrite Pos2Nat.inj_succ in Hk. lia.
    + apply IH. unfold digits2_nat. rewrite Pos2Nat.inj_succ in Hk. lia.
    + lia.
Qed.

(** Shifting a positive mantissa to its format exponent leaves it positive
    and the exponent at or above [emin]. *)
Lemma shr_fexp_positive (p : positive) (e : Z) (l : location) :
  (emin64 <= e)%Z ->
  exists q r s e',
    shr_fexp prec emax (Zpos p) e l = (Build_shr_record (Zpos q) r s, e')
    /\ (emin64 <= e')%Z.
Proof.
  intros He. unfold shr_fexp, shr, fexp, Zdigits2.
  set (n := (Z.max (Zpos (digits2_pos p) + e - prec) emin64 - e)%Z).
  assert (Hn : (n < Zpos (digits2_pos p))%Z).
  { subst n. format_lia. }
  destruct l as [| [| |]]; simpl shr_record_of_loc;
    (destruct n as [| pn | pn] eqn:Hpn;
     [ eexists _, _, _, _; split; [reflexivity | exact He]
     | rewrite iter_pos_nat;
       match goal with
       | |- context [Nat.iter _ shr_1 (Build_shr_record (Zpos p) ?r ?s)] =>
           destruct (shr_iter_positive (Pos.to_nat pn) p r s)
             as (q & r' & s' & Hq); [unfold digits2_nat; lia |]
       end;
       rewrite Hq; eexists _, _, _, _; split; [reflexivity | lia]
     | eexists _, _, _, _; split; [reflexivity | exact He] ]).
Qed.

Lemma round_nearest_even_positive (q : positive) (l : location) :
  exists q', round_nearest_even (Zpos q) l = Zpos q'.
Proof.
  destruct l as [| [| |]]; simpl; try (eexists; reflexivity).
  - destruct q; simpl; eexists; reflexivity.
Qed.

Lemma binary_round_aux_not_zero (sx : bool) (p : positive) (e : Z)
    (l : location) (s : bool) :
  (emin64 <= e)%Z ->
  binary_round_aux prec emax sx (Zpos p) e l <> S754_zero s.
Proof.
  intros He. unfold binary_round_aux.
  destruct (shr_fexp_positive p e l He) as (q & r1 & s1 & e1 & H1 & He1).
  rewrite H1. cbn [shr_m].
  destruct (round_nearest_even_positive q
              (loc_of_shr_record (Build_shr_record (Zpos q) r1 s1)))
    as (q' & Hq').
  rewrite Hq'.
  destruct (shr_fexp_positive q' e1 loc_Exact He1)
    as (q2 & r2 & s2 & e2 & H2 & He2).
  rewrite H2. cbn [shr_m].
  destruct (e2 <=? emax - prec)%Z; discriminate.
Qed.

Lemma binary_round_not_zero (sx : bool) (p : positive) (e : Z) (s : bool) :
  (emin64 <= e)%Z ->
  binary_round prec emax sx p e <> S754_zero s.
Proof.
  intros He. unfold binary_round, shl_align.
  set (t := fexp prec emax (Zpos (digits2_pos p) + e)).
  assert (Ht : (emin64 <= t)%Z) by (subst t; format_lia).
  destruct (t - e)%Z eqn:Hd; apply binary_round_aux_not_zero; assumption.
Qed.

Lemma valid_exponent (s : bool) (m : positive) (e : Z) :
  valid_binary (S754_finite s m e) = true -> (emin64 <= e)%Z.
Proof.
  unfold valid_binary, bounded, canonical_mantissa, fexp. intros H.
  apply andb_prop in H as [H _]. apply Z.eqb_eq in H. format_lia.
Qed.

(** A sum of floats is the negative zero only when the left summand is:
    rounding a non-zero sum at or above the least exponent never reaches
    zero. *)
Lemma SFadd_negative_zero (x y : spec_float) :
  valid_binary x = true -> valid_binary y = true ->
  SF64add x y = S754_zero true -> x = S754_zero true.
Proof.
  intros Hx Hy. unfold SF64add, SFadd.
  destruct x as [[|] | sx | | sx mx ex]; destruct y as [[|] | sy | | sy my ey];
    try discriminate; try reflexivity.
  - destruct sx, sy; discriminate.
  - unfold binary_normalize. intros H.
    pose proof (valid_exponent _ _ _ Hx). pose proof (valid_exponent _ _ _ Hy).
    destruct (_ + _)%Z eqn:Hsum in H; [discriminate H | |];
      apply binary_round_not_zero in H; try contradiction; format_lia.
Qed.

Lemma add_not_negative_zero (x y : float) :
  Prim2SF x <> S754_zero true -> Prim2SF (x + y) <> S754_zero true.
Proof.
  intros Hx H. rewrite add_spec in H. apply Hx.
  apply (SFadd_negative_zero _ (Prim2SF y)); auto using Prim2SF_valid.
Qed.

(** *** Shifting and rounding a mantissa *)

Lemma shr_record_of_loc_spec (m : Z) (l : location) :
  shr_m (shr_record_of_loc m l) = m
  /\ loc_of_shr_record (shr_record_of_loc m l) = l.
Proof. destruct l as [| [| |]]; split; reflexivity. Qed.

(** A mantissa of [d] bits is at least [2^(d-1)]. *)
Lemma digits2_lower (m : positive) :
  (2 ^ (Zpos (digits2_pos m) - 1) <= Zpos m)%Z.
Proof.
  induction m as [p IH | p IH |]; cbn [digits2_pos].
  - rewrite Pos2Z.inj_succ.
    replace (Z.succ (Zpos (digits2_pos p)) - 1)%Z
      with (Z.succ (Zpos (digits2_pos p) - 1))%Z by lia.
    rewrite Z.pow_succ_r by lia. lia.
  - rewrite Pos2Z.inj_succ.
    replace (Z.succ (Zpos (digits2_pos p)) - 1)%Z
      with (Z.succ (Zpos (digits2_pos p) - 1))%Z by lia.
    rewrite Z.pow_succ_r by lia. lia.
  - simpl. lia.
Qed.

Lemma digits2_upper (m : positive) :
  (Zpos m < 2 ^ Zpos (digits2_pos m))%Z.
Proof.
  induction m as [p IH | p IH |]; cbn [digits2_pos].
  - rewrite Pos2Z.inj_succ, Z.pow_succ_r by lia. lia.
  - rewrite Pos2Z.inj_succ, Z.pow_succ_r by lia. lia.
  - simpl. lia.
Qed.

Lemma Zdigits2_upper (m : Z) : (0 <= m)%Z -> (m < 2 ^ Zdigits2 m)%Z.
Proof.
  destruct m as [| p | p]; intros Hm; [simpl; lia | | lia].
  apply digits2_upper.
Qed.

Lemma Zdigits2_nonneg (m : Z) : (0 <= m)%Z -> (0 <= Zdigits2 m)%Z.
Proof. destruct m; simpl; lia. Qed.

Lemma Zdigits2_bound (m D : Z) :
  (0 <= m < 2 ^ D)%Z -> (0 <= D)%Z -> (Zdigits2 m <= D)%Z.
Proof.
  intros [Hm Hlt] HD. destruct m as [| p | p]; [simpl; lia | | lia].
  pose proof (digits2_lower p) as Hlow. simpl.
  assert (H : (2 ^ (Zpos (digits2_pos p) - 1) < 2 ^ D)%Z) by lia.
  apply Z.pow_lt_mono_r_iff in H; lia.
Qed.

Lemma shr_1_half (mrs : shr_record) :
  (0 <= shr_m mrs)%Z ->
  (0 <= shr_m (shr_1 mrs))%Z /\ (2 * shr_m (shr_1 mrs) <= shr_m mrs)%Z.
Proof.
  destruct mrs as [m r s]. cbn [shr_m]. intros Hm.
  destruct m as [| [p | p |] | p]; cbn [shr_1 shr_m]; lia.
Qed.

Lemma shr_iter_half (k : nat) (mrs : shr_record) :
  (0 <= shr_m mrs)%Z ->
  (0 <= shr_m (Nat.iter k shr_1 mrs))%Z
  /\ (2 ^ Z.of_nat k * shr_m (Nat.iter k shr_1 mrs) <= shr_m mrs)%Z.
Proof.
  intros Hm. induction k as [| k [IH0 IH]].
  - simpl. lia.
  - rewrite Nat.iter_succ.
    destruct (shr_1_half (Nat.iter k shr_1 mrs) IH0) as [H0 H].
    split; [exact H0 |].
    rewrite Nat2Z.inj_succ, Z.pow_succ_r by lia.
    assert (Hp : (0 < 2 ^ Z.of_nat k)%Z) by (apply Z.pow_pos_nonneg; lia).
    nia.
Qed.

(** After the shift to the format's exponent the mantissa has at most 53
    bits, and the exponent is the larger of the one given and the
    format's. *)
Lemma shr_fexp_mantissa (m e : Z) (l : location) :
  (0 <= m)%Z ->
  snd (shr_fexp prec emax m e l)
  = Z.max e (fexp prec emax (Zdigits2 m + e))
  /\ (0 <= shr_m (fst (shr_fexp prec emax m e l)) < 9007199254740992)%Z
  /\ (emin64 <= snd (shr_fexp prec emax m e l))%Z.
Proof.
  intros Hm. pose proof (Zdigits2_upper m Hm) as Hup.
  pose proof (Zdigits2_nonneg m Hm) as Hd.
  destruct (shr_record_of_loc_spec m l) as [Hrm _].
  unfold shr_fexp, shr.
  set (d := Zdigits2 m) in *. set (rec := shr_record_of_loc m l) in *.
  destruct (fexp prec emax (d + e) - e)%Z as [| n | n] eqn:Hn;
    cbn [fst snd].
  - split; [format_lia | split; [| format_lia]].
    rewrite Hrm. split; [exact Hm |].
    assert (Hd53 : (d <= 53)%Z) by format_lia.
    assert (H : (2 ^ d <= 2 ^ 53)%Z) by (apply Z.pow_le_mono_r; lia).
    change (2 ^ 53)%Z with 9007199254740992%Z in H. lia.
  - split; [format_lia | split; [| format_lia]].
    rewrite iter_pos_nat.
    destruct (shr_iter_half (Pos.to_nat n) rec) as [H0 H];
      [rewrite Hrm; exact Hm |].
    rewrite positive_nat_Z, Hrm in H.
    split; [exact H0 |].
    assert (Hdn : (d <= 53 + Zpos n)%Z) by format_lia.
    assert (Hpow : (2 ^ d <= 2 ^ (53 + Zpos n))%Z)
      by (apply Z.pow_le_mono_r; lia).
    rewrite Z.pow_add_r in Hpow by lia.
    change (2 ^ 53)%Z with 9007199254740992%Z in Hpow.
    assert (Hp : (0 < 2 ^ Zpos n)%Z) by (apply Z.pow_pos_nonneg; lia).
    nia.
  - split; [format_lia | split; [| format_lia]].
    rewrite Hrm. split; [exact Hm |].
    assert (Hd53 : (d <= 53)%Z) by format_lia.
    assert (H : (2 ^ d <= 2 ^ 53)%Z) by (apply Z.pow_le_mono_r; lia).
    change (2 ^ 53)%Z with 9007199254740992%Z in H. lia.
Qed.

Lemma round_nearest_even_range (m : Z) (l : location) :
  (m <= round_nearest_even m l <= m + 1)%Z.
Proof.
  destruct l as [| [| |]]; cbn [round_nearest_even];
    try destruct (Z.even m); lia.
Qed.

(** The second shift of [binary_round_aux] loses nothing. *)
Lemma shr_fexp_exact_small (m e : Z) :
  (0 <= m < 9007199254740992)%Z ->
  (emin64 <= e)%Z ->
  shr_fexp prec emax m e loc_Exact = (Build_shr_record m false false, e).
Proof.
  intros Hm He.
  assert (Hd : (Zdigits2 m <= 53)%Z).
  { apply Zdigits2_bound; [| lia].
    change (2 ^ 53)%Z with 9007199254740992%Z. exact Hm. }
  unfold shr_fexp, shr. cbn [shr_record_of_loc].
  destruct (fexp prec emax (Zdigits2 m + e) - e)%Z eqn:Hn; try reflexivity.
  format_lia.
Qed.

Lemma shr_fexp_exact_carry (e : Z) :
  (emin64 <= e)%Z ->
  shr_fexp prec emax 9007199254740992 e loc_Exact
  = (Build_shr_record 4503599627370496 false false, (e + 1)%Z).
Proof.
  intros He. unfold shr_fexp, shr. cbn [shr_record_of_loc].
  change (Zdigits2 9007199254740992) with 54%Z.
  replace (fexp prec emax (54 + e) - e)%Z with 1%Z by format_lia.
  reflexivity.
Qed.

(** *** Rounding error *)

(** The operations of binary64 against the reals: rounding keeps a real in
    its slot while the mantissa is shifted, picks the nearest mantissa, and
    so returns a float within half a last place of the real, unless the
    real is beyond the largest float; that bounds a quotient, a product,
    and a division followed by a multiplication. *)

Open Scope R_scope.

Lemma pow2_pos (e : Z) : 0 < pow2 e.
Proof. apply powerRZ_lt. lra. Qed.

Lemma pow2_add (a b : Z) : pow2 (a + b) = pow2 a * pow2 b.
Proof. apply powerRZ_add. lra. Qed.

Lemma pow2_succ (e : Z) : pow2 (e + 1) = 2 * pow2 e.
Proof. rewrite pow2_add. unfold pow2 at 2. simpl. lra. Qed.

Lemma IZR_xO (p : positive) : IZR (Zpos p~0) = 2 * IZR (Zpos p).
Proof. rewrite <- mult_IZR. reflexivity. Qed.

Lemma IZR_xI (p : positive) : IZR (Zpos p~1) = 2 * IZR (Zpos p) + 1.
Proof. rewrite <- mult_IZR, <- plus_IZR. reflexivity. Qed.

Lemma shr_1_located (mrs : shr_record) (e : Z) (z : R) :
  (0 <= shr_m mrs)%Z ->
  located (shr_m mrs) e (loc_of_shr_record mrs) z ->
  located (shr_m (shr_1 mrs)) (e + 1) (loc_of_shr_record (shr_1 mrs)) z
  /\ (0 <= shr_m (shr_1 mrs))%Z.
Proof.
  destruct mrs as [m r s]. cbn [shr_m]. intros Hm.
  pose proof (pow2_pos e) as Hw. unfold located. rewrite pow2_succ.
  set (w := pow2 e) in *.
  destruct m as [| [p | p |] | p]; try lia;
    destruct r, s; cbn [shr_1 shr_m loc_of_shr_record orb];
    try rewrite (IZR_xI p); try rewrite (IZR_xO p);
    try set (P := IZR (Zpos p)); intros H; (split; [lra | lia]).
Qed.

Lemma shr_iter_located (k : nat) (mrs : shr_record) (e : Z) (z : R) :
  (0 <= shr_m mrs)%Z ->
  located (shr_m mrs) e (loc_of_shr_record mrs) z ->
  located (shr_m (Nat.iter k shr_1 mrs)) (e + Z.of_nat k)
          (loc_of_shr_record (Nat.iter k shr_1 mrs)) z
  /\ (0 <= shr_m (Nat.iter k shr_1 mrs))%Z.
Proof.
  intros Hm Hloc. induction k as [| k [IHloc IHm]].
  - simpl. rewrite Z.add_0_r. split; assumption.
  - rewrite Nat.iter_succ.
    replace (e + Z.of_nat (S k))%Z with (e + Z.of_nat k + 1)%Z by lia.
    apply shr_1_located; assumption.
Qed.

(** Shifting to the format's exponent keeps the slot; either nothing is
    shifted or the exponent grows. *)
Lemma shr_fexp_located (m e : Z) (l : location) (z : R) :
  (0 <= m)%Z ->
  located m e l z ->
  located (shr_m (fst (shr_fexp prec emax m e l)))
          (snd (shr_fexp prec emax m e l))
          (loc_of_shr_record (fst (shr_fexp prec emax m e l))) z
  /\ (0 <= shr_m (fst (shr_fexp prec emax m e l)))%Z
  /\ (shr_fexp prec emax m e l = (shr_record_of_loc m l, e)
      \/ (e + 1 <= snd (shr_fexp prec emax m e l))%Z).
Proof.
  intros Hm Hloc. unfold shr_fexp, shr.
  destruct (shr_record_of_loc_spec m l) as [Hrm Hrl].
  set (rec := shr_record_of_loc m l) in *.
  assert (Hrec : located (shr_m rec) e (loc_of_shr_record rec) z)
    by (rewrite Hrm, Hrl; exact Hloc).
  destruct (fexp prec emax (Zdigits2 m + e) - e)%Z as [| n | n];
    cbn [fst snd].
  - repeat split; [exact Hrec | rewrite Hrm; exact Hm | left; reflexivity].
  - rewrite iter_pos_nat.
    destruct (shr_iter_located (Pos.to_nat n) rec e z) as [H1 H2];
      [rewrite Hrm; exact Hm | exact Hrec |].
    rewrite positive_nat_Z in H1.
    repeat split; [exact H1 | exact H2 | right; lia].
  - repeat split; [exact Hrec | rewrite Hrm; exact Hm | left; reflexivity].
Qed.

(** Rounding to nearest moves the mantissa at most half a slot off. *)
Lemma round_nearest_even_near (m e : Z) (l : location) (z : R) :
  (0 <= m)%Z ->
  located m e l z ->
  - (pow2 e / 2) <= IZR (round_nearest_even m l) * pow2 e - z <= pow2 e / 2
  /\ (0 <= round_nearest_even m l)%Z.
Proof.
  intros Hm. pose proof (pow2_pos e) as Hw. unfold located.
  set (w := pow2 e) in *. set (M := IZR m).
  assert (Hplus : IZR (m + 1) = M + 1) by (rewrite plus_IZR; reflexivity).
  destruct l as [| [| |]]; cbn [round_nearest_even]; intros H;
    try destruct (Z.even m); rewrite ?Hplus; fold M;
    (split; [lra | lia]).
Qed.

Lemma pow2_ge_1 (k : Z) : (0 <= k)%Z -> 1 <= pow2 k.
Proof.
  intros Hk. rewrite <- (Z2Nat.id k Hk). unfold pow2.
  rewrite <- pow_powerRZ. apply pow_R1_Rle. lra.
Qed.

Lemma pow2_le (a b : Z) : (a <= b)%Z -> pow2 a <= pow2 b.
Proof.
  intros H. replace b with (a + (b - a))%Z by lia. rewrite pow2_add.
  pose proof (pow2_pos a). pose proof (pow2_ge_1 (b - a) ltac:(lia)). nra.
Qed.

(** The slot holds its real: at most one slot width above its lower end. *)
Lemma located_within (m e : Z) (l : location) (z : R) :
  located m e l z -> 0 <= z - IZR m * pow2 e < pow2 e.
Proof.
  pose proof (pow2_pos e) as Hw. unfold located.
  set (w := pow2 e) in *. set (M := IZR m).
  destruct l as [| [| |]]; intros H; lra.
Qed.

Lemma normal_mantissa (m : positive) :
  digits2_pos m = 53%positive -> 4503599627370496 <= IZR (Zpos m).
Proof.
  intros Hd. pose proof (digits2_lower m) as H. rewrite Hd in H.
  apply IZR_le in H. exact H.
Qed.

Lemma pow2_IZR (s : Z) : (0 <= s)%Z -> IZR (2 ^ s) = pow2 s.
Proof.
  intros Hs. rewrite <- (Z2Nat.id s Hs). unfold pow2.
  rewrite <- pow_powerRZ, <- (pow_IZR 2). reflexivity.
Qed.

Lemma mag_pos (m : positive) (e : Z) : 0 < mag m e.
Proof.
  unfold mag. apply Rmult_lt_0_compat; [apply IZR_lt; lia | apply pow2_pos].
Qed.

Lemma new_location_located (m2 q r e : Z) :
  (0 < m2)%Z -> (0 <= r < m2)%Z ->
  located q e (new_location m2 r) ((IZR q + IZR r / IZR m2) * pow2 e).
Proof.
  intros Hm2 Hr. pose proof (pow2_pos e) as Hw.
  assert (HM : 0 < IZR m2) by (apply IZR_lt; lia).
  assert (HR : 0 <= IZR r) by (apply IZR_le; lia).
  set (rho := IZR r / IZR m2).
  assert (Hrho : rho * IZR m2 = IZR r) by (unfold rho; field; lra).
  unfold new_location, new_location_even, new_location_odd.
  destruct (Z.even m2) eqn:Heven.
  - destruct (Z.eqb_spec r 0) as [-> | Hr0].
    + unfold located. replace rho with 0 by (unfold rho; simpl; field; lra).
      ring.
    + assert (0 < IZR r) by (apply IZR_lt; lia).
      destruct (Z.compare_spec (2 * r) m2) as [Heq | Hlt | Hgt].
      * apply (f_equal IZR) in Heq. rewrite mult_IZR in Heq.
        assert (rho = / 2) by nra. unfold located. rewrite H0. reflexivity.
      * apply IZR_lt in Hlt. rewrite mult_IZR in Hlt.
        assert (0 < rho < / 2) by (split; nra). unfold located. nra.
      * apply IZR_lt in Hgt. rewrite mult_IZR in Hgt.
        assert (Hr1 : IZR r < IZR m2) by (apply IZR_lt; lia).
        assert (/ 2 < rho < 1) by (split; nra). unfold located. nra.
  - destruct (Z.eqb_spec r 0) as [-> | Hr0].
    + unfold located. replace rho with 0 by (unfold rho; simpl; field; lra).
      ring.
    + assert (0 < IZR r) by (apply IZR_lt; lia).
      assert (Hodd : (2 * r <> m2)%Z).
      { intros E. rewrite <- E, Z.even_mul in Heven. discriminate Heven. }
      assert (Hr1 : IZR r < IZR m2) by (apply IZR_lt; lia).
      destruct (Z.compare_spec (2 * r + 1) m2) as [Heq | Hlt | Hgt].
      * assert (Hlt : (2 * r < m2)%Z) by lia.
        apply IZR_lt in Hlt. rewrite mult_IZR in Hlt.
        assert (0 < rho < / 2) by (split; nra). unfold located. nra.
      * assert (Hlt' : (2 * r < m2)%Z) by lia.
        apply IZR_lt in Hlt'. rewrite mult_IZR in Hlt'.
        assert (0 < rho < / 2) by (split; nra). unfold located. nra.
      * assert (Hgt' : (m2 < 2 * r)%Z) by lia.
        apply IZR_lt in Hgt'. rewrite mult_IZR in Hgt'.
        assert (/ 2 < rho < 1) by (split; nra). unfold located. nra.
Qed.

(** [binary_round_aux] rounds a real to the nearest mantissa at the
    format's exponent, within half a last place, and returns [rounded]. *)
Lemma binary_round_aux_spec (sx : bool) (mx ex : Z) (lx : location) (z : R) :
  (0 <= mx)%Z ->
  located mx ex lx z ->
  exists m2 e1 : Z,
    e1 = Z.max ex (fexp prec emax (Zdigits2 mx + ex))
    /\ (emin64 <= e1)%Z
    /\ (0 <= m2 <= 9007199254740992)%Z
    /\ - (pow2 e1 / 2) <= IZR m2 * pow2 e1 - z <= pow2 e1 / 2
    /\ binary_round_aux prec emax sx mx ex lx = rounded sx m2 e1.
Proof.
  intros Hmx Hloc. unfold binary_round_aux.
  destruct (shr_fexp_located mx ex lx z Hmx Hloc) as (H1 & Hm1 & _).
  destruct (shr_fexp_mantissa mx ex lx Hmx) as (He1 & Hb1 & Hmin).
  destruct (shr_fexp prec emax mx ex lx) as [mrs1 e1]. cbn [fst snd] in *.
  destruct (round_nearest_even_near _ _ _ _ Hm1 H1) as [Hnear Hm2].
  pose proof (round_nearest_even_range (shr_m mrs1) (loc_of_shr_record mrs1))
    as Hrange.
  set (m2 := round_nearest_even (shr_m mrs1) (loc_of_shr_record mrs1)) in *.
  exists m2, e1.
  split; [exact He1 |]. split; [exact Hmin |]. split; [lia |].
  split; [exact Hnear |].
  unfold rounded.
  destruct (Z.eqb_spec m2 9007199254740992) as [Hcarry | Hsmall].
  - rewrite Hcarry, (shr_fexp_exact_carry e1 Hmin). cbn [shr_m].
    reflexivity.
  - rewrite (shr_fexp_exact_small m2 e1) by lia. cbn [shr_m].
    destruct m2 as [| p | p]; [reflexivity | reflexivity | lia].
Qed.

Lemma pow2_lt (a b : Z) : (a < b)%Z -> pow2 a < pow2 b.
Proof.
  intros H. pose proof (pow2_le (a + 1) b ltac:(lia)) as Hle.
  rewrite pow2_succ in Hle. pose proof (pow2_pos a). lra.
Qed.

Lemma pow2_le_inv (a b : Z) : pow2 a <= pow2 b -> (a <= b)%Z.
Proof.
  intros H. destruct (Z_le_gt_dec a b) as [Hle | Hgt]; [exact Hle |].
  pose proof (pow2_lt b a ltac:(lia)). lra.
Qed.

Lemma pow2_pred (e : Z) : pow2 (e - 1) = pow2 e / 2.
Proof.
  replace e with (e - 1 + 1)%Z at 2 by lia. rewrite pow2_succ. lra.
Qed.

(** A located real is at least the least number of as many bits. *)
Lemma located_lower (p : positive) (e : Z) (l : location) (z : R) :
  located (Zpos p) e l z -> pow2 (Zpos (digits2_pos p) - 1 + e) <= z.
Proof.
  intros Hloc. apply located_within in Hloc.
  pose proof (digits2_lower p) as Hlow. apply IZR_le in Hlow.
  rewrite pow2_IZR in Hlow by lia. rewrite pow2_add.
  pose proof (pow2_pos e) as Hw.
  assert (pow2 (Zpos (digits2_pos p) - 1) * pow2 e <= IZR (Zpos p) * pow2 e)
    by (apply Rmult_le_compat_r; lra).
  lra.
Qed.

(** A finite result is within half of its last place. *)
Lemma binary_round_aux_half (sx : bool) (mx ex : Z) (lx : location) (z : R)
    (s : bool) (m : positive) (e : Z) :
  (0 <= mx)%Z ->
  located mx ex lx z ->
  binary_round_aux prec emax sx mx ex lx = S754_finite s m e ->
  s = sx /\ - (pow2 e / 2) <= IZR (Zpos m) * pow2 e - z <= pow2 e / 2.
Proof.
  intros Hmx Hloc Hres.
  destruct (binary_round_aux_spec sx mx ex lx z Hmx Hloc)
    as (m2 & e1 & _ & _ & Hm2 & Hnear & Hround).
  rewrite Hround in Hres. unfold rounded in Hres.
  pose proof (pow2_pos e1) as Hw.
  destruct (Z.eqb_spec m2 9007199254740992) as [-> | Hne].
  - destruct (e1 + 1 <=? 971)%Z; [| discriminate Hres].
    injection Hres as <- <- <-. split; [reflexivity |].
    rewrite pow2_succ. lra.
  - destruct m2 as [| p | p]; try discriminate Hres.
    destruct (e1 <=? 971)%Z; [| discriminate Hres].
    injection Hres as <- <- <-. split; [reflexivity | exact Hnear].
Qed.

(** Only a real of at most half the least positive number rounds to zero. *)
Lemma binary_round_aux_zero (sx : bool) (p : positive) (ex : Z)
    (lx : location) (z : R) (s : bool) :
  located (Zpos p) ex lx z ->
  binary_round_aux prec emax sx (Zpos p) ex lx = S754_zero s ->
  z <= pow2 emin64 / 2.
Proof.
  intros Hloc Hres.
  destruct (binary_round_aux_spec sx (Zpos p) ex lx z ltac:(lia) Hloc)
    as (m2 & e1 & He1 & Hmin & Hm2 & Hnear & Hround).
  rewrite Hround in Hres. unfold rounded in Hres.
  destruct (Z.eqb_spec m2 9007199254740992) as [-> | Hne].
  { destruct (e1 + 1 <=? 971)%Z; discriminate Hres. }
  destruct m2 as [| q | q];
    [| destruct (e1 <=? 971)%Z; discriminate Hres | discriminate Hres].
  pose proof (located_lower p ex lx z Hloc) as Hlow.
  assert (Hz : z <= pow2 (e1 - 1)) by (rewrite pow2_pred; lra).
  assert (Hexp : (Zpos (digits2_pos p) - 1 + ex <= e1 - 1)%Z)
    by (apply pow2_le_inv; lra).
  assert (Hemin : e1 = emin64) by (cbn [Zdigits2] in He1; format_lia).
  rewrite <- pow2_pred, <- Hemin. exact Hz.
Qed.

(** Only a real within half a last place of [2^1024] rounds to an
    infinity. *)
Lemma binary_round_aux_infinity (sx : bool) (p : positive) (ex : Z)
    (lx : location) (z : R) (s : bool) :
  (ex <= 970)%Z ->
  located (Zpos p) ex lx z ->
  binary_round_aux prec emax sx (Zpos p) ex lx = S754_infinity s ->
  pow2 1024 - pow2 970 <= z.
Proof.
  intros Hex Hloc Hres.
  destruct (binary_round_aux_spec sx (Zpos p) ex lx z ltac:(lia) Hloc)
    as (m2 & e1 & He1 & Hmin & Hm2 & Hnear & Hround).
  rewrite Hround in Hres. unfold rounded in Hres.
  pose proof (located_lower p ex lx z Hloc) as Hlow.
  cbn [Zdigits2] in He1. pose proof (pow2_pos 970) as Hw.
  assert (Hbig : (972 <= e1)%Z -> pow2 1024 <= z).
  { intros H. assert (Hd : (1024 <= Zpos (digits2_pos p) - 1 + ex)%Z)
      by format_lia.
    apply pow2_le in Hd. lra. }
  destruct (Z.eqb_spec m2 9007199254740992) as [-> | Hne].
  - destruct (Z.leb_spec (e1 + 1) 971) as [Hle | Hgt]; [discriminate Hres |].
    destruct (Z.eq_dec e1 971%Z) as [E | Hne];
      [| assert (pow2 1024 <= z) by (apply Hbig; lia); lra].
    rewrite E in Hnear.
    assert (H971 : pow2 971 = 2 * pow2 970)
      by (change 971%Z with (970 + 1)%Z; apply pow2_succ).
    assert (H1024 : pow2 1024 = 9007199254740992 * pow2 971).
    { change 1024%Z with (53 + 971)%Z. rewrite pow2_add.
      rewrite <- (pow2_IZR 53) by lia. reflexivity. }
    rewrite H1024. rewrite H971 in *. lra.
  - destruct m2 as [| q | q]; try discriminate Hres.
    destruct (Z.leb_spec e1 971) as [Hle | Hgt]; [discriminate Hres |].
    assert (H : pow2 1024 <= z) by (apply Hbig; lia). lra.
Qed.

Lemma binary_round_aux_not_nan (sx : bool) (mx ex : Z) (lx : location)
    (z : R) :
  (0 <= mx)%Z ->
  located mx ex lx z ->
  binary_round_aux prec emax sx mx ex lx <> S754_nan.
Proof.
  intros Hmx Hloc Hres.
  destruct (binary_round_aux_spec sx mx ex lx z Hmx Hloc)
    as (m2 & e1 & _ & _ & Hm2 & _ & Hround).
  rewrite Hround in Hres. unfold rounded in Hres.
  destruct (m2 =? 9007199254740992)%Z.
  - destruct (e1 + 1 <=? 971)%Z; discriminate Hres.
  - destruct m2 as [| q | q]; try discriminate Hres; [| lia].
    destruct (e1 <=? 971)%Z; discriminate Hres.
Qed.

Lemma mul_located (mx my : positive) (ex ey : Z) :
  located (Zpos (mx * my)) (ex + ey) loc_Exact (mag mx ex * mag my ey).
Proof.
  unfold located, mag. rewrite Pos2Z.inj_mul, mult_IZR, pow2_add. ring.
Qed.

(** The quotient of two finite floats, when finite, is within half of its
    last place of the exact quotient. *)
Lemma SFdiv_half (sx sy s : bool) (mx my m : positive) (ex ey e : Z) :
  SF64div (S754_finite sx mx ex) (S754_finite sy my ey) = S754_finite s m e ->
  s = xorb sx sy
  /\ - (pow2 e / 2) <= mag m e - mag mx ex / mag my ey <= pow2 e / 2.
Proof.
  unfold SF64div, SFdiv, SFdiv_core_binary.
  set (e' := Z.min _ (ex - ey)).
  assert (He' : (e' <= ex - ey)%Z) by apply Z.le_min_r.
  set (sh := (ex - ey - e')%Z).
  set (m' := match sh with
             | Z0 => Zpos mx
             | Zpos _ => Z.shiftl (Zpos mx) sh
             | Zneg _ => Z0
             end).
  assert (Hm' : m' = (Zpos mx * 2 ^ sh)%Z).
  { subst m'. destruct sh as [| p | p] eqn:Hsh.
    - lia.
    - apply Z.shiftl_mul_pow2. lia.
    - lia. }
  pose proof (Z_div_mod m' (Zpos my) ltac:(lia)) as Hdiv.
  destruct (Z.div_eucl m' (Zpos my)) as [q r]. destruct Hdiv as [Hqr Hr].
  assert (Hpow : (0 < 2 ^ sh)%Z) by (apply Z.pow_pos_nonneg; lia).
  assert (Hq : (0 <= q)%Z) by nia.
  intros H.
  apply (binary_round_aux_half _ _ _ _ (mag mx ex / mag my ey)) in H;
    [exact H | exact Hq |].
  replace (mag mx ex / mag my ey)
    with ((IZR q + IZR r / IZR (Zpos my)) * pow2 e').
  - apply new_location_located; lia.
  - unfold mag.
    assert (HM : 0 < IZR (Zpos my)) by (apply IZR_lt; lia).
    pose proof (pow2_pos ey) as Hwy. pose proof (pow2_pos e') as Hw'.
    replace ex with (ey + (sh + e'))%Z at 1 by lia.
    rewrite !pow2_add, <- (pow2_IZR sh) by lia.
    assert (Hreal : IZR (Zpos mx) * IZR (2 ^ sh)
                    = IZR (Zpos my) * IZR q + IZR r).
    { rewrite <- !mult_IZR, <- plus_IZR, <- Hm', Hqr. reflexivity. }
    transitivity (IZR (Zpos mx) * IZR (2 ^ sh) * pow2 e' / IZR (Zpos my)).
    + rewrite Hreal. field. lra.
    + field. lra.
Qed.

(** *** Finite floats on the grid of the least exponent *)

Lemma Rabs_le_between (x a : R) : Rabs x <= a -> - a <= x <= a.
Proof. unfold Rabs. destruct (Rcase_abs x); lra. Qed.

Lemma valid_float (s : bool) (m : positive) (e : Z) :
  valid_binary (S754_finite s m e) = true ->
  (emin64 <= e <= 971)%Z
  /\ (Zpos (digits2_pos m) = 53 \/ (Zpos (digits2_pos m) < 53 /\ e = emin64))%Z.
Proof.
  unfold valid_binary, bounded, canonical_mantissa. intros H.
  apply andb_prop in H as [Hc Hb]. apply Z.eqb_eq in Hc.
  apply Z.leb_le in Hb. format_lia.
Qed.

(** A finite float is a whole number of least positive numbers. *)
Lemma mag_grid (m : positive) (e : Z) :
  (emin64 <= e)%Z ->
  mag m e = IZR (Zpos m * 2 ^ (e - emin64)) * pow2 emin64.
Proof.
  intros He. unfold mag. rewrite mult_IZR, pow2_IZR by lia.
  rewrite Rmult_assoc, <- pow2_add. f_equal. f_equal. lia.
Qed.

Lemma grid_eq (a b : Z) (w : R) :
  0 < w -> Rabs (IZR a * w - IZR b * w) < w -> a = b.
Proof.
  intros Hw H. apply Rabs_def2 in H as [H1 H2].
  assert (Hlt : IZR (a - b) < 1).
  { rewrite minus_IZR. nra. }
  assert (Hgt : -1 < IZR (a - b)).
  { rewrite minus_IZR. nra. }
  apply lt_IZR in Hlt. apply lt_IZR in Hgt. lia.
Qed.

(** Two finite floats less than a least positive number apart are equal. *)
Lemma mag_grid_eq (m1 m2 : positive) (e1 e2 : Z) :
  (emin64 <= e1)%Z -> (emin64 <= e2)%Z ->
  Rabs (mag m1 e1 - mag m2 e2) < pow2 emin64 ->
  mag m1 e1 = mag m2 e2.
Proof.
  intros H1 H2 H. rewrite (mag_grid m1 e1 H1), (mag_grid m2 e2 H2) in *.
  apply grid_eq in H; [| apply pow2_pos]. rewrite H. reflexivity.
Qed.

Lemma mag_lower (m : positive) (e : Z) :
  (emin64 <= e)%Z -> pow2 emin64 <= mag m e.
Proof.
  intros He. unfold mag. pose proof (pow2_le _ _ He) as Hle.
  pose proof (pow2_pos emin64) as Hw.
  assert (1 <= IZR (Zpos m)) by (apply IZR_le; lia). nra.
Qed.

(** A subnormal number is below the least normal one by a least positive
    number at least. *)
Lemma mag_subnormal (m : positive) :
  (Zpos (digits2_pos m) < 53)%Z ->
  mag m emin64 <= pow2 (emin64 + 52) - pow2 emin64.
Proof.
  intros Hd. pose proof (digits2_upper m) as Hup.
  assert (Hpow : (2 ^ Zpos (digits2_pos m) <= 2 ^ 52)%Z)
    by (apply Z.pow_le_mono_r; lia).
  assert (Hm : (Zpos m <= 4503599627370496 - 1)%Z).
  { change (2 ^ 52)%Z with 4503599627370496%Z in Hpow. lia. }
  apply IZR_le in Hm. rewrite minus_IZR in Hm.
  unfold mag. rewrite Z.add_comm, pow2_add, <- (pow2_IZR 52) by lia.
  change (2 ^ 52)%Z with 4503599627370496%Z.
  pose proof (pow2_pos emin64) as Hw. nra.
Qed.

(** A finite float other than the largest is at most the one before it. *)
Lemma mag_below_max (s : bool) (m : positive) (e : Z) :
  valid_binary (S754_finite s m e) = true ->
  ~ (m = 9007199254740991%positive /\ e = 971%Z) ->
  mag m e <= pow2 1024 - pow2 972.
Proof.
  intros Hv Hnot. destruct (valid_float s m e Hv) as [[Hmin Hmax] Hd].
  pose proof (digits2_upper m) as Hup.
  assert (Hpow : (2 ^ Zpos (digits2_pos m) <= 2 ^ 53)%Z)
    by (apply Z.pow_le_mono_r; lia).
  change (2 ^ 53)%Z with 9007199254740992%Z in Hpow.
  assert (H972 : pow2 972 = 2 * pow2 971)
    by (change 972%Z with (971 + 1)%Z; apply pow2_succ).
  assert (H1024 : pow2 1024 = 9007199254740992 * pow2 971).
  { change 1024%Z with (53 + 971)%Z. rewrite pow2_add.
    rewrite <- (pow2_IZR 53) by lia. reflexivity. }
  pose proof (pow2_pos 971) as Hw. unfold mag.
  destruct (Z.eq_dec e 971%Z) as [-> | Hne].
  - assert (Hm : (Zpos m <= 9007199254740992 - 2)%Z).
    { assert (m <> 9007199254740991%positive) by (intros ->; auto). lia. }
    apply IZR_le in Hm. rewrite minus_IZR in Hm. nra.
  - assert (Hm : (Zpos m <= 9007199254740992)%Z) by lia.
    apply IZR_le in Hm.
    assert (Hle : pow2 e <= pow2 970) by (apply pow2_le; lia).
    assert (H971 : pow2 971 = 2 * pow2 970)
      by (change 971%Z with (970 + 1)%Z; apply pow2_succ).
    pose proof (pow2_pos e) as Hwe. pose proof (pow2_pos 970) as Hw0.
    assert (IZR (Zpos m) * pow2 e <= 9007199254740992 * pow2 970).
    { apply Rmult_le_compat; try lra. apply IZR_le. lia. }
    nra.
Qed.

(** Back from the native value: the product is finite and within
    [tolerance] of the value divided. *)
Lemma mul_back (q f : float) (sq : bool) (mq mf mv : positive)
    (eq ef ev : Z) (normal : bool) :
  Prim2SF q = S754_finite sq mq eq ->
  Prim2SF f = S754_finite false mf ef ->
  (ef <= -1)%Z ->
  (emin64 <= ev)%Z ->
  (normal = true -> mag mv ev <= pow2 1024 - pow2 972) ->
  close_native (mag mq eq) (mag mv ev) (mag mf ef) normal ->
  exists mp ep,
    Prim2SF (q * f) = S754_finite sq mp ep
    /\ Rabs (mag mp ep - mag mv ev) <= tolerance * mag mv ev.
Proof.
  intros Hq Hf Hef Hev Hmax Hclose.
  pose proof (Prim2SF_valid q) as Hvq. rewrite Hq in Hvq.
  destruct (valid_float _ _ _ Hvq) as [[Hqmin Hqmax] _].
  pose proof (Prim2SF_valid (q * f)) as Hvp.
  pose proof (mul_spec q f) as Hmul. rewrite Hq, Hf in Hmul.
  unfold SF64mul, SFmul in Hmul. rewrite xorb_false_r in Hmul.
  pose proof (mul_located mq mf eq ef) as Hloc.
  pose proof (mag_pos mq eq) as HQ. pose proof (mag_pos mf ef) as HF.
  pose proof (mag_pos mv ev) as HV.
  pose proof (mag_lower mv ev Hev) as HVlow.
  pose proof (mag_lower mq eq Hqmin) as HQlow.
  set (Q := mag mq eq) in *. set (F := mag mf ef) in *.
  set (V := mag mv ev) in *. set (z := Q * F) in *.
  pose proof (pow2_pos emin64) as Hw. set (w := pow2 emin64) in *.
  assert (Hzv : z - V = (Q - V / F) * F) by (unfold z; field; lra).
  assert (Hz : 0 < z) by (unfold z; nra).
  assert (Hnormal_gap : normal = true -> Rabs (z - V) <= z / 9007199254740992).
  { intros ->. unfold close_native in Hclose. fold w in Hclose. rewrite Hzv, Rabs_mult, (Rabs_pos_eq F) by lra.
    replace (z / 9007199254740992) with (Q / 9007199254740992 * F)
      by (unfold z; field).
    apply Rmult_le_compat_r; lra. }
  assert (Hsub_gap : normal = false ->
            Rabs (z - V) <= w / 2 * F /\ Q <= pow2 (emin64 + 52) - w
            /\ F <= 1).
  { intros ->. unfold close_native in Hclose. fold w in Hclose. destruct Hclose as (H1 & H2 & H3).
    split; [| split; assumption].
    rewrite Hzv, Rabs_mult, (Rabs_pos_eq F) by lra.
    apply Rmult_le_compat_r; lra. }
  assert (H52 : pow2 (emin64 + 52) = 4503599627370496 * w).
  { rewrite Z.add_comm, pow2_add, <- (pow2_IZR 52) by lia. reflexivity. }
  assert (Htop : pow2 972 = 4 * pow2 970 /\ pow2 1024
                 = 18014398509481984 * pow2 970).
  { split.
    - change 972%Z with (970 + 1 + 1)%Z. rewrite !pow2_succ. ring.
    - change 1024%Z with (54 + 970)%Z. rewrite pow2_add.
      rewrite <- (pow2_IZR 54) by lia. reflexivity. }
  destruct Htop as [H972 H1024].
  pose proof (pow2_pos 970) as Hw970.
  assert (Hw_small : 4503599627370496 * w < pow2 970).
  { rewrite <- H52. apply pow2_lt. format_lia. }
  destruct (Prim2SF (q * f)) as [sp | sp | | sp mp ep] eqn:Hp.
  - (* zero *)
    exfalso. symmetry in Hmul.
    apply (binary_round_aux_zero _ _ _ _ z) in Hmul; [| exact Hloc].
    fold w in Hmul. destruct normal.
    + specialize (Hnormal_gap eq_refl). apply Rabs_le_between in Hnormal_gap.
      lra.
    + destruct (Hsub_gap eq_refl) as (Hgap & _ & HF1).
      apply Rabs_le_between in Hgap.
      destruct (Rle_lt_or_eq_dec F 1 HF1) as [Hlt | Heq].
      * assert (w / 2 * F < w / 2) by nra. lra.
      * unfold z in Hmul. rewrite Heq in Hmul. lra.
  - (* infinity *)
    exfalso. symmetry in Hmul.
    apply (binary_round_aux_infinity _ _ _ _ z) in Hmul;
      [| lia | exact Hloc].
    destruct normal.
    + specialize (Hnormal_gap eq_refl). specialize (Hmax eq_refl).
      apply Rabs_le_between in Hnormal_gap.
      rewrite H972, H1024 in *. lra.
    + destruct (Hsub_gap eq_refl) as (_ & HQs & HF1).
      assert (z <= Q) by (unfold z; nra).
      rewrite H52, H1024 in *. lra.
  - (* nan *)
    exfalso. symmetry in Hmul.
    apply (binary_round_aux_not_nan _ _ _ _ z) in Hmul;
      [exact Hmul | lia | exact Hloc].
  - (* finite *)
    symmetry in Hmul.
    apply (binary_round_aux_half _ _ _ _ z) in Hmul; [| lia | exact Hloc].
    destruct Hmul as [-> Hhalf].
    exists mp, ep. split; [reflexivity |].
    destruct (valid_float _ _ _ Hvp) as [[Hpmin Hpmax] Hd].
    pose proof (mag_pos mp ep) as HP. fold (mag mp ep) in Hhalf.
    set (P := mag mp ep) in *. pose proof (pow2_pos ep) as Hwp.
    assert (Hexact : Rabs (P - V) < w -> Rabs (P - V) <= tolerance * V).
    { intros Hlt. unfold P, V in *.
      rewrite (mag_grid_eq mp mv ep ev Hpmin Hev Hlt).
      rewrite Rminus_diag, Rabs_R0. unfold tolerance. nra. }
    destruct Hd as [Hd | [Hd ->]].
    + (* the product is normal *)
      assert (Hn : 4503599627370496 * pow2 ep <= P).
      { assert (E : digits2_pos mp = 53%positive) by lia.
        pose proof (normal_mantissa mp E). unfold P, mag. nra. }
      destruct normal.
      * specialize (Hnormal_gap eq_refl). apply Rabs_le_between in Hnormal_gap.
        apply Rabs_le. unfold tolerance. lra.
      * exfalso. destruct (Hsub_gap eq_refl) as (_ & HQs & HF1).
        assert (z <= Q) by (unfold z; nra).
        assert (w <= pow2 ep) by (apply pow2_le; exact Hpmin).
        rewrite H52 in *. lra.
    + (* the product is subnormal *)
      apply Hexact. pose proof (mag_subnormal mp Hd) as Hps.
      fold P w in Hps. rewrite H52 in Hps. fold w in Hhalf.
      destruct normal.
      * specialize (Hnormal_gap eq_refl). apply Rabs_le_between in Hnormal_gap.
        apply Rabs_def1; lra.
      * destruct (Hsub_gap eq_refl) as (Hgap & HQs & HF1).
        apply Rabs_le_between in Hgap.
        destruct (Rle_lt_or_eq_dec F 1 HF1) as [Hlt | Heq].
        -- apply Rabs_def1; nra.
        -- assert (HzQ : z = Q) by (unfold z; rewrite Heq; ring).
           rewrite Heq, HzQ in *.
           assert (HPQ : P = Q).
           { unfold P, Q. apply mag_grid_eq; [lia | exact Hqmin |].
             fold P Q w. apply Rabs_def1; lra. }
           assert (HQV : Q = V).
           { unfold Q, V. apply mag_grid_eq; [exact Hqmin | exact Hev |].
             fold Q V w. apply Rabs_def1; lra. }
           rewrite HPQ, HQV, Rminus_diag, Rabs_R0. exact Hw.
Qed.

Close Scope R_scope.

(** ** Hashrate normalisation *)

Lemma factors_unknown_unit (u : string) :
  u ∉ known_units -> factors !! u = None.
Proof.
  intros Hu. unfold factors. apply not_elem_of_list_to_map_1. exact Hu.
Qed.

Lemma hashrate_to_ths_readable (data : MinerData) (hr : HashRate)
    (rate : float) (unit_ : string) :
  hashrate data = Some hr ->
  hr_rate hr = Returned rate ->
  hr_unit hr = Returned unit_ ->
  hashrate_to_ths data = (rate * default 1.0 (factors !! upper unit_))%float.
Proof.
  intros Hhr Hrate Hunit. unfold hashrate_to_ths.
  rewrite Hhr, Hrate, Hunit. reflexivity.
Qed.

(** C6: a readable (rate, unit) reading is normalised to TH/s by multiplying
    the rate by the factor of its unit: H/s 1e-12, KH/s 1e-9, MH/s 1e-6,
    GH/s 1e-3, TH/s 1.0, PH/s 1e3; a unit outside the table leaves the factor
    at 1.0, and the rate comes out as it went in. *)
Theorem hashrate_to_ths_factor (data : MinerData) (hr : HashRate)
    (rate : float) (unit_ : string) :
  hashrate data = Some hr ->
  hr_rate hr = Returned rate ->
  hr_unit hr = Returned unit_ ->
  (upper unit_ = "H/S" -> hashrate_to_ths data = (rate * 1e-12)%float) /\
  (upper unit_ = "KH/S" -> hashrate_to_ths data = (rate * 1e-9)%float) /\
  (upper unit_ = "MH/S" -> hashrate_to_ths data = (rate * 1e-6)%float) /\
  (upper unit_ = "GH/S" -> hashrate_to_ths data = (rate * 1e-3)%float) /\
  (upper unit_ = "TH/S" -> hashrate_to_ths data = (rate * 1.0)%float) /\
  (upper unit_ = "PH/S" -> hashrate_to_ths data = (rate * 1e3)%float) /\
  (upper unit_ ∉ known_units ->
     hashrate_to_ths data = (rate * 1.0)%float
     /\ hashrate_to_ths data = rate).
Proof.
  intros Hhr Hrate Hunit.
  rewrite (hashrate_to_ths_readable data hr rate unit_ Hhr Hrate Hunit).
  repeat (split; [intros Hu; rewrite Hu; reflexivity |]).
  intros Hu. rewrite (factors_unknown_unit _ Hu). simpl.
  split; [reflexivity | apply mul_one_r].
Qed.

Lemma hashrate_to_ths_factor_witness :
  hashrate_to_ths (sample_data (Some (sample_hashrate 14000 "GH/s")))
  = (14000 * 1e-3)%float
  /\ hashrate_to_ths (sample_data (Some (sample_hashrate 95 "Sol/s")))
     = 95%float.
Proof.
  split.
  - destruct (hashrate_to_ths_factor
                (sample_data (Some (sample_hashrate 14000 "GH/s")))
                (sample_hashrate 14000 "GH/s") 14000 "GH/s"
                eq_refl eq_refl eq_refl) as (_ & _ & _ & H & _).
    apply H. reflexivity.
  - destruct (hashrate_to_ths_factor
                (sample_data (Some (sample_hashrate 95 "Sol/s")))
                (sample_hashrate 95 "Sol/s") 95 "Sol/s"
                eq_refl eq_refl eq_refl) as (_ & _ & _ & _ & _ & _ & H).
    apply H. vm_compute. intros Hin.
    elem_cases Hin ltac:(fun E => discriminate E).
Defined.

(** ** The unit round trip *)

(** The round trip on sample values: exact on some, one rounding step off
    on others. *)
Example unit_round_trip_samples :
  unit_round_trip 110.5 "GH/s" = 110.5%float
  /\ unit_round_trip 13.5 "PH/s" = 13.5%float
  /\ unit_round_trip 0.1 "H/s" = 0.099999999999999992%float
  /\ unit_round_trip 0.3 "KH/s" = 0.30000000000000004%float.
Proof. vm_compute. repeat split. Qed.

Lemma unit_round_trip_unfold (v : float) (unit_ : string) :
  unit_round_trip v unit_ = (native_value v unit_ * factor_of unit_)%float.
Proof. reflexivity. Qed.

Lemma factor_of_cases (unit_ : string) : factor_of unit_ ∈ factor_values.
Proof.
  unfold factor_of, factor_values.
  destruct (decide (upper unit_ ∈ known_units)) as [Hin | Hout].
  - elem_cases Hin ltac:(fun E => rewrite E; vm_compute;
                                   repeat first [left | right]).
  - rewrite (factors_unknown_unit _ Hout). simpl.
    repeat first [left | right].
Qed.

Open Scope R_scope.

Lemma mag_le_1 (m : positive) (k : Z) :
  (0 <= k)%Z -> (Zpos m <= 2 ^ k)%Z -> mag m (- k) <= 1.
Proof.
  intros Hk Hm. apply IZR_le in Hm. rewrite pow2_IZR in Hm by lia.
  unfold mag. pose proof (pow2_pos k) as Hw. pose proof (pow2_pos (- k)) as Hw'.
  assert (H1 : pow2 (- k) * pow2 k = 1).
  { rewrite <- pow2_add. replace (- k + k)%Z with 0%Z by lia. reflexivity. }
  nra.
Qed.

Lemma factor_facts (f : float) :
  f ∈ factor_values ->
  exists mf ef,
    Prim2SF f = S754_finite false mf ef
    /\ (ef <= -1)%Z
    /\ ((f <=? 1)%float = true -> mag mf ef <= 1).
Proof.
  intros Hin. unfold factor_values in Hin.
  elem_cases Hin ltac:(fun E =>
    rewrite E; eexists _, _;
    split; [vm_compute; reflexivity |];
    split; [lia |];
    intros H;
    first [ discriminate H
          | match goal with
            | |- mag ?m ?e <= 1 =>
                apply (mag_le_1 m (- e)); [lia | vm_compute; discriminate]
            end ]).
Qed.

(** The native value of a finite value, when finite, has the value's sign
    and is close to the exact quotient. *)
Lemma div_native (v f : float) (sv sq : bool) (mv mf mq : positive)
    (ev ef eq : Z) :
  Prim2SF v = S754_finite sv mv ev ->
  Prim2SF f = S754_finite false mf ef ->
  Prim2SF (v / f) = S754_finite sq mq eq ->
  sq = sv
  /\ (Zpos (digits2_pos mq) = 53%Z ->
      close_native (mag mq eq) (mag mv ev) (mag mf ef) true)
  /\ ((Zpos (digits2_pos mq) < 53)%Z -> mag mf ef <= 1 ->
      close_native (mag mq eq) (mag mv ev) (mag mf ef) false).
Proof.
  intros Hv Hf Hq.
  pose proof (Prim2SF_valid (v / f)) as Hvalid. rewrite Hq in Hvalid.
  destruct (valid_float _ _ _ Hvalid) as [[Hmin Hmax] Hd].
  pose proof Hq as Hdiv. rewrite div_spec, Hv, Hf in Hdiv.
  apply SFdiv_half in Hdiv as [Hs Hhalf]. rewrite xorb_false_r in Hs.
  pose proof (pow2_pos eq) as Hw.
  split; [exact Hs | split].
  - intros H53. unfold close_native.
    assert (E : digits2_pos mq = 53%positive) by lia.
    pose proof (normal_mantissa mq E) as Hn.
    apply Rabs_le. unfold mag in *. nra.
  - intros Hsub HF. unfold close_native.
    assert (E : eq = emin64) by lia. subst eq.
    split; [apply Rabs_le; lra |].
    split; [apply (mag_subnormal mq Hsub) | exact HF].
Qed.

(** The largest finite float. *)
Lemma largest_float (v : float) (s : bool) :
  Prim2SF v = S754_finite s 9007199254740991 971 ->
  v = (if s then -1.7976931348623157e308 else 1.7976931348623157e308)%float.
Proof.
  intros H. apply Prim2SF_inj. rewrite H. destruct s; reflexivity.
Qed.

Lemma F2R_same_exponent (x y : float) (s : bool) (mx my : positive) (e : Z) :
  Prim2SF x = S754_finite s mx e ->
  Prim2SF y = S754_finite s my e ->
  Rabs (IZR (Zpos mx) - IZR (Zpos my)) <= tolerance * IZR (Zpos my) ->
  Rabs (F2R x - F2R y) <= tolerance * Rabs (F2R y).
Proof.
  intros Hx Hy H. unfold F2R. rewrite Hx, Hy. unfold mag.
  pose proof (pow2_pos e) as Hw. set (w := pow2 e) in *.
  assert (Hmy : 0 < IZR (Zpos my)) by (apply IZR_lt; lia).
  apply Rabs_le_between in H.
  assert (Htol : 0 < tolerance) by (unfold tolerance; lra).
  destruct s.
  - rewrite Rabs_Ropp, (Rabs_pos_eq (IZR (Zpos my) * w)) by nra.
    apply Rabs_le. nra.
  - rewrite (Rabs_pos_eq (IZR (Zpos my) * w)) by nra.
    apply Rabs_le. nra.
Qed.

(** A value that comes back as a zero or an infinity is not within
    [tolerance] of a finite value other than zero. *)
Lemma lost_value_not_near (x y : float) (s : bool) (m : positive) (e : Z) :
  F2R x = 0 ->
  Prim2SF y = S754_finite s m e ->
  ~ Rabs (F2R x - F2R y) <= tolerance * Rabs (F2R y).
Proof.
  intros Hx Hy H. rewrite Hx in H. unfold F2R in H. rewrite Hy in H.
  pose proof (mag_pos m e) as Hm. unfold tolerance in H.
  destruct s.
  - rewrite Rminus_0_l, Ropp_involutive, Rabs_Ropp, (Rabs_pos_eq (mag m e))
      in H by lra. lra.
  - rewrite Rminus_0_l, Rabs_Ropp, (Rabs_pos_eq (mag m e)) in H by lra. lra.
Qed.

(** C7 over every value fails outside the range of binary64: 1e300 TH/s is
    a normal number, its value in H/s is beyond binary64 and the round trip
    returns infinity; the smallest positive float in PH/s is below binary64
    and comes back as 0.  Neither is within the tolerance of the value sent
    out. *)
Lemma unit_round_trip_out_of_range :
  is_normal 1e300 = true
  /\ unit_round_trip 1e300 "H/s" = infinity
  /\ unit_round_trip 5e-324 "PH/s" = 0%float
  /\ ~ Rabs (F2R (unit_round_trip 1e300 "H/s") - F2R 1e300)
       <= tolerance * Rabs (F2R 1e300)
  /\ ~ Rabs (F2R (unit_round_trip 5e-324 "PH/s") - F2R 5e-324)
       <= tolerance * Rabs (F2R 5e-324)
  /\ native_in_range 1e300 "H/s" = false
  /\ native_in_range 5e-324 "PH/s" = false.
Proof.
  assert (H1 : unit_round_trip 1e300 "H/s" = infinity)
    by (vm_compute; reflexivity).
  assert (H2 : unit_round_trip 5e-324 "PH/s" = 0%float)
    by (vm_compute; reflexivity).
  split; [reflexivity |]. split; [exact H1 |]. split; [exact H2 |].
  split; [| split; [| split; vm_compute; reflexivity]].
  - rewrite H1. eapply lost_value_not_near; [reflexivity |].
    vm_compute. reflexivity.
  - rewrite H2. eapply lost_value_not_near; [reflexivity |].
    vm_compute. reflexivity.
Qed.

(** The round trip of the largest float: its native value overflows for
    the factors below 1, and for the others it comes back within
    [tolerance]. *)
Lemma round_trip_largest (v f : float) (s : bool) :
  Prim2SF v = S754_finite s 9007199254740991 971 ->
  f ∈ factor_values ->
  is_normal (v / f) = true ->
  Rabs (F2R (v / f * f) - F2R v) <= tolerance * Rabs (F2R v).
Proof.
  intros Hv Hin Hn. rewrite (largest_float v s Hv) in *.
  unfold factor_values in Hin.
  elem_cases Hin ltac:(fun E =>
    rewrite E in *;
    first
      [ destruct s; vm_compute in Hn; discriminate Hn
      | destruct s;
        (eapply F2R_same_exponent;
         [ vm_compute; reflexivity
         | vm_compute; reflexivity
         | apply Rabs_le; unfold tolerance; lra ]) ]).
Qed.

(** C7, as the code has it: for every unit and every value whose native
    value is in the range of binary64, the round trip through
    [hashrate_to_ths] returns the value within the relative tolerance
    2^-50; a zero, an infinity and a NaN come back as they are.  Nothing is
    assumed of the value returned. *)
Theorem unit_round_trip_near (v : float) (unit_ : string) :
  (native_in_range v unit_ = true ->
   Rabs (F2R (unit_round_trip v unit_) - F2R v) <= tolerance * Rabs (F2R v))
  /\ (special_value v = true -> unit_round_trip v unit_ = v).
Proof.
  rewrite unit_round_trip_unfold. unfold native_in_range, native_value.
  pose proof (factor_of_cases unit_) as Hin.
  destruct (factor_facts _ Hin) as (mf & ef & Hf & Hef & Hle).
  set (f := factor_of unit_) in *.
  split.
  - intros Hrange.
    assert (Hclass : is_normal (v / f) = true
                     \/ ((f <=? 1)%float = true
                         /\ (classify (v / f) = PSubn
                             \/ classify (v / f) = NSubn))).
    { unfold is_normal.
      destruct (classify (v / f)); try discriminate Hrange; auto. }
    clear Hrange.
    destruct (Prim2SF (v / f)) as [sq | sq | | sq mq eq] eqn:Hq;
      try (exfalso; unfold is_normal in Hclass;
           rewrite classify_spec, Hq in Hclass;
           destruct Hclass as [H | [_ [H | H]]];
           try destruct sq; discriminate H).
    destruct (Prim2SF v) as [sv | sv | | sv mv ev] eqn:Hv;
      try (exfalso; rewrite div_spec, Hv, Hf in Hq;
           try destruct sv; discriminate Hq).
    pose proof (Prim2SF_valid v) as Hvalid. rewrite Hv in Hvalid.
    destruct (valid_float _ _ _ Hvalid) as [[Hvmin _] _].
    destruct (div_native v f sv sq mv mf mq ev ef eq Hv Hf Hq)
      as (-> & Hnormal & Hsub).
    assert (Hdigits : (is_normal (v / f) = true
                       /\ Zpos (digits2_pos mq) = 53%Z)
                      \/ ((f <=? 1)%float = true
                          /\ (Zpos (digits2_pos mq) < 53)%Z)).
    { pose proof (Prim2SF_valid (v / f)) as Hvq. rewrite Hq in Hvq.
      destruct (valid_float _ _ _ Hvq) as [_ Hd].
      unfold is_normal in *. rewrite classify_spec, Hq in *.
      unfold SF64classify, SFclassify in *.
      destruct (Z.eqb_spec (Zpos (digits2_pos mq)) prec) as [E | E].
      - left. split; [destruct sv; reflexivity | exact E].
      - right. unfold prec in E.
        destruct Hclass as [H | [H _]];
          [destruct sv; discriminate H |].
        split; [exact H | lia]. }
    assert (Hback : forall normal,
              (normal = true -> mag mv ev <= pow2 1024 - pow2 972) ->
              close_native (mag mq eq) (mag mv ev) (mag mf ef) normal ->
              Rabs (F2R (v / f * f) - F2R v) <= tolerance * Rabs (F2R v)).
    { intros normal Hmax Hclose.
      destruct (mul_back (v / f) f sv mq mf mv eq ef ev normal
                  Hq Hf Hef Hvmin Hmax Hclose)
        as (mp & ep & Hp & Hnear).
      unfold F2R. rewrite Hp, Hv.
      pose proof (mag_pos mv ev) as HV.
      destruct sv.
      - replace (- mag mp ep - - mag mv ev)
          with (- (mag mp ep - mag mv ev)) by ring.
        rewrite !Rabs_Ropp, (Rabs_pos_eq (mag mv ev)) by lra. exact Hnear.
      - rewrite (Rabs_pos_eq (mag mv ev)) by lra. exact Hnear. }
    destruct Hdigits as [[Hn Hd] | [H1 Hd]].
    + destruct (decide (mv = 9007199254740991%positive /\ ev = 971%Z))
        as [[-> ->] | Hnot].
      * apply (round_trip_largest v f sv Hv Hin Hn).
      * apply (Hback true); [| apply Hnormal, Hd].
        intros _. apply (mag_below_max sv mv ev Hvalid). exact Hnot.
    + apply (Hback false); [discriminate |].
      apply Hsub; [exact Hd | apply Hle, H1].
  - intros Hspecial. unfold special_value in Hspecial.
    rewrite classify_spec in Hspecial.
    apply Prim2SF_inj. rewrite mul_spec, div_spec, Hf.
    destruct (Prim2SF v) as [[|] | [|] | | sv mv ev]; try reflexivity.
    unfold SF64classify, SFclassify in Hspecial.
    destruct sv, (Zpos (digits2_pos mv) =? prec)%Z; discriminate Hspecial.
Qed.

Lemma unit_round_trip_near_witness :
  Rabs (F2R (unit_round_trip 0.1 "H/s") - F2R 0.1)
  <= tolerance * Rabs (F2R 0.1)
  /\ Rabs (F2R (unit_round_trip 1e-310 "H/s") - F2R 1e-310)
     <= tolerance * Rabs (F2R 1e-310)
  /\ Rabs (F2R (unit_round_trip 5e-324 "GH/s") - F2R 5e-324)
     <= tolerance * Rabs (F2R 5e-324)
  /\ Rabs (F2R (unit_round_trip 1.7976931348623157e308 "PH/s")
           - F2R 1.7976931348623157e308)
     <= tolerance * Rabs (F2R 1.7976931348623157e308)
  /\ unit_round_trip 0 "PH/s" = 0%float
  /\ unit_round_trip infinity "H/s" = infinity.
Proof.
  split; [| split; [| split; [| split; [| split]]]].
  - destruct (unit_round_trip_near 0.1 "H/s") as [H _]. apply H.
    vm_compute. reflexivity.
  - destruct (unit_round_trip_near 1e-310 "H/s") as [H _]. apply H.
    vm_compute. reflexivity.
  - destruct (unit_round_trip_near 5e-324 "GH/s") as [H _]. apply H.
    vm_compute. reflexivity.
  - destruct (unit_round_trip_near 1.7976931348623157e308 "PH/s") as [H _].
    apply H. vm_compute. reflexivity.
  - destruct (unit_round_trip_near 0 "PH/s") as [_ H]. apply H.
    vm_compute. reflexivity.
  - destruct (unit_round_trip_near infinity "H/s") as [_ H]. apply H.
    vm_compute. reflexivity.
Defined.

Close Scope R_scope.

(** ** Unknown hashrate *)

(** The running total of [sum] starts at 0 and so is never the negative
    zero. *)
Lemma total_ths_not_negative_zero (rows : list MinerRow) :
  Prim2SF (total_ths rows) <> S754_zero true.
Proof.
  induction rows as [| row rows IH] using rev_ind.
  - discriminate.
  - unfold total_ths. rewrite foldl_snoc.
    apply add_not_negative_zero. exact IH.
Qed.






(** ** Row status *)

Lemma status_project_row (miner : Miner) (data : MinerData) :
  status (project_row miner (Returned data)) = status_of data.
Proof.
  unfold project_row. destruct (pools_of data) as [[p w] l]. reflexivity.
Qed.

Lemma row_tag_status (idx : nat) (r1 r2 : MinerRow) :
  status r1 = status r2 -> row_tag idx r1 = row_tag idx r2.
Proof. intros H. unfold row_tag. rewrite H. reflexivity. Qed.

(** C4 as stated fails: a flag that reads [None] is neither true nor an
    explicit false, so the description gives the device the unknown status;
    the row shows "Parado" and is tagged stopped, as for a flag that reads
    false. *)
Lemma none_flag_shown_stopped :
  let miner := sample_miner "10.0.0.8" (Raised "unused") in
  let result := Returned (data_with_flag (Returned None)) in
  spec_status result = Unknown
  /\ status (project_row miner result) = "Parado"
  /\ row_tag 0 (project_row miner result) = "stopped"
  /\ status (project_row miner result) <> status_label (spec_status result)
  /\ status (project_row miner result)
     = status (project_row miner
                 (Returned (data_with_flag (Returned (Some false))))).
Proof.
  intros miner result.
  split; [reflexivity |]. split; [reflexivity |]. split; [reflexivity |].
  split; [| reflexivity]. intros H. discriminate H.
Qed.

(** C4, as the code has it: the status of a row is "Error" when the fetch
    raised an exception; otherwise "Minando" (mining) when the mining flag
    reads true, "Parado" (stopped) when it reads false or [None], and "OK"
    when reading the flag raises.  The table tags the rows mining, stopped
    and error accordingly, and a row that shows "OK" gets none of these
    tags: it is striped like any row without a status colour. *)
Theorem status_derivation (miner : Miner) :
  (forall data, is_mining data = Returned (Some true) ->
     status (project_row miner (Returned data)) = "Minando"
     /\ forall idx, row_tag idx (project_row miner (Returned data)) = "mining")
  /\ (forall data,
        is_mining data = Returned (Some false)
        \/ is_mining data = Returned None ->
     status (project_row miner (Returned data)) = "Parado"
     /\ forall idx, row_tag idx (project_row miner (Returned data)) = "stopped")
  /\ (forall e,
     status (project_row miner (Raised e)) = "Error"
     /\ forall idx, row_tag idx (project_row miner (Raised e)) = "error")
  /\ (forall data e, is_mining data = Raised e ->
     status (project_row miner (Returned data)) = "OK"
     /\ forall idx, row_tag idx (project_row miner (Returned data))
                    = if Nat.even idx then "even" else "odd").
Proof.
  split; [| split; [| split]].
  - intros data H. split; [| intros idx; unfold row_tag];
      rewrite status_project_row; unfold status_of; rewrite H; reflexivity.
  - intros data [H | H]; (split; [| intros idx; unfold row_tag]);
      rewrite status_project_row; unfold status_of; rewrite H; reflexivity.
  - intros e. split; [| intros idx]; reflexivity.
  - intros data e H. split; [| intros idx; unfold row_tag];
      rewrite status_project_row; unfold status_of; rewrite H; reflexivity.
Qed.

Lemma status_derivation_witness :
  let miner := sample_miner "10.0.0.8" (Raised "timed out") in
  status (project_row miner (Returned (data_with_flag (Returned (Some true)))))
  = "Minando"
  /\ status (project_row miner
               (Returned (data_with_flag (Returned (Some false)))))
     = "Parado"
  /\ status (project_row miner (Returned (data_with_flag (Returned None))))
     = "Parado"
  /\ status (project_row miner (Raised "timed out")) = "Error"
  /\ status (project_row miner
               (Returned (data_with_flag (Raised "no such attribute"))))
     = "OK".
Proof.
  intros miner.
  destruct (status_derivation miner) as (Hon & Hoff & Herr & Hraise).
  split; [| split; [| split; [| split]]].
  - apply (Hon (data_with_flag (Returned (Some true))) eq_refl).
  - apply (Hoff (data_with_flag (Returned (Some false)))). left. reflexivity.
  - apply (Hoff (data_with_flag (Returned None))). right. reflexivity.
  - apply (Herr "timed out").
  - apply (Hraise (data_with_flag (Raised "no such attribute"))
                  "no such attribute" eq_refl).
Defined.

(** ** Primary pool *)

Lemma find_first {A} (f : A -> bool) (l : list A) (i : nat) (x : A) :
  l !! i = Some x ->
  f x = true ->
  (forall j y, j < i -> l !! j = Some y -> f y = false) ->
  List.find f l = Some x.
Proof.
  revert i. induction l as [| a l IH]; intros i Hi Hx Hbefore.
  - discriminate Hi.
  - destruct i as [| i]; simpl in *.
    + injection Hi as ->. rewrite Hx. reflexivity.
    + rewrite (Hbefore 0 a); [| lia | reflexivity].
      apply (IH i Hi Hx). intros j y Hj Hy.
      apply (Hbefore (S j) y); [lia | exact Hy].
Qed.

Lemma find_none_all {A} (f : A -> bool) (l : list A) :
  (forall x, x ∈ l -> f x = false) -> List.find f l = None.
Proof.
  induction l as [| a l IH]; intros Hall; [reflexivity |].
  simpl. rewrite (Hall a); [| left].
  apply IH. intros x Hx. apply Hall. right. exact Hx.
Qed.

Lemma pools_project_row (miner : Miner) (data : MinerData) :
  (pool1_url (project_row miner (Returned data)),
   worker (project_row miner (Returned data)),
   all_pools (project_row miner (Returned data))) = pools_of data.
Proof.
  unfold project_row. destruct (pools_of data) as [[p w] l]. reflexivity.
Qed.

(** What the row shows of the entry [pool_dict] made of a pool. *)
Lemma pool_dict_shown (idx : nat) (p : PoolMetrics) :
  str_or (url (pool_dict idx p)) "N/A" = opt_or (pm_url p) "N/A"
  /\ str_or (user (pool_dict idx p)) "N/A" = opt_or (pm_user p) "N/A".
Proof.
  unfold pool_dict. simpl.
  destruct (pm_url p) as [u |], (pm_user p) as [[| c w] |]; split; reflexivity.
Qed.

Lemma pools_of_chosen (data : MinerData) (pool_list : list PoolMetrics)
    (i : nat) (p : PoolMetrics) :
  pools data = Some pool_list ->
  pool_list !! i = Some p ->
  List.find (fun d => truthy (active d)) (imap pool_dict pool_list)
    = Some (pool_dict i p)
  \/ (List.find (fun d => truthy (active d)) (imap pool_dict pool_list) = None
      /\ i = 0) ->
  pools_of data
  = (opt_or (pm_url p) "N/A", opt_or (pm_user p) "N/A",
     imap pool_dict pool_list).
Proof.
  intros Hpools Hi Hfind. unfold pools_of. rewrite Hpools.
  destruct (pool_dict_shown i p) as [Hurl Huser].
  destruct pool_list as [| p0 rest]; [discriminate Hi |].
  destruct Hfind as [Hfind | [Hfind ->]]; rewrite Hfind.
  - rewrite Hurl, Huser. reflexivity.
  - simpl in Hi. injection Hi as ->.
    destruct (pool_dict_shown 0 p) as [Hurl0 Huser0].
    change (imap pool_dict (p :: rest) !! 0) with (Some (pool_dict 0 p)).
    cbv iota beta. rewrite Hurl0, Huser0. reflexivity.
Qed.

(** C5: with a non-empty pool list the row's primary pool is the first entry
    whose active flag is true, and the first entry of the list when none is
    active: the row shows that entry's own url and its own user, each
    replaced by "N/A" when the entry has none or an empty one.  With no
    pools the url and worker read "N/A".  No case raises. *)
Theorem primary_pool_selection (miner : Miner) (data : MinerData) :
  let row := project_row miner (Returned data) in
  (forall pool_list i p,
     pools data = Some pool_list ->
     pool_list !! i = Some p ->
     truthy (pm_active p) = true ->
     (forall j q, j < i -> pool_list !! j = Some q ->
                  truthy (pm_active q) = false) ->
     pool1_url row = opt_or (pm_url p) "N/A"
     /\ worker row = opt_or (pm_user p) "N/A")
  /\ (forall pool_list p,
     pools data = Some pool_list ->
     pool_list !! 0 = Some p ->
     (forall q, q ∈ pool_list -> truthy (pm_active q) = false) ->
     pool1_url row = opt_or (pm_url p) "N/A"
     /\ worker row = opt_or (pm_user p) "N/A")
  /\ (pools data = Some [] \/ pools data = None ->
     pool1_url row = "N/A" /\ worker row = "N/A").
Proof.
  intros row. subst row.
  pose proof (pools_project_row miner data) as Hrow.
  split; [| split].
  - intros pool_list i p Hpools Hi Hact Hbefore.
    rewrite (pools_of_chosen data pool_list i p Hpools Hi) in Hrow.
    + injection Hrow as H1 H2 _. split; [exact H1 | exact H2].
    + left. apply (find_first _ _ i).
      * rewrite list_lookup_imap, Hi. reflexivity.
      * exact Hact.
      * intros j d Hj Hd. rewrite list_lookup_imap in Hd.
        destruct (pool_list !! j) as [q |] eqn:Hq; [| discriminate Hd].
        injection Hd as <-. apply (Hbefore j q Hj Hq).
  - intros pool_list p Hpools Hhead Hnone.
    rewrite (pools_of_chosen data pool_list 0 p Hpools Hhead) in Hrow.
    + injection Hrow as H1 H2 _. split; [exact H1 | exact H2].
    + right. split; [| reflexivity]. apply find_none_all.
      intros d Hd. apply list_elem_of_lookup in Hd as [j Hj].
      rewrite list_lookup_imap in Hj.
      destruct (pool_list !! j) as [q |] eqn:Hq; [| discriminate Hj].
      injection Hj as <-. apply Hnone.
      apply list_elem_of_lookup. exists j. exact Hq.
  - intros Hempty. unfold pools_of in Hrow.
    destruct Hempty as [H | H]; rewrite H in Hrow;
      injection Hrow as H1 H2 _; (split; [exact H1 | exact H2]).
Qed.

Lemma primary_pool_selection_witness :
  let miner := sample_miner "10.0.0.9" (Raised "unused") in
  let row1 :=
    project_row miner
      (Returned (data_with_pools
         (Some [pool_of (Some "X") (Some "w.x") (Some false);
                pool_of (Some "A") (Some "w.a") (Some true);
                pool_of (Some "Y") (Some "w.y") (Some true)]))) in
  let row2 :=
    project_row miner
      (Returned (data_with_pools
         (Some [pool_of (Some "B") (Some "w.b") None;
                pool_of (Some "C") (Some "w.c") None]))) in
  let row3 :=
    project_row miner
      (Returned (data_with_pools
         (Some [pool_entry None (Some false);
                pool_entry (Some "A") (Some true);
                pool_entry None (Some false)]))) in
  (pool1_url row1 = "A" /\ worker row1 = "w.a")
  /\ (pool1_url row2 = "B" /\ worker row2 = "w.b")
  /\ (pool1_url row3 = "A" /\ worker row3 = "N/A")
  /\ pool1_url (project_row miner (Returned (data_with_pools (Some []))))
     = "N/A"
  /\ worker (project_row miner (Returned (data_with_pools (Some []))))
     = "N/A".
Proof.
  intros miner row1 row2 row3. subst row1 row2 row3.
  split; [| split; [| split]].
  - destruct (primary_pool_selection miner
                (data_with_pools
                   (Some [pool_of (Some "X") (Some "w.x") (Some false);
                          pool_of (Some "A") (Some "w.a") (Some true);
                          pool_of (Some "Y") (Some "w.y") (Some true)])))
      as (Hactive & _ & _).
    apply (Hactive _ 1 (pool_of (Some "A") (Some "w.a") (Some true))
             eq_refl eq_refl eq_refl).
    intros j q Hj Hq. destruct j as [| j]; [| lia].
    injection Hq as <-. reflexivity.
  - destruct (primary_pool_selection miner
                (data_with_pools
                   (Some [pool_of (Some "B") (Some "w.b") None;
                          pool_of (Some "C") (Some "w.c") None])))
      as (_ & Hfirst & _).
    apply (Hfirst _ (pool_of (Some "B") (Some "w.b") None) eq_refl eq_refl).
    intros q Hq.
    elem_cases Hq ltac:(fun E => rewrite E; reflexivity).
  - destruct (primary_pool_selection miner
                (data_with_pools
                   (Some [pool_entry None (Some false);
                          pool_entry (Some "A") (Some true);
                          pool_entry None (Some false)])))
      as (Hactive & _ & _).
    apply (Hactive _ 1 (pool_entry (Some "A") (Some true)) eq_refl eq_refl
             eq_refl).
    intros j q Hj Hq. destruct j as [| j]; [| lia].
    injection Hq as <-. reflexivity.
  - destruct (primary_pool_selection miner (data_with_pools (Some [])))
      as (_ & _ & Hnone).
    apply Hnone. left. reflexivity.
Defined.

(** ** One row per handle *)

Lemma queries_end_length (miners : list Miner)
    (results : list (Result MinerData)) :
  queries_end miners results -> length miners = length results.
Proof.
  intros H. apply (f_equal length) in H. rewrite !length_fmap in H. exact H.
Qed.

Lemma queries_end_lookup (miners : list Miner)
    (results : list (Result MinerData)) (i : nat) (miner : Miner) :
  queries_end miners results ->
  miners !! i = Some miner ->
  exists result, results !! i = Some result /\ get_data miner = Ended result.
Proof.
  intros H Hi. apply (f_equal (fun l => l !! i)) in H.
  rewrite !list_lookup_fmap, Hi in H. simpl in H.
  destruct (results !! i) as [result |]; [| discriminate H].
  injection H as H. exists result. split; [reflexivity | exact H].
Qed.

Lemma scan_loop_raised (e : Exception)
    (pairs : list (Miner * Awaited MinerData)) :
  foldl (fun acc '(miner, result) =>
           rows ← acc; row ← scan_pass miner result; mret (rows ++ [row]))
        (Raised e) pairs
  = Raised e.
Proof.
  induction pairs as [| [miner result] pairs IH]; [reflexivity |]. exact IH.
Qed.

(** When every query ended, the loop appends the row of each result. *)
Lemma scan_loop_ended (miners : list Miner)
    (results : list (Result MinerData)) (rows : list MinerRow) :
  scan_loop rows (zip miners (Ended <$> results))
  = Returned (rows ++ zip_with project_row miners results).
Proof.
  revert results rows.
  induction miners as [| miner miners IH]; intros [| result results] rows;
    try (simpl; rewrite app_nil_r; reflexivity).
  change (scan_loop rows (zip (miner :: miners) (Ended <$> result :: results)))
    with (scan_loop (rows ++ [project_row miner result])
            (zip miners (Ended <$> results))).
  rewrite IH, <- app_assoc. reflexivity.
Qed.

(** A cancelled query ends the loop with the [AttributeError], whatever the
    queries before and behind it ended in. *)
Lemma scan_loop_cancelled (rows : list MinerRow)
    (before behind : list (Miner * Awaited MinerData)) (miner : Miner)
    (results : list (Result MinerData)) :
  before.*2 = Ended <$> results ->
  scan_loop rows (before ++ (miner, Cancelled) :: behind)
  = Raised "'CancelledError' object has no attribute 'hashrate'".
Proof.
  intros Hbefore. unfold scan_loop. rewrite foldl_app.
  assert (Hfirst : exists rows', scan_loop rows before = Returned rows').
  { assert (Hzip : before = zip before.*1 (Ended <$> results)).
    { rewrite <- Hbefore. symmetry. apply zip_fst_snd. }
    rewrite Hzip, scan_loop_ended. eexists. reflexivity. }
  destruct Hfirst as [rows' Hrows']. unfold scan_loop in Hrows'.
  rewrite Hrows'. apply scan_loop_raised.
Qed.

Lemma scan_network_rows (network : Network) (subnet : string)
    (progress_cb : bool) (miners : list Miner)
    (results : list (Result MinerData)) :
  network subnet = Returned miners ->
  queries_end miners results ->
  snd (scan_network network subnet progress_cb)
  = Returned (zip_with project_row miners results).
Proof.
  intros Hnet Hend. unfold scan_network. rewrite Hnet.
  destruct miners as [| miner miners]; [reflexivity |].
  unfold gather. cbv zeta.
  change (map get_data (miner :: miners)) with (get_data <$> miner :: miners).
  rewrite Hend, scan_loop_ended. reflexivity.
Qed.

Lemma ip_project_row (miner : Miner) (result : Result MinerData) :
  ip (project_row miner result) = ip_of miner.
Proof.
  destruct result as [e | data]; [reflexivity |].
  unfold project_row. destruct (pools_of data) as [[p w] l]. reflexivity.
Qed.

Lemma miner_obj_project_row (miner : Miner) (result : Result MinerData) :
  miner_obj (project_row miner result) = miner.
Proof.
  destruct result as [e | data]; [reflexivity |].
  unfold project_row. destruct (pools_of data) as [[p w] l]. reflexivity.
Qed.

Lemma zip_fmap_r {A B} (f : A -> B) (l : list A) :
  zip l (f <$> l) = (fun x => (x, f x)) <$> l.
Proof.
  induction l as [| x l IH]; [reflexivity |].
  rewrite !fmap_cons. simpl. rewrite IH. reflexivity.
Qed.

(** A scan in which a query is cancelled raises, whatever the queries
    behind the first cancelled one end in, and returns no row. *)
Lemma scan_network_cancelled (network : Network) (subnet : string)
    (progress_cb : bool) (before behind : list Miner) (miner : Miner)
    (results : list (Result MinerData)) :
  network subnet = Returned (before ++ miner :: behind) ->
  queries_end before results ->
  get_data miner = Cancelled ->
  snd (scan_network network subnet progress_cb)
  = Raised "'CancelledError' object has no attribute 'hashrate'".
Proof.
  intros Hnet Hend Hcancel. unfold scan_network. rewrite Hnet.
  destruct (before ++ miner :: behind) as [| m ms] eqn:Hms.
  { destruct before; discriminate Hms. }
  rewrite <- Hms. unfold gather. cbv zeta.
  change (map get_data (before ++ miner :: behind))
    with (get_data <$> before ++ miner :: behind).
  rewrite zip_fmap_r, fmap_app, fmap_cons, Hcancel.
  rewrite (scan_loop_cancelled [] _ _ miner results); [reflexivity |].
  rewrite <- list_fmap_compose. exact Hend.
Qed.

(** While no query is cancelled the scan does what its description says: a
    row per handle, in the order of the handles, the error row for a query
    that raised an [Exception]. *)
Lemma scan_rows_when_queries_end (network : Network) (subnet : string)
    (progress_cb : bool) (miners : list Miner)
    (results : list (Result MinerData)) :
  network subnet = Returned miners ->
  queries_end miners results ->
  exists rows : list MinerRow,
    snd (scan_network network subnet progress_cb) = Returned rows
    /\ length rows = length miners
    /\ (forall i miner result,
          miners !! i = Some miner -> results !! i = Some result ->
          exists row, rows !! i = Some row
            /\ row = project_row miner result
            /\ ip row = ip_of miner
            /\ miner_obj row = miner
            /\ (forall e, result = Raised e -> row = error_row miner)).
Proof.
  intros Hnet Hend. exists (zip_with project_row miners results).
  split; [apply (scan_network_rows _ _ _ _ _ Hnet Hend) |].
  split.
  - rewrite length_zip_with, (queries_end_length _ _ Hend). lia.
  - intros i miner result Hi Hr. exists (project_row miner result).
    split; [| split; [reflexivity | split; [apply ip_project_row | split]]].
    + rewrite lookup_zip_with, Hi. simpl. rewrite Hr. reflexivity.
    + apply miner_obj_project_row.
    + intros e ->. reflexivity.
Qed.

(** C2, on the code: discovery returns three handles and the query of the
    second is cancelled.  [gather] hands the [CancelledError] back among the
    results, it is no [Exception] instance, and the loop uses it as the
    device's data: [scan_network] raises after the two progress messages
    and returns no row, although the queries of the two siblings ended, one
    of them with the device's data.  Had the second query raised an
    [Exception], three rows would have been returned. *)
Theorem cancelled_query_aborts_scan :
  let network : Network := fun _ => Returned one_query_cancelled in
  scan_network network "10.0.0.0/24" true
  = (["Escaneando 10.0.0.0/24...";
      "Encontrados 3 miners. Obteniendo datos..."],
     Raised "'CancelledError' object has no attribute 'hashrate'")
  /\ (forall rows,
        snd (scan_network network "10.0.0.0/24" true) <> Returned rows)
  /\ get_data <$> one_query_cancelled
     = [Ended (Returned (sample_data None)); Cancelled;
        Ended (Raised "connection refused")]
  /\ exists rows,
       snd (scan_network (fun _ => Returned three_miners) "10.0.0.0/24" true)
       = Returned rows
       /\ length rows = 3.
Proof.
  intros network. split; [| split; [| split]].
  - vm_compute. reflexivity.
  - intros rows H. vm_compute in H. discriminate H.
  - reflexivity.
  - eexists. split; [vm_compute; reflexivity | reflexivity].
Qed.

(** ** The fleet total *)



(** ** No devices versus a failed scan *)

(** C3 as stated fails: the failed scan and the scan that found nothing
    yield the same returned value and, with no callback, nothing else. *)
Lemma scan_failure_not_distinguished :
  scan_network (network_raises "invalid IPv4 network") "300.1.1.0/24" false
  = scan_network network_silent "300.1.1.0/24" false
  /\ snd (scan_network (network_raises "invalid IPv4 network")
                       "300.1.1.0/24" true)
     = Returned [].
Proof. split; reflexivity. Qed.

(** C3, as the code has it: a scan on which discovery raises and a scan that
    finds no device both return the empty row list, and neither raises; the
    callback, when there is one, is told "Error al escanear: ..." in the
    first case and "No se encontraron miners." in the second, and these two
    messages differ; without a callback the two outcomes are the same. *)
Theorem scan_failure_and_empty (network : Network) (subnet : string) :
  (forall e progress_cb, network subnet = Raised e ->
     snd (scan_network network subnet progress_cb) = Returned []
     /\ fst (scan_network network subnet true)
        = ["Escaneando " +:+ subnet +:+ "..."; "Error al escanear: " +:+ e]
     /\ fst (scan_network network subnet false) = [])
  /\ (forall progress_cb, network subnet = Returned [] ->
     snd (scan_network network subnet progress_cb) = Returned []
     /\ fst (scan_network network subnet true)
        = ["Escaneando " +:+ subnet +:+ "..."; "No se encontraron miners."]
     /\ fst (scan_network network subnet false) = [])
  /\ (forall e, "Error al escanear: " +:+ e <> "No se encontraron miners.").
Proof.
  split; [| split].
  - intros e cb Hnet. unfold scan_network. rewrite Hnet.
    repeat split.
  - intros cb Hnet. unfold scan_network. rewrite Hnet.
    repeat split.
  - intros e H. discriminate H.
Qed.

Lemma scan_failure_and_empty_witness :
  snd (scan_network (network_raises "bad range") "300.1.1.0/24" true)
  = Returned []
  /\ snd (scan_network network_silent "10.0.0.0/24" true) = Returned [].
Proof.
  destruct (scan_failure_and_empty (network_raises "bad range") "300.1.1.0/24")
    as (Hfail & _ & _).
  destruct (scan_failure_and_empty network_silent "10.0.0.0/24")
    as (_ & Hempty & _).
  split.
  - apply (Hfail "bad range" true eq_refl).
  - apply (Hempty true eq_refl).
Defined.

(** ** Dispatch *)

Lemma filled_cons (out : Miner -> option string)
    (results : gmap string string) (miner : Miner) (order : list Miner) :
  filled out results (miner :: order)
  = filled out (match out miner with
                | Some v => <[ip_of miner := v]> results
                | None => results
                end) order.
Proof. reflexivity. Qed.

Lemma filled_snoc (out : Miner -> option string)
    (results : gmap string string) (order : list Miner) (miner : Miner) :
  filled out results (order ++ [miner])
  = match out miner with
    | Some v => <[ip_of miner := v]> (filled out results order)
    | None => filled out results order
    end.
Proof. unfold filled. rewrite foldl_snoc. reflexivity. Qed.

(** The addresses a dispatch writes: those of the coroutines that write. *)
Lemma filled_dom (out : Miner -> option string) (order : list Miner)
    (results : gmap string string) :
  dom (filled out results order)
  = dom results
    ∪ list_to_set (ip_of <$> filter (fun miner => is_Some (out miner)) order).
Proof.
  revert results. induction order as [| miner order IH]; intros results.
  - simpl. rewrite (right_id_L ∅ (∪)). reflexivity.
  - rewrite filled_cons, IH, filter_cons.
    destruct (out miner) as [v |] eqn:Hout.
    + rewrite decide_True; [| eexists; reflexivity].
      rewrite dom_insert_L, fmap_cons, list_to_set_cons.
      rewrite (comm_L (∪) {[ip_of miner]} (dom results)).
      rewrite <- (assoc_L (∪)). reflexivity.
    + rewrite decide_False; [reflexivity |]. intros [v Hv]. discriminate Hv.
Qed.

(** An address at which no coroutine writes keeps what it had. *)
Lemma filled_lookup_none (out : Miner -> option string) (order : list Miner)
    (results : gmap string string) (k : string) :
  (forall other, other ∈ order -> ip_of other = k -> out other = None) ->
  filled out results order !! k = results !! k.
Proof.
  induction order as [| last order IH] using rev_ind; intros Hnone;
    [reflexivity |].
  rewrite filled_snoc.
  assert (IH' : filled out results order !! k = results !! k).
  { apply IH. intros other Hother. apply Hnone. apply elem_of_app. left.
    exact Hother. }
  destruct (out last) as [v |] eqn:Hout; [| exact IH'].
  rewrite lookup_insert_ne; [exact IH' |].
  intros Heq. rewrite (Hnone last) in Hout; [discriminate Hout | | exact Heq].
  apply elem_of_app. right. left.
Qed.

(** A miner's entry is its own outcome once every handle at its address has
    that same outcome; there is none when none of them writes. *)
Lemma filled_lookup (out : Miner -> option string) (order : list Miner)
    (miner : Miner) :
  miner ∈ order ->
  (forall other, other ∈ order -> ip_of other = ip_of miner ->
                 out other = out miner) ->
  filled out ∅ order !! ip_of miner = out miner.
Proof.
  destruct (out miner) as [v |] eqn:Hout.
  - induction order as [| last order IH] using rev_ind; intros Hin Hsame.
    + apply elem_of_nil in Hin. destruct Hin.
    + rewrite filled_snoc.
      destruct (decide (ip_of last = ip_of miner)) as [Heq | Hne].
      * rewrite (Hsame last); [| apply elem_of_app; right; left | exact Heq].
        rewrite Heq, lookup_insert_eq. reflexivity.
      * assert (Hrest : filled out ∅ order !! ip_of miner = Some v).
        { apply IH.
          - apply elem_of_app in Hin as [Hin | Hin]; [exact Hin |].
            apply list_elem_of_singleton in Hin. subst. congruence.
          - intros other Hother. apply Hsame. apply elem_of_app. left.
            exact Hother. }
        destruct (out last); [| exact Hrest].
        rewrite lookup_insert_ne; [exact Hrest | exact Hne].
  - intros _ Hsame. rewrite filled_lookup_none; [apply lookup_empty |].
    exact Hsame.
Qed.

Lemma filled_ext (f : gmap string string -> Miner -> gmap string string)
    (out : Miner -> option string) (order : list Miner)
    (results : gmap string string) :
  (forall results miner,
     f results miner = match out miner with
                       | Some v => <[ip_of miner := v]> results
                       | None => results
                       end) ->
  foldl f results order = filled out results order.
Proof.
  intros Hf. revert results.
  induction order as [| miner order IH]; intros results; [reflexivity |].
  rewrite filled_cons. simpl. rewrite Hf. apply IH.
Qed.

Lemma reboot_miners_filled (miners order : list Miner) :
  reboot_miners miners order = Returned (filled reboot_outcome ∅ order).
Proof.
  unfold reboot_miners, gather. simpl. f_equal. apply filled_ext.
  intros results miner. unfold _reboot, reboot_outcome.
  destruct (reboot miner) as [[e | u] |]; reflexivity.
Qed.

Lemma send_pool_config_filled (imported : Result unit)
    (miners order : list Miner) (pools : list (gmap string string)) :
  send_pool_config imported miners order pools
  = Returned (filled (send_outcome imported pools) ∅ order).
Proof.
  unfold send_pool_config, gather. simpl. f_equal. apply filled_ext.
  intros results miner. unfold _send, send_outcome.
  destruct (get_config miner) as [[e | cfg] |]; try reflexivity. simpl.
  destruct (update_cfg imported cfg pools) as [e | cfg']; [reflexivity |].
  simpl. destruct (send_config miner cfg') as [[e | u] |]; reflexivity.
Qed.

Lemma filter_all {A} (P : A -> Prop) `{!forall x, Decision (P x)}
    (l : list A) :
  (forall x, x ∈ l -> P x) -> filter P l = l.
Proof.
  induction l as [| x l IH]; intros Hall; [reflexivity |].
  rewrite filter_cons, decide_True; [| apply Hall; left].
  rewrite IH; [reflexivity |]. intros y Hy. apply Hall. right. exact Hy.
Qed.

(** A dispatch over [miners] whose coroutines finish in any order: an entry
    per address at which a coroutine writes, each the outcome of the handles
    at that address. *)
Lemma filled_outcomes (out : Miner -> option string)
    (miners order : list Miner) :
  order ≡ₚ miners ->
  dom (filled out ∅ order)
  = list_to_set (ip_of <$> filter (fun miner => is_Some (out miner)) miners)
  /\ (forall miner, miner ∈ miners ->
        (forall other, other ∈ miners -> ip_of other = ip_of miner ->
                       out other = out miner) ->
        filled out ∅ order !! ip_of miner = out miner)
  /\ (NoDup (ip_of <$> miners) ->
        size (filled out ∅ order)
        = length (filter (fun miner => is_Some (out miner)) miners)).
Proof.
  intros Hperm.
  assert (Hdom : dom (filled out ∅ order)
                 = list_to_set
                     (ip_of <$> filter (fun miner => is_Some (out miner))
                                       miners)).
  { rewrite filled_dom, dom_empty_L, (left_id_L ∅ (∪)).
    apply list_to_set_perm_L. rewrite Hperm. reflexivity. }
  split; [exact Hdom | split].
  - intros miner Hin Hsame. apply filled_lookup.
    + rewrite Hperm. exact Hin.
    + intros other Hother. apply Hsame. rewrite <- Hperm. exact Hother.
  - intros Hnodup. rewrite <- size_dom, Hdom.
    rewrite size_list_to_set; [apply length_fmap |].
    apply (sublist_NoDup _ (ip_of <$> miners)); [exact Hnodup |].
    apply fmap_sublist, sublist_filter.
Qed.

Lemma NoDup_ip_inj (miners : list Miner) (m1 m2 : Miner) :
  NoDup (ip_of <$> miners) ->
  m1 ∈ miners -> m2 ∈ miners -> ip_of m1 = ip_of m2 -> m1 = m2.
Proof.
  induction miners as [| miner miners IH]; intros Hnodup H1 H2 Hip.
  - apply elem_of_nil in H1. destruct H1.
  - rewrite fmap_cons in Hnodup. apply NoDup_cons in Hnodup as [Hnot Hnodup].
    apply elem_of_cons in H1 as [-> | H1], H2 as [-> | H2].
    + reflexivity.
    + destruct Hnot. rewrite Hip. apply list_elem_of_fmap.
      exists m2. split; [reflexivity | exact H2].
    + destruct Hnot. rewrite <- Hip. apply list_elem_of_fmap.
      exists m1. split; [reflexivity | exact H1].
    + apply (IH Hnodup H1 H2 Hip).
Qed.

(** While no reboot is cancelled [reboot_miners] does what its description
    says, whatever order the reboots complete in: an entry per distinct
    address, "OK" for a reboot that returned and "Error: <reason>" for one
    that raised an [Exception]. *)
Lemma reboot_entries_when_reboots_end (miners order : list Miner) :
  order ≡ₚ miners ->
  (forall miner, miner ∈ miners -> reboot miner <> Cancelled) ->
  exists results : gmap string string,
    reboot_miners miners order = Returned results
    /\ dom results = list_to_set (ip_of <$> miners)
    /\ (forall miner, miner ∈ miners ->
          (forall other, other ∈ miners -> ip_of other = ip_of miner ->
                         reboot other = reboot miner) ->
          (forall u, reboot miner = Ended (Returned u) ->
                     results !! ip_of miner = Some "OK")
          /\ (forall e, reboot miner = Ended (Raised e) ->
                        results !! ip_of miner = Some ("Error: " +:+ e)))
    /\ (NoDup (ip_of <$> miners) -> size results = length miners).
Proof.
  intros Hperm Hend. exists (filled reboot_outcome ∅ order).
  destruct (filled_outcomes reboot_outcome miners order Hperm)
    as (Hdom & Hlookup & Hsize).
  assert (Hall : filter (fun miner => is_Some (reboot_outcome miner)) miners
                 = miners).
  { apply filter_all. intros miner Hin. unfold reboot_outcome.
    destruct (reboot miner) as [[e | u] |] eqn:Hr; [eexists; reflexivity .. |].
    destruct (Hend miner Hin Hr). }
  rewrite Hall in Hdom, Hsize.
  split; [apply reboot_miners_filled |].
  split; [exact Hdom |]. split; [| exact Hsize].
  intros miner Hin Hsame.
  assert (Hentry : filled reboot_outcome ∅ order !! ip_of miner
                   = reboot_outcome miner).
  { apply Hlookup; [exact Hin |]. intros other Hother Hip.
    unfold reboot_outcome. rewrite (Hsame other Hother Hip). reflexivity. }
  split.
  - intros u Hu. rewrite Hentry. unfold reboot_outcome. rewrite Hu.
    reflexivity.
  - intros e He. rewrite Hentry. unfold reboot_outcome. rewrite He.
    reflexivity.
Qed.

(** C8, on the code: five devices with five addresses are sent to
    [reboot_miners] and the reboot of the second is cancelled.  The
    [CancelledError] passes the [except Exception] of [_reboot], [gather]
    keeps it, and the call returns, whatever order the coroutines finish
    in, a dictionary of four entries with none for the second device: its
    failure is recorded nowhere.  The device whose reboot raised an
    [Exception] has its "Error: <reason>" entry. *)
Theorem cancelled_reboot_leaves_no_entry (order : list Miner) :
  order ≡ₚ one_reboot_cancelled ->
  NoDup (ip_of <$> one_reboot_cancelled)
  /\ length one_reboot_cancelled = 5
  /\ exists results : gmap string string,
       reboot_miners one_reboot_cancelled order = Returned results
       /\ size results = 4
       /\ results !! "10.0.0.2" = None
       /\ results !! "10.0.0.4" = Some "Error: connection refused"
       /\ count_value "OK" results = 3.
Proof.
  intros Hperm.
  assert (Hnodup : NoDup (ip_of <$> one_reboot_cancelled)) by compute_done.
  split; [exact Hnodup |]. split; [reflexivity |].
  exists (filled reboot_outcome ∅ order).
  destruct (filled_outcomes reboot_outcome one_reboot_cancelled order Hperm)
    as (Hdom & Hlookup & Hsize).
  assert (Hentry : forall miner, miner ∈ one_reboot_cancelled ->
            filled reboot_outcome ∅ order !! ip_of miner
            = reboot_outcome miner).
  { intros miner Hin. apply (Hlookup miner Hin). intros other Hother Hip.
    f_equal. apply (NoDup_ip_inj one_reboot_cancelled _ _ Hnodup);
      assumption. }
  assert (Hmap : filled reboot_outcome ∅ order
                 = filled reboot_outcome ∅ one_reboot_cancelled).
  { apply map_eq. intros k.
    destruct (decide (k ∈ ip_of <$> one_reboot_cancelled)) as [Hk | Hk].
    - apply list_elem_of_fmap in Hk as (miner & -> & Hin).
      rewrite (Hentry miner Hin). symmetry.
      destruct (filled_outcomes reboot_outcome one_reboot_cancelled
                  one_reboot_cancelled (reflexivity _)) as (_ & Hl & _).
      apply (Hl miner Hin). intros other Hother Hip. f_equal.
      apply (NoDup_ip_inj one_reboot_cancelled _ _ Hnodup); assumption.
    - rewrite !filled_lookup_none; [reflexivity | |];
        intros other Hother Hip; destruct Hk; rewrite <- Hip;
        apply list_elem_of_fmap; exists other;
        (split; [reflexivity |]); [| rewrite <- Hperm]; exact Hother. }
  split; [apply reboot_miners_filled |]. rewrite Hmap.
  repeat split; vm_compute; reflexivity.
Qed.

Lemma cancelled_reboot_leaves_no_entry_witness :
  exists results : gmap string string,
    reboot_miners one_reboot_cancelled (reverse one_reboot_cancelled)
    = Returned results
    /\ size results = 4
    /\ results !! "10.0.0.2" = None.
Proof.
  destruct (cancelled_reboot_leaves_no_entry (reverse one_reboot_cancelled)
              (reverse_Permutation one_reboot_cancelled))
    as (_ & _ & results & Hret & Hsize & Hnone & _).
  exists results. split; [exact Hret |]. split; [exact Hsize | exact Hnone].
Defined.

(** ** Pool update on a configuration without a pool list *)

(** C9 as stated fails: a device whose configuration has no pool list is
    reported "OK". *)
Lemma pool_shape_reported_ok :
  exposes_pool_list legacy_cfg = false
  /\ forall imported,
       send_pool_config imported [legacy_miner] [legacy_miner] one_pool
       = Returned {["10.0.0.6" := "OK"]}.
Proof. split; [reflexivity |]. intros imported. reflexivity. Qed.

Lemma update_cfg_not_exposed (imported : Result unit) (cfg : MinerConfig)
    (pools : list (gmap string string)) :
  exposes_pool_list cfg = false ->
  update_cfg imported cfg pools = Returned cfg.
Proof.
  unfold exposes_pool_list, update_cfg. intros H.
  destruct (mining_mode cfg) as [| [mm |]]; try reflexivity.
  destruct (mm_pools mm); [reflexivity | discriminate H].
Qed.

Lemma send_pool_config_alone (imported : Result unit) (miner : Miner)
    (pools : list (gmap string string)) :
  send_pool_config imported [miner] [miner] pools
  = Returned (alone (ip_of miner) (send_outcome imported pools miner)).
Proof.
  rewrite send_pool_config_filled. unfold filled, alone. simpl.
  destruct (send_outcome imported pools miner); reflexivity.
Qed.

(** C9, as the code has it: a targeted device whose configuration exposes no
    pool list has that configuration sent back unchanged, and its entry is
    "OK" when [send_config] accepts it and "Error: <reason>" when it raises
    an exception (there is none when the call is cancelled); every other
    device with an address of its own gets the entry it would get if it
    were dispatched alone, and it gets one unless a call on it is
    cancelled.  This holds whatever the import of [MiningPoolConfig]
    yields: it is not reached for such a device. *)
Theorem pool_list_not_exposed (imported : Result unit)
    (miners order : list Miner) (pools : list (gmap string string))
    (miner : Miner) (cfg : MinerConfig) :
  order ≡ₚ miners ->
  miner ∈ miners ->
  get_config miner = Ended (Returned cfg) ->
  exposes_pool_list cfg = false ->
  update_cfg imported cfg pools = Returned cfg
  /\ exists results : gmap string string,
       send_pool_config imported miners order pools = Returned results
       /\ ((forall other, other ∈ miners -> ip_of other = ip_of miner ->
                          other = miner) ->
           results !! ip_of miner
           = match send_config miner cfg with
             | Ended (Returned _) => Some "OK"
             | Ended (Raised e) => Some ("Error: " +:+ e)
             | Cancelled => None
             end)
       /\ (forall other, other ∈ miners ->
             (forall m, m ∈ miners -> ip_of m = ip_of other -> m = other) ->
             exists v : option string,
               results !! ip_of other = v
               /\ send_pool_config imported [other] [other] pools
                  = Returned (alone (ip_of other) v)
               /\ (v = None ->
                   get_config other = Cancelled
                   \/ exists c, send_config other c = Cancelled)).
Proof.
  intros Hperm Hin Hcfg Hshape.
  pose proof (update_cfg_not_exposed imported cfg pools Hshape) as Hsame.
  split; [exact Hsame |].
  exists (filled (send_outcome imported pools) ∅ order).
  destruct (filled_outcomes (send_outcome imported pools) miners order Hperm)
    as (_ & Hlookup & _).
  split; [apply send_pool_config_filled | split].
  - intros Hown. rewrite (Hlookup miner Hin).
    + unfold send_outcome. rewrite Hcfg, Hsame.
      destruct (send_config miner cfg) as [[e | u] |]; reflexivity.
    + intros other Hother Hip. rewrite (Hown other Hother Hip). reflexivity.
  - intros other Hother Hown. exists (send_outcome imported pools other).
    split; [| split].
    + apply (Hlookup other Hother). intros m Hm Hip.
      rewrite (Hown m Hm Hip). reflexivity.
    + apply send_pool_config_alone.
    + unfold send_outcome.
      destruct (get_config other) as [[e | c] |]; try discriminate;
        [| left; reflexivity].
      destruct (update_cfg imported c pools) as [e | c']; [discriminate |].
      destruct (send_config other c') as [[e | u] |] eqn:Hs;
        try discriminate.
      intros _. right. exists c'. exact Hs.
Qed.

Lemma pool_list_not_exposed_witness :
  exists results : gmap string string,
    send_pool_config import_fails [modern_miner; legacy_miner]
                     [legacy_miner; modern_miner] one_pool
    = Returned results
    /\ results !! "10.0.0.6" = Some "OK"
    /\ results !! "10.0.0.7" = Some ("Error: " +:+ import_error).
Proof.
  destruct (pool_list_not_exposed import_fails [modern_miner; legacy_miner]
              [legacy_miner; modern_miner] one_pool legacy_miner legacy_cfg)
    as (_ & results & Hret & Hown & Hothers).
  - apply perm_swap.
  - right. left.
  - reflexivity.
  - reflexivity.
  - exists results. split; [exact Hret |]. split.
    + apply Hown. intros other Hother Hip.
      elem_cases Hother
        ltac:(fun E => subst; first [reflexivity | discriminate Hip]).
    + destruct (Hothers modern_miner) as (v & Hv & Halone & _).
      * left.
      * intros m Hm Hip.
        elem_cases Hm
          ltac:(fun E => subst; first [reflexivity | discriminate Hip]).
      * rewrite send_pool_config_alone in Halone.
        apply (f_equal (fun r : Result (gmap string string) =>
                          match r with
                          | Returned m => m !! "10.0.0.7"
                          | Raised _ => None
                          end)) in Halone.
        change (ip_of modern_miner) with "10.0.0.7" in *.
        rewrite Hv. destruct v as [x |]; unfold alone in Halone.
        -- rewrite lookup_singleton_eq in Halone. rewrite <- Halone.
           reflexivity.
        -- rewrite lookup_empty in Halone. rewrite <- Halone. reflexivity.
Defined.

(** ** Scans in flight *)

(** C1, on the code: after the monitor is started and its thread has entered
    its first scan, the flag is still clear; a manual scan request is then
    not turned down but starts a second scan beside the monitor's. *)
Theorem monitor_then_manual_scan_overlaps :
  let a := run (init "192.168.1.10")
               [OnMonitorToggle; MonitorThreadStep 0 network_silent] in
  reachable a
  /\ monitor_threads a = [InScan "192.168.1.0/24"]
  /\ _scan_running a = false
  /\ pipelines_in_flight a = 1
  /\ ~ rejected a (step a OnScan)
  /\ scan_threads (step a OnScan) = ["192.168.1.0/24"]
  /\ pipelines_in_flight (step a OnScan) = 2.
Proof.
  intros a. split; [| split; [| split; [| split; [| split; [| split]]]]].
  - exists "192.168.1.10",
      [OnMonitorToggle; MonitorThreadStep 0 network_silent]. reflexivity.
  - reflexivity.
  - reflexivity.
  - reflexivity.
  - intros H. apply (f_equal _scan_running) in H. discriminate H.
  - reflexivity.
  - reflexivity.
Qed.

(** While the flag is set, [_on_scan] turns the request down and starts
    nothing. *)
Lemma on_scan_rejects_while_running (a : App) :
  _scan_running a = true ->
  rejected a (step a OnScan)
  /\ pipelines_in_flight (step a OnScan) = pipelines_in_flight a.
Proof.
  intros H. unfold rejected. simpl. unfold _on_scan. rewrite H.
  split; reflexivity.
Qed.

(** While the flag is clear, [_on_scan] starts a scan whatever the monitor
    threads are doing. *)
Lemma on_scan_starts_while_clear (a : App) :
  _scan_running a = false ->
  scan_threads (step a OnScan) = scan_threads a ++ [_get_subnet a]
  /\ monitor_threads (step a OnScan) = monitor_threads a.
Proof.
  intros H. simpl. unfold _on_scan. rewrite H. split; reflexivity.
Qed.

(** A monitor thread neither reads nor writes the flag. *)
Lemma monitor_step_keeps_flag (i : nat) (network : Network) (a : App) :
  _scan_running (monitor_thread_step i network a) = _scan_running a.
Proof.
  unfold monitor_thread_step.
  destruct (monitor_threads a !! i) as [[| subnet | [| n] |] |];
    try reflexivity; destruct (_monitor_active a); reflexivity.
Qed.

Lemma scan_callbacks_no_done (prefix : string)
    (out : list string * Result (list MinerRow)) :
  filter (fun cb => is_scan_done cb = true) (scan_callbacks prefix out) = [].
Proof.
  unfold scan_callbacks. rewrite filter_app.
  assert (Hmsgs : forall msgs : list string,
            filter (fun cb => is_scan_done cb = true) (map CbSetStatus msgs)
            = []).
  { induction msgs as [| m msgs IH]; [reflexivity |].
    simpl. rewrite filter_cons_False; [exact IH | simpl; discriminate]. }
  rewrite Hmsgs. destruct (snd out); reflexivity.
Qed.

Lemma flag_covers_manual_step (a : App) (ev : Event) :
  flag_covers_manual a -> flag_covers_manual (step a ev).
Proof.
  unfold flag_covers_manual, pending_done. intros [Hclear Hone].
  destruct ev as [| | i network | i network |]; simpl.
  - unfold _on_scan. destruct (_scan_running a) eqn:Hrun.
    + simpl. split; [intros H; congruence | exact Hone].
    + destruct (Hclear eq_refl) as [Hnil Hpend]. simpl.
      split; [intros H; congruence |].
      rewrite Hnil, Hpend. simpl. lia.
  - unfold _on_monitor_toggle.
    destruct (_monitor_active a); simpl; split; assumption.
  - unfold scan_thread_returns.
    destruct (scan_threads a !! i) as [subnet |] eqn:Hi;
      [| split; assumption].
    simpl. rewrite !filter_app, scan_callbacks_no_done. simpl.
    rewrite filter_cons_True by reflexivity.
    rewrite !length_app. simpl.
    pose proof (lookup_lt_Some _ _ _ Hi) as Hlt.
    rewrite length_delete by eauto.
    split; [| lia]. intros Hrun. destruct (Hclear Hrun) as [Hnil _].
    rewrite Hnil in Hi. discriminate Hi.
  - unfold monitor_thread_step.
    destruct (monitor_threads a !! i) as [[| subnet | [| n] |] |];
      try (split; assumption).
    + destruct (_monitor_active a); simpl; [| split; assumption].
      rewrite filter_app. simpl.
      rewrite filter_cons_False by (simpl; discriminate).
      rewrite filter_nil, app_nil_r. split; assumption.
    + simpl. rewrite filter_app, scan_callbacks_no_done, app_nil_r.
      split; assumption.
    + destruct (_monitor_active a); simpl; split; assumption.
  - unfold tk_idle. destruct (after_queue a) as [| cb q] eqn:Hq;
      [rewrite Hq; split; assumption |].
    destruct cb as [msg | rows |]; simpl.
    + rewrite filter_cons_False in Hclear, Hone by (simpl; discriminate).
      split; assumption.
    + rewrite filter_cons_False in Hclear, Hone by (simpl; discriminate).
      split; assumption.
    + rewrite filter_cons_True in Hclear, Hone by reflexivity.
      simpl in Hone. split; [| lia]. intros _.
      split; [| lia]. destruct (scan_threads a); [reflexivity |].
      simpl in Hone. lia.
Qed.

(** In every reachable state at most one thread of [_start_scan] is
    scanning, and the flag is set while it is. *)
Lemma flag_covers_manual_reachable (a : App) :
  reachable a -> flag_covers_manual a.
Proof.
  intros (ip_from & evs & ->). unfold run.
  induction evs as [| ev evs IH] using rev_ind.
  - unfold flag_covers_manual, pending_done. simpl.
    split; [intros _; split; reflexivity | lia].
  - rewrite foldl_snoc. apply flag_covers_manual_step. exact IH.
Qed.

(** * The rest of the code *)

(** ** Configuration file *)

Lemma bind_returned {A B} (a : A) (f : A -> Result B) :
  (Returned a ≫= f) = f a.
Proof. reflexivity. Qed.

Lemma bind_raised {A B} (e : Exception) (f : A -> Result B) :
  (Raised e ≫= f) = Raised e.
Proof. reflexivity. Qed.

Lemma lookup_union_first {A} (m1 m2 : gmap string A) (i : string) :
  (m1 ∪ m2) !! i = match m1 !! i with Some v => Some v | None => m2 !! i end.
Proof.
  destruct (m1 !! i) as [v |] eqn:H.
  - apply lookup_union_Some_l. exact H.
  - apply lookup_union_r. exact H.
Qed.

Lemma setdefault_union (k : string) (v : json) (d : gmap string json) :
  setdefault k v d = d ∪ {[k := v]}.
Proof.
  unfold setdefault. apply map_eq. intros j.
  rewrite lookup_union_first. destruct (d !! k) as [x |] eqn:Hk.
  - destruct (decide (k = j)) as [<- | Hne].
    + rewrite Hk. reflexivity.
    + rewrite lookup_singleton_ne by exact Hne.
      destruct (d !! j); reflexivity.
  - destruct (decide (k = j)) as [<- | Hne].
    + rewrite lookup_insert_eq, Hk, lookup_singleton_eq. reflexivity.
    + rewrite lookup_insert_ne, lookup_singleton_ne by exact Hne.
      destruct (d !! j); reflexivity.
Qed.

(** Merging a section keeps what is there and fills in the rest. *)
Lemma merge_section_union (values : list (string * json))
    (d : gmap string json) :
  merge_section values d = d ∪ list_to_map values.
Proof.
  unfold merge_section. revert d.
  induction values as [| [k v] values IH]; intros d.
  - simpl. rewrite (right_id_L ∅ (∪)). reflexivity.
  - simpl. rewrite IH, setdefault_union, <- (assoc_L (∪)).
    rewrite <- insert_union_singleton_l. reflexivity.
Qed.

Lemma merge_section_lookup (values : list (string * json))
    (d : gmap string json) (k : string) :
  merge_section values d !! k
  = match d !! k with
    | Some v => Some v
    | None => (list_to_map values : gmap string json) !! k
    end.
Proof.
  rewrite merge_section_union. apply lookup_union_first.
Qed.

Lemma dict_of_lookup (items : list (string * json)) (k : string) :
  NoDup items.*1 ->
  dict_of items !! k = (list_to_map items : gmap string json) !! k.
Proof.
  unfold dict_of. intros Hnd.
  assert (H : forall d : gmap string json,
            foldl (fun d '(k, v) => <[k := v]> d) d items !! k
            = match (list_to_map items : gmap string json) !! k with
              | Some v => Some v
              | None => d !! k
              end).
  { induction items as [| [k0 v0] items IH]; intros d; [reflexivity |].
    apply NoDup_cons in Hnd as [Hk0 Hnd]. simpl. rewrite (IH Hnd).
    destruct (decide (k0 = k)) as [<- | Hne].
    - rewrite lookup_insert_eq.
      rewrite (not_elem_of_list_to_map_1 _ _ Hk0), lookup_insert_eq.
      reflexivity.
    - rewrite !lookup_insert_ne by exact Hne. reflexivity. }
  rewrite H. destruct (_ !! k); reflexivity.
Qed.

Lemma dict_of_defaults_lookup (values : list (string * json)) (k : string) :
  NoDup values.*1 ->
  merge_section values ∅ !! k = dict_of values !! k.
Proof.
  intros Hnd. rewrite merge_section_lookup, lookup_empty, dict_of_lookup
    by exact Hnd. reflexivity.
Qed.

Lemma default_passwords_NoDup : NoDup default_passwords.*1.
Proof. compute_done. Qed.

Lemma default_network_NoDup : NoDup default_network.*1.
Proof. compute_done. Qed.

Lemma merge_section_dict_of (values : list (string * json)) :
  NoDup values.*1 -> merge_section values ∅ = dict_of values.
Proof.
  intros Hnd. apply map_eq. intros k. apply dict_of_defaults_lookup, Hnd.
Qed.

(** What one pass of the merge loop leaves of section [s]. *)
Lemma merge_one_ok (o : gmap string json) (s : string)
    (values : list (string * json)) :
  NoDup values.*1 ->
  section_ok o s = true ->
  merge_one (JObj o) s values
  = Returned (JObj (<[s := JObj (merge_section values (section_of o s))]> o)).
Proof.
  intros Hnd Hok. unfold merge_one, section_ok, section_of in *.
  destruct (o !! s) as [[] |]; try discriminate; try reflexivity.
  rewrite merge_section_dict_of by exact Hnd. reflexivity.
Qed.

Lemma merge_one_bad (o : gmap string json) (s : string)
    (values : list (string * json)) :
  section_ok o s = false ->
  exists e, merge_one (JObj o) s values = Raised e.
Proof.
  intros Hok. unfold merge_one, section_ok in *.
  destruct (o !! s) as [[] |]; try discriminate; eexists; reflexivity.
Qed.

Lemma section_ok_insert (o : gmap string json) (s t : string) (v : json) :
  s <> t -> section_ok (<[t := v]> o) s = section_ok o s.
Proof.
  intros Hne. unfold section_ok. rewrite lookup_insert_ne by congruence.
  reflexivity.
Qed.

Lemma section_of_insert (o : gmap string json) (s t : string) (v : json) :
  s <> t -> section_of (<[t := v]> o) s = section_of o s.
Proof.
  intros Hne. unfold section_of. rewrite lookup_insert_ne by congruence.
  reflexivity.
Qed.


Lemma merge_defaults_unfold (data : json) :
  merge_defaults data
  = (data ← merge_one data "passwords" default_passwords;
     merge_one data "network" default_network).
Proof. reflexivity. Qed.

Lemma merge_defaults_ok (o : gmap string json) :
  section_ok o "passwords" = true ->
  section_ok o "network" = true ->
  merge_defaults (JObj o) = Returned (JObj (completed o)).
Proof.
  intros Hp Hn. rewrite merge_defaults_unfold.
  rewrite (merge_one_ok _ _ _ default_passwords_NoDup Hp).
  rewrite bind_returned.
  rewrite merge_one_ok.
  - rewrite section_of_insert by discriminate. reflexivity.
  - exact default_network_NoDup.
  - rewrite section_ok_insert by discriminate. exact Hn.
Qed.

Lemma merge_defaults_bad (o : gmap string json) :
  section_ok o "passwords" = false \/ section_ok o "network" = false ->
  exists e, merge_defaults (JObj o) = Raised e.
Proof.
  intros H. rewrite merge_defaults_unfold.
  destruct (section_ok o "passwords") eqn:Hp.
  - destruct H as [H | H]; [discriminate |].
    rewrite (merge_one_ok _ _ _ default_passwords_NoDup Hp).
    rewrite bind_returned.
    apply merge_one_bad. rewrite section_ok_insert by discriminate. exact H.
  - destruct (merge_one_bad o "passwords" default_passwords Hp) as [e ->].
    exists e. reflexivity.
Qed.

Lemma merge_defaults_not_object (data : json) :
  (forall o, data <> JObj o) -> exists e, merge_defaults data = Raised e.
Proof.
  intros H. destruct data; try (eexists; reflexivity).
  destruct (H o). reflexivity.
Qed.

(** [load_config] by cases on the file. *)
Lemma load_config_cases (file : Result json) :
  (exists o, file = Returned (JObj o)
     /\ section_ok o "passwords" = true /\ section_ok o "network" = true
     /\ load_config file = JObj (completed o))
  \/ ((forall o, file = Returned (JObj o) ->
         section_ok o "passwords" = false \/ section_ok o "network" = false)
      /\ load_config file = defaults_json).
Proof.
  destruct file as [e | data].
  - right. split; [discriminate | reflexivity].
  - destruct data;
      try (right; split; [discriminate | reflexivity]).
    destruct (section_ok o "passwords") eqn:Hp;
      [destruct (section_ok o "network") eqn:Hn |].
    + left. exists o. repeat (split; [assumption || reflexivity |]).
      unfold load_config. simpl. rewrite (merge_defaults_ok o Hp Hn).
      reflexivity.
    + right. split.
      * intros o' [= <-]. right. exact Hn.
      * unfold load_config. simpl.
        destruct (merge_defaults_bad o (or_intror Hn)) as [e ->]. reflexivity.
    + right. split.
      * intros o' [= <-]. left. exact Hp.
      * unfold load_config. simpl.
        destruct (merge_defaults_bad o (or_introl Hp)) as [e ->]. reflexivity.
Qed.

Lemma defaults_json_completed : defaults_json = JObj (completed ∅).
Proof. vm_compute. reflexivity. Qed.

Lemma completed_lookup_section (o : gmap string json) (s : string)
    (values : list (string * json)) :
  (s, values) ∈ defaults ->
  completed o !! s = Some (JObj (merge_section values (section_of o s))).
Proof.
  intros Hin. unfold completed, defaults in *.
  apply elem_of_cons in Hin as [[= -> ->] | Hin];
    [| apply list_elem_of_singleton in Hin as [= -> ->]].
  - rewrite lookup_insert_ne by discriminate. apply lookup_insert_eq.
  - apply lookup_insert_eq.
Qed.

Lemma completed_lookup_other (o : gmap string json) (s : string) :
  s ∉ sections -> completed o !! s = o !! s.
Proof.
  intros Hs. unfold completed.
  rewrite !lookup_insert_ne; [reflexivity | |];
    intros <-; apply Hs; unfold sections; set_solver.
Qed.

Lemma defaults_NoDup (s : string) (values : list (string * json)) :
  (s, values) ∈ defaults -> NoDup values.*1.
Proof.
  intros Hin. unfold defaults in Hin.
  apply elem_of_cons in Hin as [[= -> ->] | Hin];
    [| apply list_elem_of_singleton in Hin as [= -> ->]].
  - exact default_passwords_NoDup.
  - exact default_network_NoDup.
Qed.

(** The object [load_config] returns: the file's object completed, or the
    defaults, which are the empty object completed. *)
Lemma load_config_as_completed (file : Result json) :
  exists o, load_config file = JObj (completed o)
    /\ (forall s, s ∈ sections -> section_ok o s = true).
Proof.
  destruct (load_config_cases file) as [(o & _ & Hp & Hn & ->) | [_ ->]].
  - exists o. split; [reflexivity |]. intros s Hs.
    elem_cases Hs ltac:(fun E => subst; assumption).
  - exists ∅. split; [apply defaults_json_completed |]. reflexivity.
Qed.

(** X1: whatever the file holds (unreadable, not JSON, any JSON value),
    [load_config] returns an object whose [passwords] and [network] sections
    are objects that have every key of the defaults. *)
Theorem load_config_complete (file : Result json) :
  exists o : gmap string json,
    load_config file = JObj o
    /\ forall s values, (s, values) ∈ defaults ->
         exists d, o !! s = Some (JObj d)
           /\ forall k v, (k, v) ∈ values -> is_Some (d !! k).
Proof.
  destruct (load_config_as_completed file) as (o & -> & _).
  exists (completed o). split; [reflexivity |].
  intros s values Hin. eexists. split.
  - apply (completed_lookup_section o s values Hin).
  - intros k v Hkv. rewrite merge_section_lookup.
    destruct (section_of o s !! k); [eexists; reflexivity |].
    exists v. apply elem_of_list_to_map_1; [| exact Hkv].
    apply (defaults_NoDup s values Hin).
Qed.

(** X2: for a file that holds an object whose [passwords] and [network]
    sections are missing or objects, [load_config] keeps every other entry
    of the file and every value the file gives inside the two sections,
    and adds the default for each key a section lacks. *)
Theorem load_config_keeps_file_values (o : gmap string json) :
  (forall s, s ∈ sections -> section_ok o s = true) ->
  exists o' : gmap string json,
    load_config (Returned (JObj o)) = JObj o'
    /\ (forall s, s ∉ sections -> o' !! s = o !! s)
    /\ (forall s values, (s, values) ∈ defaults ->
          exists d, o' !! s = Some (JObj d)
            /\ forall k, d !! k = match section_of o s !! k with
                                  | Some v => Some v
                                  | None => dict_of values !! k
                                  end).
Proof.
  intros Hok. exists (completed o). split; [| split].
  - unfold load_config. simpl. rewrite merge_defaults_ok; [reflexivity | |];
      apply Hok; unfold sections; set_solver.
  - apply completed_lookup_other.
  - intros s values Hin. eexists. split.
    + apply (completed_lookup_section o s values Hin).
    + intros k. rewrite merge_section_lookup.
      rewrite dict_of_lookup by apply (defaults_NoDup s values Hin).
      reflexivity.
Qed.

Lemma load_config_keeps_file_values_witness :
  exists o' : gmap string json,
    load_config (Returned (JObj partial_file)) = JObj o'
    /\ o' !! "pools" = Some (JArr [])
    /\ exists d, o' !! "passwords" = Some (JObj d)
         /\ d !! "antminer_web" = Some (JStr "s3cret")
         /\ d !! "vnish_web" = Some (JStr "admin").
Proof.
  destruct (load_config_keeps_file_values partial_file)
    as (o' & Hload & Hother & Hsec).
  - intros s Hs. elem_cases Hs ltac:(fun E => subst; reflexivity).
  - exists o'. split; [exact Hload |]. split.
    + rewrite Hother; [reflexivity |]. compute_done.
    + destruct (Hsec "passwords" default_passwords) as (d & Hd & Hk);
        [left |].
      exists d. split; [exact Hd |]. split; rewrite Hk; reflexivity.
Defined.

(** X3: when the file cannot be read or parsed, holds something other than
    an object, or holds an object whose [passwords] or [network] entry is
    not an object, [load_config] returns the defaults alone: nothing of the
    file is kept. *)
Theorem load_config_falls_back (file : Result json) :
  (forall o, file = Returned (JObj o) ->
     exists s, s ∈ sections /\ section_ok o s = false) ->
  load_config file = defaults_json.
Proof.
  intros Hbad.
  destruct (load_config_cases file) as [(o & Hfile & Hp & Hn & _) | [_ H]];
    [| exact H].
  destruct (Hbad o Hfile) as (s & Hs & Hfalse).
  elem_cases Hs ltac:(fun E => subst; congruence).
Qed.

Lemma load_config_falls_back_witness :
  load_config (Returned (JObj broken_file)) = defaults_json
  /\ load_config (Raised "No such file or directory") = defaults_json
  /\ load_config (Returned (JArr [])) = defaults_json.
Proof.
  split; [| split]; apply load_config_falls_back.
  - intros o [= <-]. exists "network". split; [compute_done | reflexivity].
  - discriminate.
  - discriminate.
Defined.

Lemma merge_section_idemp (values : list (string * json))
    (d : gmap string json) :
  merge_section values (merge_section values d) = merge_section values d.
Proof.
  rewrite !merge_section_union, <- (assoc_L (∪)), (idemp_L (∪)).
  reflexivity.
Qed.

Lemma completed_idemp (o : gmap string json) :
  completed (completed o) = completed o.
Proof.
  unfold completed at 1.
  unfold section_of at 1 2.
  rewrite (completed_lookup_section o "network" default_network)
    by (right; left).
  rewrite (completed_lookup_section o "passwords" default_passwords)
    by left.
  rewrite !merge_section_idemp. unfold completed.
  apply map_eq. intros k.
  destruct (decide (k = "network")) as [-> | Hn].
  { rewrite !lookup_insert_eq. reflexivity. }
  rewrite !(lookup_insert_ne _ "network") by congruence.
  destruct (decide (k = "passwords")) as [-> | Hp].
  { rewrite !lookup_insert_eq. reflexivity. }
  rewrite !lookup_insert_ne by congruence.
  reflexivity.
Qed.

(** X4: loading what [load_config] returned gives it back unchanged: a
    configuration written out as loaded is read back the same. *)
Theorem load_config_idempotent (file : Result json) :
  load_config (Returned (load_config file)) = load_config file.
Proof.
  destruct (load_config_as_completed file) as (o & -> & _).
  unfold load_config at 1. simpl. rewrite merge_defaults_ok.
  - simpl. rewrite completed_idemp. reflexivity.
  - unfold section_ok.
    rewrite (completed_lookup_section o "passwords" default_passwords)
      by left. reflexivity.
  - unfold section_ok.
    rewrite (completed_lookup_section o "network" default_network)
      by (right; left). reflexivity.
Qed.

(** ** Passwords *)

Lemma mapping_NoDup : NoDup mapping.*2.
Proof. compute_done. Qed.

Lemma mapping_no_underscore (entry : string * string) :
  entry ∈ mapping -> starts_with_underscore entry.1 = false.
Proof.
  intros Hin. unfold mapping in Hin.
  elem_cases Hin ltac:(fun E => subst; reflexivity).
Qed.

Lemma apply_password_object (repr_ : json -> string)
    (supported : string -> bool) (pw : gmap string json)
    (settings : gmap string string) (config_key pyasic_key : string) :
  starts_with_underscore config_key = false ->
  exists result,
    apply_password repr_ supported (JObj pw) settings (config_key, pyasic_key)
    = Returned result
    /\ result !! pyasic_key
       = applied repr_ supported pw settings config_key pyasic_key
    /\ forall key, key <> pyasic_key -> result !! key = settings !! key.
Proof.
  intros Hu. unfold apply_password, applied. simpl. rewrite Hu. simpl.
  rewrite andb_true_r. unfold settings_update.
  destruct (is_not_none (pw !! config_key)); simpl;
    [destruct (supported pyasic_key); simpl |];
    eexists; (split; [reflexivity |]); split; try reflexivity.
  - apply lookup_insert_eq.
  - intros key Hne. apply lookup_insert_ne. congruence.
Qed.

Lemma apply_passwords_fold (repr_ : json -> string)
    (supported : string -> bool) (pw : gmap string json)
    (m : list (string * string)) (settings : gmap string string) :
  NoDup m.*2 ->
  (forall entry, entry ∈ m -> starts_with_underscore entry.1 = false) ->
  exists result,
    foldl (fun acc entry =>
             settings ← acc;
             apply_password repr_ supported (JObj pw) settings entry)
          (Returned settings) m = Returned result
    /\ (forall config_key pyasic_key, (config_key, pyasic_key) ∈ m ->
          result !! pyasic_key
          = applied repr_ supported pw settings config_key pyasic_key)
    /\ (forall key, key ∉ m.*2 -> result !! key = settings !! key).
Proof.
  revert settings. induction m as [| [ck pk] m IH]; intros settings Hnd Hu.
  - exists settings. split; [reflexivity |]. split; [| reflexivity].
    intros ? ? Hin. apply elem_of_nil in Hin. destruct Hin.
  - rewrite fmap_cons in Hnd. apply NoDup_cons in Hnd as [Hpk Hnd].
    destruct (apply_password_object repr_ supported pw settings ck pk)
      as (s1 & Hs1 & Hat & Hother).
    { apply (Hu (ck, pk)). left. }
    destruct (IH s1 Hnd) as (result & Hfold & Hin & Hout).
    { intros entry He. apply Hu. right. exact He. }
    exists result.
    change (foldl ?f ?a ((ck, pk) :: m)) with (foldl f (f a (ck, pk)) m).
    cbv beta. rewrite bind_returned.
    rewrite Hs1. split; [exact Hfold |]. split.
    + intros config_key pyasic_key Hmem.
      apply elem_of_cons in Hmem as [[= -> ->] | Hmem].
      * rewrite (Hout pk Hpk). exact Hat.
      * rewrite (Hin _ _ Hmem). unfold applied.
        rewrite Hother; [reflexivity |].
        intros ->. apply Hpk. apply list_elem_of_fmap.
        exists (config_key, pk). split; [reflexivity | exact Hmem].
    + intros key Hkey. rewrite fmap_cons in Hkey.
      apply not_elem_of_cons in Hkey as [Hne Hkey].
      rewrite (Hout key Hkey). apply Hother. exact Hne.
Qed.

Lemma dict_get_loaded (file : Result json) :
  dict_get (load_config file) "passwords"
  = Returned (Some (JObj (loaded_passwords file))).
Proof.
  unfold loaded_passwords.
  destruct (load_config_as_completed file) as (o & -> & _).
  simpl. unfold section_of.
  rewrite (completed_lookup_section o "passwords" default_passwords) by left.
  reflexivity.
Qed.

Lemma configure_passwords_from_config_unfold (repr_ : json -> string)
    (supported : string -> bool) (file : Result json)
    (settings : gmap string string) :
  configure_passwords_from_config repr_ supported file settings
  = foldl (fun acc entry =>
             settings ← acc;
             apply_password repr_ supported (JObj (loaded_passwords file))
                            settings entry)
          (Returned settings) mapping.
Proof.
  unfold configure_passwords_from_config. rewrite dict_get_loaded.
  reflexivity.
Qed.

(** The loop over the mapping always returns. *)
Lemma configure_passwords_from_config_returns (repr_ : json -> string)
    (supported : string -> bool) (file : Result json)
    (settings : gmap string string) :
  exists result : gmap string string,
    configure_passwords_from_config repr_ supported file settings
    = Returned result.
Proof.
  rewrite configure_passwords_from_config_unfold.
  destruct (apply_passwords_fold repr_ supported (loaded_passwords file)
              mapping settings mapping_NoDup mapping_no_underscore)
    as (result & Hresult & _).
  exists result. exact Hresult.
Qed.

(** X5: [configure_passwords_from_config] never raises, whatever the file
    holds and whichever settings pyasic accepts.  For each pair of its
    mapping, the pyasic setting receives [str] of the loaded password when
    that is not [None] and pyasic accepts the setting, and keeps its value
    otherwise; no other setting is touched. *)
Theorem configure_passwords_from_config_effect (repr_ : json -> string)
    (supported : string -> bool) (file : Result json)
    (settings : gmap string string) :
  exists result : gmap string string,
    configure_passwords_from_config repr_ supported file settings
    = Returned result
    /\ (forall config_key pyasic_key, (config_key, pyasic_key) ∈ mapping ->
          result !! pyasic_key
          = applied repr_ supported (loaded_passwords file) settings
                    config_key pyasic_key)
    /\ (forall key, key ∉ mapping.*2 -> result !! key = settings !! key).
Proof.
  rewrite configure_passwords_from_config_unfold.
  apply apply_passwords_fold.
  - exact mapping_NoDup.
  - exact mapping_no_underscore.
Qed.

Lemma apply_password_agree (repr_ : json -> string)
    (supported : string -> bool) (pw1 pw2 : gmap string json)
    (settings : gmap string string) (entry : string * string) :
  pw1 !! entry.1 = pw2 !! entry.1 ->
  apply_password repr_ supported (JObj pw1) settings entry
  = apply_password repr_ supported (JObj pw2) settings entry.
Proof.
  destruct entry as [ck pk]. simpl. intros H.
  unfold apply_password. simpl. rewrite H. reflexivity.
Qed.

Lemma apply_passwords_agree (repr_ : json -> string)
    (supported : string -> bool) (pw1 pw2 : gmap string json)
    (m : list (string * string)) (acc : Result (gmap string string)) :
  (forall ck, ck ∈ m.*1 -> pw1 !! ck = pw2 !! ck) ->
  foldl (fun acc entry =>
           settings ← acc;
           apply_password repr_ supported (JObj pw1) settings entry) acc m
  = foldl (fun acc entry =>
             settings ← acc;
             apply_password repr_ supported (JObj pw2) settings entry) acc m.
Proof.
  revert acc. induction m as [| entry m IH]; intros acc H; [reflexivity |].
  change (foldl ?f acc (entry :: m)) with (foldl f (f acc entry) m).
  rewrite IH.
  - f_equal. destruct acc as [e | settings]; [reflexivity |].
    rewrite !bind_returned.
    apply apply_password_agree. apply H. rewrite fmap_cons. left.
  - intros ck Hck. apply H. rewrite fmap_cons. right. exact Hck.
Qed.

(** X6: only the keys of the mapping count.  Two files whose loaded
    passwords agree on the mapping's keys leave the same settings; the
    entries [bosminer_web] and [bosminer_ssh], which the defaults define,
    are not among those keys, so they never reach pyasic. *)
Theorem unmapped_passwords_ignored (repr_ : json -> string)
    (supported : string -> bool) (file1 file2 : Result json)
    (settings : gmap string string) :
  (forall config_key, config_key ∈ mapping.*1 ->
     loaded_passwords file1 !! config_key
     = loaded_passwords file2 !! config_key) ->
  configure_passwords_from_config repr_ supported file1 settings
  = configure_passwords_from_config repr_ supported file2 settings
  /\ ("bosminer_web" ∈ default_passwords.*1)
  /\ ("bosminer_web" ∉ mapping.*1)
  /\ ("bosminer_ssh" ∈ default_passwords.*1)
  /\ ("bosminer_ssh" ∉ mapping.*1).
Proof.
  intros H. split; [| repeat split; compute_done].
  rewrite !configure_passwords_from_config_unfold.
  apply apply_passwords_agree. exact H.
Qed.

Lemma unmapped_passwords_ignored_witness :
  loaded_passwords (Returned (JObj partial_file)) !! "bosminer_web"
  = Some (JStr "other")
  /\ loaded_passwords (Returned (JObj partial_file')) !! "bosminer_web"
     = Some (JStr "root")
  /\ configure_passwords_from_config no_repr (fun _ => true)
       (Returned (JObj partial_file)) ∅
     = configure_passwords_from_config no_repr (fun _ => true)
         (Returned (JObj partial_file')) ∅.
Proof.
  split; [vm_compute; reflexivity |]. split; [vm_compute; reflexivity |].
  apply (unmapped_passwords_ignored no_repr (fun _ => true)
           (Returned (JObj partial_file)) (Returned (JObj partial_file')) ∅).
  intros ck Hck. unfold mapping in Hck. simpl in Hck.
  elem_cases Hck ltac:(fun E => subst; vm_compute; reflexivity).
Defined.

Lemma literal_get_elem (items : list (string * string)) (k key : string) :
  literal_get items k = Some key -> (k, key) ∈ items.
Proof.
  unfold literal_get. intros H.
  destruct (List.find _ items) as [[k' key'] |] eqn:Hfind; [| discriminate].
  injection H as <-. apply find_some in Hfind as [Hin Hk].
  apply bool_decide_eq_true in Hk. simpl in Hk. subst k'.
  apply list_elem_of_In. exact Hin.
Qed.

Lemma override_mapping_inj (k1 k2 key : string) :
  literal_get override_mapping k1 = Some key ->
  literal_get override_mapping k2 = Some key ->
  k1 = k2.
Proof.
  intros H1 H2. apply literal_get_elem in H1, H2.
  unfold override_mapping in *.
  elem_cases H1 ltac:(fun E1 =>
    injection E1 as -> ->;
    elem_cases H2 ltac:(fun E2 =>
      first [injection E2 as ->; reflexivity | discriminate E2])).
Qed.

(** One pass of the loop of [configure_passwords]. *)
Lemma override_step (supported : string -> bool)
    (settings : gmap string string) (k v : string) :
  match literal_get override_mapping k with
  | Some key =>
      if str_truthy key
      then settings_update supported key v settings
      else mret settings
  | None => mret settings
  end
  = match literal_get override_mapping k with
    | Some key => settings_update supported key v settings
    | None => Returned settings
    end.
Proof.
  destruct (literal_get override_mapping k) as [key |] eqn:Hk;
    [| reflexivity].
  apply literal_get_elem in Hk. unfold override_mapping in Hk.
  elem_cases Hk ltac:(fun E => injection E as -> ->; reflexivity).
Qed.

Lemma overrides_fold (supported : string -> bool)
    (overrides : list (string * string)) (base : gmap string string) :
  NoDup overrides.*1 ->
  (forall k v key, (k, v) ∈ overrides ->
     literal_get override_mapping k = Some key -> supported key = true) ->
  exists result,
    foldl (fun acc '(k, v) =>
             settings ← acc;
             match literal_get override_mapping k with
             | Some key =>
                 if str_truthy key
                 then settings_update supported key v settings
                 else mret settings
             | None => mret settings
             end)
          (Returned base) overrides = Returned result
    /\ (forall k v key, (k, v) ∈ overrides ->
          literal_get override_mapping k = Some key ->
          result !! key = Some v)
    /\ (forall key,
          (forall k v, (k, v) ∈ overrides ->
             literal_get override_mapping k <> Some key) ->
          result !! key = base !! key).
Proof.
  revert base. induction overrides as [| [k v] overrides IH];
    intros base Hnd Hsup.
  - exists base. split; [reflexivity |]. split; [| reflexivity].
    intros ? ? ? Hin. apply elem_of_nil in Hin. destruct Hin.
  - rewrite fmap_cons in Hnd. apply NoDup_cons in Hnd as [Hk Hnd].
    change (foldl ?f ?a ((k, v) :: overrides))
      with (foldl f (f a (k, v)) overrides).
    cbv beta iota. rewrite bind_returned, override_step.
    assert (Hstep : exists s1,
              match literal_get override_mapping k with
              | Some key => settings_update supported key v base
              | None => Returned base
              end = Returned s1
              /\ (forall key, literal_get override_mapping k = Some key ->
                              s1 !! key = Some v)
              /\ (forall key, literal_get override_mapping k <> Some key ->
                              s1 !! key = base !! key)).
    { destruct (literal_get override_mapping k) as [key |] eqn:Hkey.
      - unfold settings_update.
        rewrite (Hsup k v key) by (first [left | exact Hkey]).
        eexists. split; [reflexivity |]. split.
        + intros ? [= <-]. apply lookup_insert_eq.
        + intros key' Hne. apply lookup_insert_ne. congruence.
      - exists base. split; [reflexivity |]. split;
          [discriminate | reflexivity]. }
    destruct Hstep as (s1 & -> & Hat & Hother).
    destruct (IH s1 Hnd) as (result & Hfold & Hin & Hout).
    { intros k' v' key' Hmem. apply (Hsup k' v' key'). right. exact Hmem. }
    exists result. split; [exact Hfold |]. split.
    + intros k' v' key' Hmem Hkey'.
      apply elem_of_cons in Hmem as [[= -> ->] | Hmem].
      * rewrite Hout; [apply Hat; exact Hkey' |].
        intros k2 v2 Hmem2 Hkey2.
        apply Hk. rewrite (override_mapping_inj _ _ _ Hkey' Hkey2).
        apply list_elem_of_fmap. exists (k2, v2).
        split; [reflexivity | exact Hmem2].
      * apply (Hin k' v' key' Hmem Hkey').
    + intros key Hkey. rewrite Hout.
      * apply Hother. apply (Hkey k v). left.
      * intros k' v' Hmem. apply (Hkey k' v'). right. exact Hmem.
Qed.

(** X7: [configure_passwords] with keyword arguments whose settings pyasic
    accepts: each argument named in its mapping ends up as the value of its
    setting, over what the file gave; a setting no argument is mapped to
    keeps what [configure_passwords_from_config] left. *)
Theorem configure_passwords_overrides (repr_ : json -> string)
    (supported : string -> bool) (file : Result json)
    (overrides : list (string * string)) (settings : gmap string string) :
  NoDup overrides.*1 ->
  (forall k v key, (k, v) ∈ overrides ->
     literal_get override_mapping k = Some key -> supported key = true) ->
  exists base result : gmap string string,
    configure_passwords_from_config repr_ supported file settings
    = Returned base
    /\ configure_passwords repr_ supported file overrides settings
       = Returned result
    /\ (forall k v key, (k, v) ∈ overrides ->
          literal_get override_mapping k = Some key ->
          result !! key = Some v)
    /\ (forall key,
          (forall k v, (k, v) ∈ overrides ->
             literal_get override_mapping k <> Some key) ->
          result !! key = base !! key).
Proof.
  intros Hnd Hsup.
  destruct (configure_passwords_from_config_returns repr_ supported file
              settings) as (base & Hbase).
  destruct (overrides_fold supported overrides base Hnd Hsup)
    as (result & Hfold & Hin & Hout).
  exists base, result. split; [exact Hbase |].
  split; [| split; [exact Hin | exact Hout]].
  unfold configure_passwords. rewrite Hbase, bind_returned. exact Hfold.
Qed.

Lemma configure_passwords_overrides_witness :
  exists result : gmap string string,
    configure_passwords no_repr (fun _ => true)
      (Returned (JObj partial_file))
      [("whatsminer", "w-pass"); ("antminer_web", "a-pass")] ∅
    = Returned result
    /\ result !! "default_whatsminer_rpc_password" = Some "w-pass"
    /\ result !! "default_antminer_web_password" = Some "a-pass"
    /\ result !! "default_vnish_web_password" = Some "admin".
Proof.
  destruct (configure_passwords_overrides no_repr (fun _ => true)
              (Returned (JObj partial_file))
              [("whatsminer", "w-pass"); ("antminer_web", "a-pass")] ∅)
    as (base & result & Hbase & Hres & Hin & Hout).
  - compute_done.
  - reflexivity.
  - exists result. split; [exact Hres |]. split; [| split].
    + apply (Hin "whatsminer" "w-pass"); [left | reflexivity].
    + apply (Hin "antminer_web" "a-pass"); [right; left | reflexivity].
    + rewrite Hout.
      * assert (Hc : try_except
                       (configure_passwords_from_config no_repr (fun _ => true)
                          (Returned (JObj partial_file)) ∅)
                       (fun _ => ∅) !! "default_vnish_web_password"
                     = Some "admin") by (vm_compute; reflexivity).
        rewrite Hbase in Hc. exact Hc.
      * intros k v Hmem.
        elem_cases Hmem ltac:(fun E => injection E as -> ->; discriminate).
Defined.

(** ** Text *)

Lemma append_assoc (s1 s2 s3 : string) :
  (s1 +:+ s2) +:+ s3 = s1 +:+ (s2 +:+ s3).
Proof.
  induction s1 as [| c s1 IH]; [reflexivity |].
  change (String c ((s1 +:+ s2) +:+ s3) = String c (s1 +:+ (s2 +:+ s3))).
  rewrite IH. reflexivity.
Qed.

Lemma append_nil_r (s : string) : s +:+ "" = s.
Proof.
  induction s as [| c s IH]; [reflexivity |].
  change (String c (s +:+ "") = String c s). rewrite IH. reflexivity.
Qed.

Lemma append_cons (c : ascii) (s t : string) :
  String c s +:+ t = String c (s +:+ t).
Proof. reflexivity. Qed.

Lemma rev_app_append (s t : string) :
  String.rev_app s t = String.rev s +:+ t.
Proof.
  unfold String.rev. revert t.
  induction s as [| c s IH]; intros t; [reflexivity |].
  change (String.rev_app s (String c t)
          = String.rev_app s (String c "") +:+ t).
  rewrite (IH (String c t)), (IH (String c "")), append_assoc.
  reflexivity.
Qed.

Lemma rev_cons (c : ascii) (s : string) :
  String.rev (String c s) = String.rev s +:+ String c "".
Proof. apply (rev_app_append s (String c "")). Qed.

Lemma rev_append (s t : string) :
  String.rev (s +:+ t) = String.rev t +:+ String.rev s.
Proof.
  induction s as [| c s IH].
  - rewrite append_nil_r. reflexivity.
  - rewrite append_cons, !rev_cons, IH, append_assoc. reflexivity.
Qed.

Lemma rev_involutive (s : string) : String.rev (String.rev s) = s.
Proof.
  induction s as [| c s IH]; [reflexivity |].
  rewrite rev_cons, rev_append, IH. reflexivity.
Qed.

(** *** [split] on dots *)

Lemma dot_append (s : string) : "." +:+ s = String "." s.
Proof. reflexivity. Qed.

Lemma split_dot_length (cur s : string) :
  length (split_dot cur s) = S (dots s).
Proof.
  revert cur. induction s as [| c s IH]; intros cur; [reflexivity |].
  simpl. destruct (Ascii.eqb c "."); simpl; rewrite IH; reflexivity.
Qed.

Lemma split_dot_part (p cur rest : string) :
  dots p = 0 ->
  split_dot cur (p +:+ String "." rest)
  = String.rev (String.rev p +:+ cur) :: split_dot "" rest.
Proof.
  revert cur. induction p as [| c p IH]; intros cur Hp.
  - reflexivity.
  - simpl in Hp. simpl. destruct (Ascii.eqb c "."); [discriminate |].
    rewrite IH by exact Hp. rewrite rev_cons, append_assoc. reflexivity.
Qed.

Lemma split_dot_last (p cur : string) :
  dots p = 0 -> split_dot cur p = [String.rev (String.rev p +:+ cur)].
Proof.
  revert cur. induction p as [| c p IH]; intros cur Hp.
  - reflexivity.
  - simpl in Hp. simpl. destruct (Ascii.eqb c "."); [discriminate |].
    rewrite IH by exact Hp. rewrite rev_cons, append_assoc. reflexivity.
Qed.

Lemma rev_rev_nil (p : string) : String.rev (String.rev p +:+ "") = p.
Proof. rewrite append_nil_r. apply rev_involutive. Qed.

(** X9: [_get_subnet] looks at the dots only.  When the trimmed field
    reads [p0.p1.p2.p3], four parts without a dot, whatever they hold, the
    subnet is [p0.p1.p2.0/24]; when the trimmed field does not have exactly
    three dots, it is [192.168.1.0/24]. *)
Theorem get_subnet_by_dots (a : App) :
  (forall p0 p1 p2 p3,
     dots p0 = 0 -> dots p1 = 0 -> dots p2 = 0 -> dots p3 = 0 ->
     strip (_ip_from_var a) = p0 +:+ "." +:+ p1 +:+ "." +:+ p2 +:+ "." +:+ p3 ->
     _get_subnet a = p0 +:+ "." +:+ p1 +:+ "." +:+ p2 +:+ ".0/24")
  /\ (dots (strip (_ip_from_var a)) <> 3 ->
      _get_subnet a = "192.168.1.0/24").
Proof.
  split.
  - intros p0 p1 p2 p3 H0 H1 H2 H3 Hs. unfold _get_subnet. rewrite Hs.
    rewrite !dot_append.
    rewrite (split_dot_part p0) by exact H0.
    rewrite (split_dot_part p1) by exact H1.
    rewrite (split_dot_part p2) by exact H2.
    rewrite (split_dot_last p3) by exact H3.
    rewrite !rev_rev_nil. reflexivity.
  - intros Hd. unfold _get_subnet.
    pose proof (split_dot_length "" (strip (_ip_from_var a))) as Hlen.
    destruct (split_dot "" (strip (_ip_from_var a)))
      as [| q0 [| q1 [| q2 [| q3 [| q4 l]]]]]; try reflexivity.
    simpl in Hlen. congruence.
Qed.

Lemma get_subnet_by_dots_witness :
  _get_subnet (init " 10.20.30.77 ") = "10.20.30.0/24"
  /\ _get_subnet (init "10.20.30") = "192.168.1.0/24".
Proof.
  destruct (get_subnet_by_dots (init " 10.20.30.77 ")) as [H _].
  destruct (get_subnet_by_dots (init "10.20.30")) as [_ H'].
  split.
  - apply (H "10" "20" "30" "77"); reflexivity.
  - apply H'. vm_compute. discriminate.
Defined.

(** *** [strip] *)

Lemma lstrip_starts_clean (s : string) : starts_clean (lstrip s).
Proof.
  induction s as [| c s IH]; [exact I |].
  simpl. destruct (is_space c) eqn:Hc; [exact IH | exact Hc].
Qed.

Lemma lstrip_clean (s : string) : starts_clean s -> lstrip s = s.
Proof.
  destruct s as [| c s]; [reflexivity |]. simpl. intros ->. reflexivity.
Qed.

(** What [lstrip] removes is a prefix. *)
Lemma lstrip_prefix (s : string) : exists w, s = w +:+ lstrip s.
Proof.
  induction s as [| c s [w IH]]; [exists ""; reflexivity |].
  simpl. destruct (is_space c).
  - exists (String c w). rewrite append_cons, <- IH. reflexivity.
  - exists "". reflexivity.
Qed.

Lemma starts_clean_append (s t : string) :
  s <> "" -> starts_clean (s +:+ t) -> starts_clean s.
Proof. destruct s as [| c s]; [congruence |]. intros _ H. exact H. Qed.

Lemma strip_clean (s : string) :
  starts_clean s -> starts_clean (String.rev s) -> strip s = s.
Proof.
  intros H1 H2. unfold strip.
  rewrite (lstrip_clean s H1), (lstrip_clean _ H2). apply rev_involutive.
Qed.

Lemma rev_nil_inv (s : string) : String.rev s = "" -> s = "".
Proof.
  intros H. rewrite <- (rev_involutive s), H. reflexivity.
Qed.

Lemma strip_idemp (s : string) : strip (strip s) = strip s.
Proof.
  apply strip_clean.
  - unfold strip.
    destruct (lstrip_prefix (String.rev (lstrip s))) as [w Hw].
    set (u := lstrip (String.rev (lstrip s))) in *.
    destruct (decide (String.rev u = "")) as [-> | Hne]; [exact I |].
    apply (starts_clean_append _ (String.rev w) Hne).
    rewrite <- rev_append, <- Hw, rev_involutive.
    apply lstrip_starts_clean.
  - unfold strip. rewrite rev_involutive. apply lstrip_starts_clean.
Qed.

(** *** Letter case *)

Lemma lower_upper_char (c : ascii) :
  lower_char (upper_char c) = lower_char c.
Proof.
  destruct c as [[] [] [] [] [] [] [] []]; vm_compute; reflexivity.
Qed.

Lemma lower_upper (s : string) : lower (upper s) = lower s.
Proof.
  induction s as [| c s IH]; [reflexivity |].
  unfold lower, upper in *. simpl. rewrite lower_upper_char, IH.
  reflexivity.
Qed.

(** X10: for a unit the factor table knows as GH/s, TH/s, MH/s or PH/s, in
    whatever letter case the device writes it, [hashrate_display] labels the
    native rate with the canonical spelling of that same unit. *)
Theorem hashrate_display_label (data : MinerData) (hr : HashRate)
    (rate : float) (unit_ label : string) :
  hashrate data = Some hr ->
  hr_rate hr = Returned rate ->
  hr_unit hr = Returned unit_ ->
  (upper unit_, label) ∈ [("GH/S", "GH/s"); ("TH/S", "TH/s");
                          ("MH/S", "MH/s"); ("PH/S", "PH/s")] ->
  hashrate_display data = format_2f rate +:+ " " +:+ label.
Proof.
  intros Hhr Hrate Hunit Hin. unfold hashrate_display.
  rewrite Hhr, Hrate, Hunit. simpl. do 2 f_equal.
  unfold unit_clean. rewrite <- (lower_upper unit_).
  elem_cases Hin ltac:(fun E => injection E as -> ->; reflexivity).
Qed.

Lemma hashrate_display_label_witness :
  hashrate_display (sample_data (Some (sample_hashrate 14000 "gh/S")))
  = format_2f 14000 +:+ " GH/s".
Proof.
  apply (hashrate_display_label _ (sample_hashrate 14000 "gh/S") 14000
           "gh/S" "GH/s"); try reflexivity.
  left.
Defined.

Lemma upper_char_inv (c d : ascii) :
  upper_char c = d -> c = d \/ c = lower_char d.
Proof.
  intros <-.
  destruct c as [[] [] [] [] [] [] [] []]; vm_compute;
    first [left; reflexivity | right; reflexivity].
Qed.

(** X11: for the two smallest units of the factor table, H/s and KH/s in
    whatever letter case, [hashrate_display] does not show the unit: the
    suffix rewriting doubles the H, and no canonical label replaces it. *)
Theorem hashrate_display_small_units (data : MinerData) (hr : HashRate)
    (rate : float) (unit_ : string) :
  hashrate data = Some hr ->
  hr_rate hr = Returned rate ->
  hr_unit hr = Returned unit_ ->
  upper unit_ = "H/S" \/ upper unit_ = "KH/S" ->
  exists label,
    hashrate_display data = format_2f rate +:+ " " +:+ label
    /\ contains "hh/s" (lower label) = true
    /\ String.length unit_ < String.length label.
Proof.
  intros Hhr Hrate Hunit Hup. exists (unit_clean unit_). split.
  - unfold hashrate_display. rewrite Hhr, Hrate, Hunit. reflexivity.
  - destruct Hup as [Hup | Hup].
    + destruct unit_ as [| c1 [| c2 [| c3 [| c4 u]]]]; try discriminate Hup.
      injection Hup as H1 H2 H3.
      apply upper_char_inv in H1, H2, H3.
      destruct H1 as [-> | ->], H2 as [-> | ->], H3 as [-> | ->];
        vm_compute; (split; [reflexivity | lia]).
    + destruct unit_ as [| c1 [| c2 [| c3 [| c4 [| c5 u]]]]];
        try discriminate Hup.
      injection Hup as H1 H2 H3 H4.
      apply upper_char_inv in H1, H2, H3, H4.
      destruct H1 as [-> | ->], H2 as [-> | ->], H3 as [-> | ->],
               H4 as [-> | ->];
        vm_compute; (split; [reflexivity | lia]).
Qed.

Lemma hashrate_display_small_units_witness :
  exists label,
    hashrate_display (sample_data (Some (sample_hashrate 250 "KH/s")))
    = format_2f 250 +:+ " " +:+ label
    /\ contains "hh/s" (lower label) = true.
Proof.
  destruct (hashrate_display_small_units
              (sample_data (Some (sample_hashrate 250 "KH/s")))
              (sample_hashrate 250 "KH/s") 250 "KH/s")
    as (label & Hd & Hc & _); try reflexivity.
  - right. reflexivity.
  - exists label. split; [exact Hd | exact Hc].
Defined.

(** ** The table *)

Lemma status_reports_mining (miner : Miner) (result : Result MinerData) :
  get_data miner = Ended result ->
  contains "mina" (lower (status (project_row miner result)))
  = reports_mining miner.
Proof.
  intros Hend. unfold reports_mining. rewrite Hend.
  destruct result as [e | data]; [reflexivity |].
  rewrite status_project_row. unfold status_of.
  destruct (is_mining data) as [e | flag]; [reflexivity |].
  simpl. destruct (truthy flag); reflexivity.
Qed.

Lemma queries_end_cons (miner : Miner) (miners : list Miner)
    (results : list (Result MinerData)) :
  queries_end (miner :: miners) results ->
  exists result results',
    results = result :: results'
    /\ get_data miner = Ended result
    /\ queries_end miners results'.
Proof.
  unfold queries_end. destruct results as [| result results'];
    [discriminate |].
  rewrite !fmap_cons. intros [= H1 H2]. exists result, results'.
  split; [reflexivity | split; [exact H1 | exact H2]].
Qed.

Lemma mining_count_project (miners : list Miner)
    (results : list (Result MinerData)) :
  queries_end miners results ->
  mining_count (zip_with project_row miners results)
  = length (filter (fun miner => reports_mining miner = true) miners).
Proof.
  unfold mining_count. revert results.
  induction miners as [| miner miners IH]; intros results Hend;
    [reflexivity |].
  apply queries_end_cons in Hend as (result & results' & -> & Hr & Hend).
  change (zip_with project_row (miner :: miners) (result :: results'))
    with (project_row miner result :: zip_with project_row miners results').
  rewrite !filter_cons, (status_reports_mining miner result Hr).
  destruct (decide (reports_mining miner = true)); simpl;
    rewrite (IH results' Hend); reflexivity.
Qed.

(** X12: the count of active miners the table shows after a scan, none of
    whose queries was cancelled, is the number of discovered devices that
    answered and whose [is_mining] flag read true; a device whose query
    failed, or whose flag is false, [None] or unreadable, is not counted. *)
Theorem mining_count_of_scan (network : Network) (subnet : string)
    (progress_cb : bool) (miners : list Miner)
    (results : list (Result MinerData)) :
  network subnet = Returned miners ->
  queries_end miners results ->
  exists rows : list MinerRow,
    snd (scan_network network subnet progress_cb) = Returned rows
    /\ mining_count rows
       = length (filter (fun miner => reports_mining miner = true) miners).
Proof.
  intros Hnet Hend. eexists. split.
  - apply (scan_network_rows _ _ _ _ _ Hnet Hend).
  - apply (mining_count_project _ _ Hend).
Qed.

Lemma mining_count_of_scan_witness :
  exists rows : list MinerRow,
    snd (scan_network (fun _ => Returned three_miners) "10.0.0.0/24" false)
    = Returned rows
    /\ mining_count rows = 1.
Proof.
  destruct (mining_count_of_scan (fun _ => Returned three_miners)
              "10.0.0.0/24" false three_miners three_results
              eq_refl eq_refl)
    as (rows & Hrows & Hcount).
  exists rows. split; [exact Hrows |]. rewrite Hcount. reflexivity.
Defined.

Lemma miner_map_fold_lookup (rows : list MinerRow) (m : gmap string MinerRow)
    (k : string) :
  foldl (fun m r => <[ip r := r]> m) m rows !! k
  = match List.find (fun r => bool_decide (ip r = k)) (reverse rows) with
    | Some r => Some r
    | None => m !! k
    end.
Proof.
  revert m. induction rows as [| r rows IH] using rev_ind; intros m;
    [reflexivity |].
  rewrite foldl_snoc, reverse_snoc. simpl.
  destruct (decide (ip r = k)) as [<- | Hne].
  - rewrite bool_decide_eq_true_2 by reflexivity. apply lookup_insert_eq.
  - rewrite bool_decide_eq_false_2 by exact Hne.
    rewrite lookup_insert_ne by exact Hne. apply IH.
Qed.

Lemma find_reverse_last (rows : list MinerRow) (i : nat) (row : MinerRow) :
  rows !! i = Some row ->
  (forall j other, i < j -> rows !! j = Some other -> ip other <> ip row) ->
  List.find (fun r => bool_decide (ip r = ip row)) (reverse rows) = Some row.
Proof.
  revert i. induction rows as [| r rows IH] using rev_ind; intros i Hi Hlast.
  - rewrite lookup_nil in Hi. discriminate.
  - rewrite reverse_snoc. simpl.
    destruct (decide (i = length rows)) as [-> | Hne].
    + rewrite list_lookup_middle in Hi by reflexivity. injection Hi as ->.
      rewrite bool_decide_eq_true_2 by reflexivity. reflexivity.
    + assert (Hlt : i < length rows).
      { apply lookup_lt_Some in Hi. rewrite length_app in Hi. simpl in Hi.
        lia. }
      rewrite lookup_app_l in Hi by exact Hlt.
      rewrite bool_decide_eq_false_2.
      * apply (IH i Hi). intros j other Hj Hother.
        apply (Hlast j other Hj).
        rewrite lookup_app_l by (apply lookup_lt_Some in Hother; exact Hother).
        exact Hother.
      * apply (Hlast (length rows) r Hlt).
        apply list_lookup_middle. reflexivity.
Qed.

Lemma miner_map_fold_dom (rows : list MinerRow) (m : gmap string MinerRow) :
  dom (foldl (fun m r => <[ip r := r]> m) m rows)
  = dom m ∪ list_to_set (ip <$> rows).
Proof.
  revert m. induction rows as [| r rows IH]; intros m.
  - simpl. rewrite (right_id_L ∅ (∪)). reflexivity.
  - simpl. rewrite IH, dom_insert_L.
    rewrite (comm_L (∪) {[ip r]} (dom m)), <- (assoc_L (∪)). reflexivity.
Qed.

(** With distinct addresses every row is found under its own. *)
Lemma miner_map_rows_found (rows : list MinerRow) (a : App) :
  NoDup (ip <$> rows) ->
  size (_miner_map (_update_table rows a)) = length rows
  /\ forall row, row ∈ rows ->
       _miner_map (_update_table rows a) !! ip row = Some row.
Proof.
  intros Hnd. simpl. split.
  - rewrite <- size_dom, miner_map_fold_dom, dom_empty_L,
      (left_id_L ∅ (∪)).
    rewrite size_list_to_set by exact Hnd. apply length_fmap.
  - intros row Hrow. apply list_elem_of_lookup in Hrow as [i Hi].
    rewrite miner_map_fold_lookup.
    rewrite (find_reverse_last rows i row Hi); [reflexivity |].
    intros j other Hj Hother Hip.
    assert (i = j); [| lia].
    apply (NoDup_lookup (ip <$> rows) i j (ip row) Hnd);
      rewrite list_lookup_fmap.
    + rewrite Hi. reflexivity.
    + rewrite Hother. simpl. rewrite Hip. reflexivity.
Qed.

(** X13: the address map [_update_table] builds has exactly the addresses
    of the rows as keys; an address leads to the last row that carries it,
    so with distinct addresses every row is found under its own address and
    the map has as many entries as the table has rows. *)
Theorem address_map_of_rows (rows : list MinerRow) (a : App) :
  let m := _miner_map (_update_table rows a) in
  dom m = list_to_set (ip <$> rows)
  /\ (forall i row, rows !! i = Some row ->
        (forall j other, i < j -> rows !! j = Some other ->
                         ip other <> ip row) ->
        m !! ip row = Some row)
  /\ (NoDup (ip <$> rows) ->
        size m = length rows
        /\ forall row, row ∈ rows -> m !! ip row = Some row).
Proof.
  simpl. split; [| split].
  - rewrite miner_map_fold_dom, dom_empty_L, (left_id_L ∅ (∪)). reflexivity.
  - intros i row Hi Hlast. rewrite miner_map_fold_lookup.
    rewrite (find_reverse_last rows i row Hi Hlast). reflexivity.
  - apply (miner_map_rows_found rows a).
Qed.

(** ** Reboot from the table *)

Lemma filter_length_perm {A} (P : A -> Prop) `{!forall x, Decision (P x)}
    (l1 l2 : list A) :
  l1 ≡ₚ l2 -> length (filter P l1) = length (filter P l2).
Proof. intros Hperm. rewrite Hperm. reflexivity. Qed.

Lemma count_value_insert (v k x : string) (m : gmap string string) :
  m !! k = None ->
  count_value v (<[k := x]> m)
  = (if decide (x = v) then 1 else 0) + count_value v m.
Proof.
  intros Hk. unfold count_value.
  rewrite (filter_length_perm _ _ _ (map_to_list_insert m k x Hk)).
  rewrite filter_cons. simpl. destruct (decide (x = v)); reflexivity.
Qed.

Lemma count_value_le_size (v : string) (m : gmap string string) :
  count_value v m <= size m.
Proof.
  unfold count_value. rewrite <- length_map_to_list. apply length_filter.
Qed.

Lemma reboot_outcome_ok (miner : Miner) :
  reboot_outcome miner = Some "OK" <-> reboot_succeeds miner = true.
Proof.
  unfold reboot_outcome, reboot_succeeds.
  destruct (reboot miner) as [[e | u] |]; split; try reflexivity;
    discriminate.
Qed.

Lemma count_value_filled (out : Miner -> option string) (v : string)
    (order : list Miner) :
  NoDup (ip_of <$> order) ->
  count_value v (filled out ∅ order)
  = length (filter (fun miner => out miner = Some v) order).
Proof.
  induction order as [| miner order IH] using rev_ind; intros Hnd.
  - reflexivity.
  - rewrite fmap_app in Hnd. apply NoDup_app in Hnd as (Hnd & Hnew & _).
    rewrite filled_snoc, filter_app, length_app, filter_cons, filter_nil.
    destruct (out miner) as [x |] eqn:Hout.
    + rewrite count_value_insert.
      * rewrite (IH Hnd).
        destruct (decide (x = v)) as [-> | Hne].
        -- rewrite decide_True by reflexivity. simpl. lia.
        -- rewrite decide_False by congruence. simpl. lia.
      * apply not_elem_of_dom. rewrite filled_dom, dom_empty_L.
        rewrite (left_id_L ∅ (∪)), elem_of_list_to_set.
        intros Hin. apply list_elem_of_fmap in Hin as (other & Hip & Hin).
        apply list_elem_of_filter in Hin as [_ Hin].
        apply (Hnew (ip_of miner)); [| simpl; left].
        rewrite Hip. apply list_elem_of_fmap. exists other.
        split; [reflexivity | exact Hin].
    + rewrite decide_False by discriminate. rewrite (IH Hnd). simpl. lia.
Qed.

Lemma reboot_thread_unfold (miners order : list Miner) :
  reboot_thread miners order
  = CbSetStatus ("✅ Reboot completado: "
                 +:+ pretty (count_value "OK" (filled reboot_outcome ∅ order))
                 +:+ "/" +:+ str_len miners +:+ " OK").
Proof. unfold reboot_thread. rewrite reboot_miners_filled. reflexivity. Qed.

(** X14: with distinct addresses, the status the reboot thread queues reads
    [k/n OK], where [n] is the number of devices sent and [k] the number of
    them whose [reboot] returned, in whatever order the coroutines finish;
    the [Error reboot] status is never queued. *)
Theorem reboot_report_counts_successes (miners order : list Miner) :
  order ≡ₚ miners ->
  NoDup (ip_of <$> miners) ->
  reboot_thread miners order
  = CbSetStatus
      ("✅ Reboot completado: "
       +:+ pretty (length (filter (fun miner => reboot_succeeds miner = true)
                                  miners))
       +:+ "/" +:+ pretty (length miners) +:+ " OK").
Proof.
  intros Hperm Hnd. rewrite reboot_thread_unfold.
  rewrite count_value_filled by (rewrite Hperm; exact Hnd).
  rewrite (filter_length_perm _ _ _ Hperm).
  rewrite (list_filter_iff (fun miner => reboot_outcome miner = Some "OK")
             (fun miner => reboot_succeeds miner = true) miners)
    by (intros miner; apply reboot_outcome_ok).
  reflexivity.
Qed.

Lemma reboot_report_counts_successes_witness :
  reboot_thread five_miners (reverse five_miners)
  = CbSetStatus "✅ Reboot completado: 3/5 OK".
Proof.
  apply (reboot_report_counts_successes five_miners (reverse five_miners)).
  - apply reverse_Permutation.
  - compute_done.
Defined.

Lemma size_list_to_set_le (l : list string) :
  size (list_to_set l : gset string) <= length l.
Proof.
  induction l as [| x l IH]; [reflexivity |]. simpl.
  rewrite size_union_alt, size_singleton.
  assert (size (list_to_set l ∖ {[x]} : gset string)
          <= size (list_to_set l : gset string)); [| lia].
  apply subseteq_size. apply subseteq_difference_l. reflexivity.
Qed.

Lemma size_list_to_set_dup (l : list string) :
  ~ NoDup l -> size (list_to_set l : gset string) < length l.
Proof.
  induction l as [| x l IH]; intros Hdup.
  - destruct Hdup. constructor.
  - simpl. destruct (decide (x ∈ l)) as [Hin | Hout].
    + rewrite (subseteq_union_1_L {[x]} (list_to_set l)).
      * pose proof (size_list_to_set_le l). lia.
      * apply singleton_subseteq_l, elem_of_list_to_set. exact Hin.
    + rewrite size_union.
      * rewrite size_singleton.
        assert (size (list_to_set l : gset string) < length l); [| lia].
        apply IH. intros Hnd. apply Hdup. constructor; assumption.
      * apply disjoint_singleton_l. rewrite elem_of_list_to_set. exact Hout.
Qed.

(** X15: when two of the devices sent carry the same address, the report
    cannot read [n/n]: the results hold one entry per address, so fewer
    than [n] are counted even when every [reboot] returned. *)
Theorem reboot_report_shared_address (miners order : list Miner)
    (i j : nat) (m1 m2 : Miner) :
  order ≡ₚ miners ->
  miners !! i = Some m1 ->
  miners !! j = Some m2 ->
  i <> j ->
  ip_of m1 = ip_of m2 ->
  exists k,
    reboot_thread miners order
    = CbSetStatus ("✅ Reboot completado: " +:+ pretty k +:+ "/"
                   +:+ pretty (length miners) +:+ " OK")
    /\ k < length miners.
Proof.
  intros Hperm Hi Hj Hne Hip. rewrite reboot_thread_unfold.
  eexists. split; [reflexivity |].
  eapply Nat.le_lt_trans; [apply count_value_le_size |].
  rewrite <- size_dom, filled_dom, dom_empty_L, (left_id_L ∅ (∪)).
  rewrite <- (length_fmap ip_of miners).
  assert (Hset : (list_to_set
                    (ip_of <$> filter (fun miner =>
                                         is_Some (reboot_outcome miner))
                                      order) : gset string)
                 ⊆ list_to_set (ip_of <$> miners)).
  { intros x. rewrite !elem_of_list_to_set, <- Hperm.
    intros Hx. apply list_elem_of_fmap in Hx as (other & -> & Hin).
    apply list_elem_of_filter in Hin as [_ Hin].
    apply list_elem_of_fmap. exists other. split; [reflexivity | exact Hin]. }
  eapply Nat.le_lt_trans; [apply (subseteq_size _ _ Hset) |].
  apply size_list_to_set_dup. intros Hnd.
  apply Hne.
  apply (NoDup_lookup (ip_of <$> miners) i j (ip_of m1) Hnd);
    rewrite list_lookup_fmap.
  - rewrite Hi. reflexivity.
  - rewrite Hj. simpl. rewrite Hip. reflexivity.
Qed.

Lemma reboot_report_shared_address_witness :
  exists k,
    reboot_thread two_same_address two_same_address
    = CbSetStatus ("✅ Reboot completado: " +:+ pretty k +:+ "/"
                   +:+ pretty 2 +:+ " OK")
    /\ k < 2.
Proof.
  apply (reboot_report_shared_address two_same_address two_same_address 0 1
           (rebooting "10.0.0.1" (Returned tt))
           (rebooting "10.0.0.1" (Returned tt)));
    try reflexivity.
  discriminate.
Defined.

Lemma miner_obj_rows (miners : list Miner)
    (results : list (Result MinerData)) :
  length miners = length results ->
  map miner_obj (zip_with project_row miners results) = miners.
Proof.
  revert results.
  induction miners as [| miner miners IH]; intros [| result results] Hlen;
    try discriminate Hlen; [reflexivity |].
  injection Hlen as Hlen. simpl.
  rewrite miner_obj_project_row, (IH results Hlen). reflexivity.
Qed.

(** X16: once the table shows the rows of a scan that found devices, none
    of whose queries was cancelled, [Reboot All], when confirmed, hands the
    reboot thread every discovered device, in discovery order, those whose
    row is an error row included; when declined, no thread is started.  On
    an empty table nothing is asked and nothing started. *)
Theorem reboot_all_targets_scanned (network : Network) (subnet : string)
    (progress_cb : bool) (miners : list Miner)
    (results : list (Result MinerData)) (a : App) :
  network subnet = Returned miners ->
  queries_end miners results ->
  miners <> [] ->
  exists rows : list MinerRow,
    snd (scan_network network subnet progress_cb) = Returned rows
    /\ snd (_on_reboot_all true (_update_table rows a)) = Some miners
    /\ _on_reboot_all false (_update_table rows a)
       = (_update_table rows a, None)
    /\ forall confirm,
         _on_reboot_all confirm (_update_table [] a)
         = (_update_table [] a, None).
Proof.
  intros Hnet Hend Hne. eexists. split.
  - apply (scan_network_rows _ _ _ _ _ Hnet Hend).
  - pose proof (queries_end_length _ _ Hend) as Hlen.
    destruct miners as [| miner miners]; [congruence |].
    destruct results as [| result results]; [discriminate Hlen |].
    split; [| split; [| reflexivity]].
    + set (rows := zip_with project_row (miner :: miners)
                            (result :: results)).
      assert (Hall : _on_reboot_all true (_update_table rows a)
                     = _do_reboot (map miner_obj rows) (_update_table rows a))
        by reflexivity.
      rewrite Hall. unfold _do_reboot, rows.
      rewrite (miner_obj_rows _ _ Hlen). reflexivity.
    + reflexivity.
Qed.

Lemma reboot_all_targets_scanned_witness :
  exists rows : list MinerRow,
    snd (scan_network (fun _ => Returned three_miners) "10.0.0.0/24" true)
    = Returned rows
    /\ snd (_on_reboot_all true (_update_table rows (init "10.0.0.1")))
       = Some three_miners.
Proof.
  destruct (reboot_all_targets_scanned (fun _ => Returned three_miners)
              "10.0.0.0/24" true three_miners three_results
              (init "10.0.0.1") eq_refl eq_refl)
    as (rows & Hrows & Hall & _).
  - discriminate.
  - exists rows. split; [exact Hrows | exact Hall].
Defined.

(** *** The selection *)

Lemma step_table (a : App) (ev : Event) :
  (_rows (step a ev) = _rows a /\ _miner_map (step a ev) = _miner_map a)
  \/ map_of_rows (step a ev).
Proof.
  destruct ev as [| | i network | i network |]; simpl.
  - unfold _on_scan. destruct (_scan_running a); left; split; reflexivity.
  - unfold _on_monitor_toggle. destruct (_monitor_active a); left;
      split; reflexivity.
  - unfold scan_thread_returns. destruct (scan_threads a !! i); left;
      split; reflexivity.
  - unfold monitor_thread_step.
    destruct (monitor_threads a !! i) as [[| subnet | [| n] |] |];
      try destruct (_monitor_active a); left; split; reflexivity.
  - unfold tk_idle. destruct (after_queue a) as [| [msg | rows |] q].
    + left. split; reflexivity.
    + left. split; reflexivity.
    + right. reflexivity.
    + left. split; reflexivity.
Qed.

Lemma map_of_rows_reachable (a : App) : reachable a -> map_of_rows a.
Proof.
  intros (ip_from & evs & ->). unfold run.
  induction evs as [| ev evs IH] using rev_ind; [reflexivity |].
  rewrite foldl_snoc.
  destruct (step_table (foldl step (init ip_from) evs) ev) as [[Hr Hm] | H];
    [| exact H].
  unfold map_of_rows. rewrite Hr, Hm. exact IH.
Qed.

Lemma find_some_elem {A} (f : A -> bool) (l : list A) (x : A) :
  List.find f l = Some x -> x ∈ l /\ f x = true.
Proof.
  intros H. apply find_some in H as [Hin Hf].
  split; [apply list_elem_of_In; exact Hin | exact Hf].
Qed.

Lemma omap_length_le {A B} (f : A -> option B) (l : list A) :
  length (omap f l) <= length l.
Proof.
  induction l as [| x l IH]; [reflexivity |].
  change (omap f (x :: l))
    with (match f x with Some y => y :: omap f l | None => omap f l end).
  destruct (f x); simpl; lia.
Qed.

(** X17: in every state the application can reach, the address map is the
    one built from the rows of the table, so what [_get_selected_rows]
    returns are rows of the table, each carrying a selected address; a
    selected address the map does not know is passed over, and no more rows
    come back than addresses were selected. *)
Theorem selected_rows_are_table_rows (a : App) (selected : list string) :
  reachable a ->
  map_of_rows a
  /\ (forall row, row ∈ _get_selected_rows selected a ->
        row ∈ _rows a /\ ip row ∈ selected)
  /\ length (_get_selected_rows selected a) <= length selected
  /\ (forall before behind addr, _miner_map a !! addr = None ->
        _get_selected_rows (before ++ addr :: behind) a
        = _get_selected_rows (before ++ behind) a).
Proof.
  intros Hreach. pose proof (map_of_rows_reachable a Hreach) as Hmap.
  split; [exact Hmap |]. split; [| split].
  - intros row Hrow. unfold _get_selected_rows in Hrow.
    apply list_elem_of_omap in Hrow as (addr & Haddr & Hlook).
    rewrite Hmap, miner_map_fold_lookup, lookup_empty in Hlook.
    destruct (List.find _ (reverse (_rows a))) as [r |] eqn:Hfind;
      [| discriminate].
    injection Hlook as ->.
    apply find_some_elem in Hfind as [Hin Hip].
    apply bool_decide_eq_true in Hip. split.
    + apply elem_of_reverse. exact Hin.
    + rewrite Hip. exact Haddr.
  - unfold _get_selected_rows. apply omap_length_le.
  - intros before behind addr Hnone. unfold _get_selected_rows.
    rewrite !omap_app. simpl. rewrite Hnone. reflexivity.
Qed.

Lemma selected_rows_are_table_rows_witness :
  length (_get_selected_rows ["10.0.0.2"; "10.0.0.9"]
            (run (init "10.0.0.1")
               [OnScan;
                ScanThreadReturns 0 (fun _ => Returned three_miners);
                TkIdle; TkIdle; TkIdle; TkIdle])) <= 2.
Proof.
  destruct (selected_rows_are_table_rows
              (run (init "10.0.0.1")
                 [OnScan;
                  ScanThreadReturns 0 (fun _ => Returned three_miners);
                  TkIdle; TkIdle; TkIdle; TkIdle])
              ["10.0.0.2"; "10.0.0.9"])
    as (_ & _ & Hlen & _).
  - eexists _, _. reflexivity.
  - exact Hlen.
Defined.

(** ** Pool update from the form *)

Lemma form_pools_acc (only_enabled : bool) (pool_vars : list PoolVars)
    (acc : list (gmap string string)) :
  foldl (fun pools pv =>
           let url := strip (pv_url pv) in
           if negb (str_truthy url) && only_enabled
           then pools
           else pools ++ [form_entry url pv])
        acc pool_vars
  = acc ++ form_pools only_enabled pool_vars.
Proof.
  unfold form_pools. revert acc.
  induction pool_vars as [| pv pool_vars IH]; intros acc.
  - simpl. rewrite app_nil_r. reflexivity.
  - simpl.
    destruct (negb (str_truthy (strip (pv_url pv))) && only_enabled).
    + apply IH.
    + rewrite (IH (acc ++ _)), (IH ([_])), app_assoc. reflexivity.
Qed.

Lemma form_pools_cons (only_enabled : bool) (pv : PoolVars)
    (pool_vars : list PoolVars) :
  form_pools only_enabled (pv :: pool_vars)
  = (if negb (str_truthy (strip (pv_url pv))) && only_enabled
     then []
     else [form_entry (strip (pv_url pv)) pv])
    ++ form_pools only_enabled pool_vars.
Proof.
  unfold form_pools at 1. simpl. rewrite form_pools_acc.
  destruct (negb (str_truthy (strip (pv_url pv))) && only_enabled);
    reflexivity.
Qed.

Lemma form_entry_url (url_ : string) (pv : PoolVars) :
  form_entry url_ pv !! "url" = Some url_.
Proof.
  unfold form_entry. rewrite !lookup_insert_ne by discriminate.
  apply lookup_insert_eq.
Qed.

Lemma pool_filter_app (l1 l2 : list (gmap string string)) :
  pool_filter (l1 ++ l2) = pool_filter l1 ++ pool_filter l2.
Proof. apply filter_app. Qed.

Lemma pool_filter_entry (pv : PoolVars) :
  pool_filter [form_entry (strip (pv_url pv)) pv]
  = if str_truthy (strip (pv_url pv))
    then [form_entry (strip (pv_url pv)) pv]
    else [].
Proof.
  unfold pool_filter. rewrite filter_cons, filter_nil, form_entry_url.
  simpl. rewrite strip_idemp.
  destruct (str_truthy (strip (pv_url pv))); reflexivity.
Qed.

(** What the dispatcher keeps of the form's list is the list the ticked
    box gives. *)
Lemma pool_filter_form_pools (only_enabled : bool)
    (pool_vars : list PoolVars) :
  pool_filter (form_pools only_enabled pool_vars) = form_pools true pool_vars.
Proof.
  induction pool_vars as [| pv pool_vars IH]; [reflexivity |].
  rewrite !form_pools_cons, pool_filter_app, IH. f_equal.
  rewrite andb_true_r.
  destruct (str_truthy (strip (pv_url pv))) eqn:Hurl; simpl.
  - rewrite pool_filter_entry, Hurl. reflexivity.
  - destruct only_enabled; simpl; [reflexivity |].
    rewrite pool_filter_entry, Hurl. reflexivity.
Qed.




Lemma form_pools_blank (pool_vars : list PoolVars) :
  (forall pv, pv ∈ pool_vars -> strip (pv_url pv) = "") ->
  form_pools true pool_vars = [].
Proof.
  induction pool_vars as [| pv pool_vars IH]; intros Hblank; [reflexivity |].
  rewrite form_pools_cons, (Hblank pv) by left. simpl. apply IH.
  intros pv' Hpv'. apply Hblank. right. exact Hpv'.
Qed.

Lemma update_cfg_no_valid_pool (imported : Result unit) (cfg : MinerConfig)
    (pools : list (gmap string string)) :
  pool_filter pools = [] ->
  update_cfg imported cfg pools
  = match imported with
    | Raised e => if exposes_pool_list cfg then Raised e else Returned cfg
    | Returned _ => Returned cfg
    end.
Proof.
  intros H. unfold update_cfg, exposes_pool_list. rewrite H.
  destruct (mining_mode cfg) as [| [mm |]], imported as [e | u];
    try reflexivity; destruct (mm_pools mm); reflexivity.
Qed.

(** X19: with every url of the form blank, a selection that holds rows and
    the box ticked, [_on_update_pools] starts nothing; with the box not
    ticked it starts the dispatch with a list no entry of which is valid,
    so that no device has its pools changed: the pool update leaves every
    configuration as it was, and only on a configuration that exposes a
    pool list, when the import of [MiningPoolConfig] fails, does it raise
    the import's exception instead. *)
Theorem blank_form_unticked_dispatches (selected : list string)
    (pool_vars : list PoolVars) (a : App) :
  (forall pv, pv ∈ pool_vars -> strip (pv_url pv) = "") ->
  pool_vars <> [] ->
  _get_selected_rows selected a <> [] ->
  _on_update_pools selected true pool_vars a = (a, None)
  /\ exists pools,
       snd (_on_update_pools selected false pool_vars a)
       = Some (map miner_obj (_get_selected_rows selected a), pools)
       /\ length pools = length pool_vars
       /\ forall imported cfg,
            update_cfg imported cfg pools
            = match imported with
              | Raised e =>
                  if exposes_pool_list cfg then Raised e else Returned cfg
              | Returned _ => Returned cfg
              end.
Proof.
  intros Hblank Hvars Hsel. split.
  - unfold _on_update_pools. rewrite (form_pools_blank _ Hblank).
    destruct (_get_selected_rows selected a); reflexivity.
  - exists (form_pools false pool_vars).
    assert (Hlen : length (form_pools false pool_vars) = length pool_vars).
    { clear. induction pool_vars as [| pv pool_vars IH]; [reflexivity |].
      rewrite form_pools_cons, andb_false_r. simpl. rewrite IH.
      reflexivity. }
    split; [| split; [exact Hlen |]].
    + unfold _on_update_pools.
      destruct (_get_selected_rows selected a) as [| row sel];
        [congruence |].
      destruct (form_pools false pool_vars) as [| p pools] eqn:Hform;
        [| reflexivity].
      destruct pool_vars; [congruence | discriminate Hlen].
    + intros imported cfg. apply update_cfg_no_valid_pool.
      rewrite pool_filter_form_pools. apply form_pools_blank, Hblank.
Qed.

Lemma blank_form_unticked_dispatches_witness :
  _on_update_pools ["10.0.0.2"] true blank_form one_row_app
  = (one_row_app, None)
  /\ exists pools,
       snd (_on_update_pools ["10.0.0.2"] false blank_form one_row_app)
       = Some ([rebooting "10.0.0.2" (Returned tt)], pools)
       /\ length pools = 3.
Proof.
  destruct (blank_form_unticked_dispatches ["10.0.0.2"] blank_form
              one_row_app) as (Hticked & pools & Hun & Hlen & _).
  - intros pv Hpv. unfold blank_form in Hpv.
    elem_cases Hpv ltac:(fun E => subst; reflexivity).
  - discriminate.
  - vm_compute. discriminate.
  - split; [exact Hticked |]. exists pools. split; [exact Hun | exact Hlen].
Defined.

(** ** The scan flag *)

Lemma flag_not_stuck_step (a : App) (ev : Event) :
  (_scan_running a = true -> 1 <= length (scan_threads a) + pending_done a) ->
  _scan_running (step a ev) = true ->
  1 <= length (scan_threads (step a ev)) + pending_done (step a ev).
Proof.
  unfold pending_done. intros Hset.
  destruct ev as [| | i network | i network |]; simpl.
  - unfold _on_scan. destruct (_scan_running a) eqn:Hrun; simpl.
    + intros _. apply Hset. reflexivity.
    + intros _. rewrite length_app. simpl. lia.
  - unfold _on_monitor_toggle. destruct (_monitor_active a); simpl;
      exact Hset.
  - unfold scan_thread_returns.
    destruct (scan_threads a !! i) as [subnet |] eqn:Hi; [| exact Hset].
    simpl. intros _. rewrite !filter_app, !length_app.
    rewrite filter_cons_True by reflexivity. simpl. lia.
  - rewrite monitor_step_keeps_flag. unfold monitor_thread_step.
    destruct (monitor_threads a !! i) as [[| subnet | [| n] |] |];
      try exact Hset.
    + destruct (_monitor_active a); simpl; [| exact Hset].
      rewrite filter_app. simpl.
      rewrite filter_cons_False by (simpl; discriminate).
      rewrite filter_nil, app_nil_r. exact Hset.
    + simpl. rewrite filter_app, scan_callbacks_no_done, app_nil_r.
      exact Hset.
    + destruct (_monitor_active a); simpl; exact Hset.
  - unfold tk_idle. destruct (after_queue a) as [| cb q] eqn:Hq;
      [rewrite Hq; exact Hset |].
    destruct cb as [msg | rows |]; simpl.
    + rewrite filter_cons_False in Hset by (simpl; discriminate).
      exact Hset.
    + rewrite filter_cons_False in Hset by (simpl; discriminate).
      exact Hset.
    + discriminate.
Qed.

Lemma flag_not_stuck_reachable (a : App) :
  reachable a ->
  _scan_running a = true -> 1 <= length (scan_threads a) + pending_done a.
Proof.
  intros (ip_from & evs & ->). unfold run.
  induction evs as [| ev evs IH] using rev_ind.
  - simpl. discriminate.
  - rewrite foldl_snoc. apply flag_not_stuck_step. exact IH.
Qed.

(** X21: in every state the application can reach there is at most one
    thread of [_start_scan].  While the flag [_scan_running] is clear there
    is none and no [_scan_done] is queued; while it is set, exactly one
    thread is scanning or its [_scan_done] waits in the queue, so the flag
    is never left set with nothing to clear it. *)
Theorem manual_scan_flag_invariant (a : App) :
  reachable a ->
  length (scan_threads a) <= 1
  /\ (_scan_running a = false -> scan_threads a = [] /\ pending_done a = 0)
  /\ (_scan_running a = true ->
      length (scan_threads a) + pending_done a = 1).
Proof.
  intros Hreach.
  destruct (flag_covers_manual_reachable a Hreach) as [Hclear Hone].
  pose proof (flag_not_stuck_reachable a Hreach) as Hset.
  split; [lia |]. split; [exact Hclear |].
  intros Hrun. specialize (Hset Hrun). lia.
Qed.

Lemma manual_scan_flag_invariant_witness :
  length (scan_threads
            (run (init "10.0.0.1")
               [OnScan; OnMonitorToggle; OnScan;
                MonitorThreadStep 0 network_silent; OnScan])) <= 1.
Proof.
  destruct (manual_scan_flag_invariant
              (run (init "10.0.0.1")
                 [OnScan; OnMonitorToggle; OnScan;
                  MonitorThreadStep 0 network_silent; OnScan]))
    as (Hone & _ & _).
  - eexists _, _. reflexivity.
  - exact Hone.
Defined.

(** ** The monitor thread *)

Lemma monitor_step_keeps_active (i : nat) (network : Network) (a : App) :
  _monitor_active (monitor_thread_step i network a) = _monitor_active a.
Proof.
  unfold monitor_thread_step.
  destruct (monitor_threads a !! i) as [[| subnet | [| n] |] |];
    try reflexivity;
    destruct (_monitor_active a) eqn:Hactive; simpl; rewrite ?Hactive;
    reflexivity.
Qed.

Lemma monitor_step_stopped (i : nat) (network : Network) (a : App)
    (pc : MonitorPc) :
  _monitor_active a = false ->
  monitor_threads a !! i = Some pc ->
  monitor_threads (monitor_thread_step i network a)
  = <[i := stopped_next pc]> (monitor_threads a).
Proof.
  intros Hoff Hi. unfold monitor_thread_step. rewrite Hi, Hoff.
  destruct pc as [| subnet | [| n] |]; try reflexivity.
  simpl. symmetry. apply list_insert_id. exact Hi.
Qed.

Lemma monitor_step_stopped_at (i : nat) (network : Network) (a : App)
    (pc : MonitorPc) :
  _monitor_active a = false ->
  monitor_threads a !! i = Some pc ->
  monitor_threads (monitor_thread_step i network a) !! i
  = Some (stopped_next pc).
Proof.
  intros Hoff Hi. rewrite (monitor_step_stopped i network a pc Hoff Hi).
  apply list_lookup_insert_eq. apply (lookup_lt_Some _ _ _ Hi).
Qed.

(** X22: once the monitor is switched off, a step of a monitor thread
    never takes a thread into a scan, and each thread is over after at most
    three of its own steps.  A scan the thread was in when the monitor was
    switched off is not cancelled: leaving it, the thread still queues the
    scan's callbacks, the table update among them. *)
Theorem monitor_stop_honoured (a : App) (i : nat) (pc : MonitorPc)
    (n1 n2 n3 : Network) :
  _monitor_active a = false ->
  monitor_threads a !! i = Some pc ->
  (forall j subnet,
     monitor_threads (step a (MonitorThreadStep i n1)) !! j
     = Some (InScan subnet) ->
     monitor_threads a !! j = Some (InScan subnet))
  /\ monitor_threads
       (run a [MonitorThreadStep i n1; MonitorThreadStep i n2;
               MonitorThreadStep i n3]) !! i = Some Finished
  /\ (forall subnet, pc = InScan subnet ->
        after_queue (step a (MonitorThreadStep i n1))
        = after_queue a
          ++ scan_callbacks "Monitor error: " (scan_network n1 subnet true)).
Proof.
  intros Hoff Hi. split; [| split].
  - intros j subnet. simpl.
    rewrite (monitor_step_stopped i n1 a pc Hoff Hi).
    destruct (decide (i = j)) as [<- | Hne].
    + rewrite list_lookup_insert_eq by apply (lookup_lt_Some _ _ _ Hi).
      destruct pc; discriminate.
    + rewrite list_lookup_insert_ne by exact Hne. intros H. exact H.
  - simpl.
    set (a1 := monitor_thread_step i n1 a).
    set (a2 := monitor_thread_step i n2 a1).
    assert (H1 : monitor_threads a1 !! i = Some (stopped_next pc))
      by apply (monitor_step_stopped_at i n1 a pc Hoff Hi).
    assert (Hoff1 : _monitor_active a1 = false)
      by (unfold a1; rewrite monitor_step_keeps_active; exact Hoff).
    assert (H2 : monitor_threads a2 !! i
                 = Some (stopped_next (stopped_next pc)))
      by apply (monitor_step_stopped_at i n2 a1 _ Hoff1 H1).
    assert (Hoff2 : _monitor_active a2 = false)
      by (unfold a2; rewrite monitor_step_keeps_active; exact Hoff1).
    rewrite (monitor_step_stopped_at i n3 a2 _ Hoff2 H2).
    destruct pc; reflexivity.
  - intros subnet ->. simpl. unfold monitor_thread_step. rewrite Hi.
    reflexivity.
Qed.

Lemma monitor_stop_honoured_witness :
  monitor_threads
    (run (run (init "10.0.0.1")
              [OnMonitorToggle; MonitorThreadStep 0 network_silent;
               OnMonitorToggle])
         [MonitorThreadStep 0 network_silent;
          MonitorThreadStep 0 network_silent;
          MonitorThreadStep 0 network_silent]) !! 0 = Some Finished.
Proof.
  destruct (monitor_stop_honoured
              (run (init "10.0.0.1")
                 [OnMonitorToggle; MonitorThreadStep 0 network_silent;
                  OnMonitorToggle])
              0 (InScan "10.0.0.0/24")
              network_silent network_silent network_silent)
    as (_ & Hend & _).
  - reflexivity.
  - reflexivity.
  - exact Hend.
Defined.

(** X23: switching the monitor off and on again does not end the thread
    it had started: with no step of that thread in between, the thread
    stands where it stood, a second thread is started beside it, and the
    first goes on with its loop at its next step. *)
Theorem monitor_restart_keeps_old_thread (a : App) (i : nat)
    (pc : MonitorPc) :
  _monitor_active a = true ->
  monitor_threads a !! i = Some pc ->
  pc <> Finished ->
  let a' := run a [OnMonitorToggle; OnMonitorToggle] in
  _monitor_active a' = true
  /\ monitor_threads a' = monitor_threads a ++ [AtWhile]
  /\ monitor_threads a' !! i = Some pc
  /\ forall network,
       exists pc', monitor_threads (step a' (MonitorThreadStep i network)) !! i
                   = Some pc'
                   /\ pc' <> Finished.
Proof.
  intros Hon Hi Hpc a'.
  assert (Hthreads : monitor_threads a' = monitor_threads a ++ [AtWhile]).
  { unfold a'. simpl. unfold _on_monitor_toggle at 2. rewrite Hon.
    reflexivity. }
  assert (Hactive : _monitor_active a' = true).
  { unfold a'. simpl. unfold _on_monitor_toggle at 2. rewrite Hon.
    reflexivity. }
  assert (Hi' : monitor_threads a' !! i = Some pc).
  { rewrite Hthreads. apply lookup_app_l_Some. exact Hi. }
  split; [exact Hactive |]. split; [exact Hthreads |].
  split; [exact Hi' |].
  intros network. simpl. unfold monitor_thread_step.
  rewrite Hi', Hactive.
  pose proof (lookup_lt_Some _ _ _ Hi') as Hlt.
  destruct pc as [| subnet | [| n] |]; simpl;
    try (rewrite list_lookup_insert_eq by exact Hlt);
    try (eexists; split; [reflexivity | discriminate]).
  congruence.
Qed.

Lemma monitor_restart_keeps_old_thread_witness :
  monitor_threads
    (run (run (init "10.0.0.1")
              [OnMonitorToggle; MonitorThreadStep 0 network_silent])
         [OnMonitorToggle; OnMonitorToggle])
  = [InScan "10.0.0.0/24"; AtWhile].
Proof.
  destruct (monitor_restart_keeps_old_thread
              (run (init "10.0.0.1")
                 [OnMonitorToggle; MonitorThreadStep 0 network_silent])
              0 (InScan "10.0.0.0/24"))
    as (_ & Hthreads & _).
  - reflexivity.
  - reflexivity.
  - discriminate.
  - exact Hthreads.
Defined.

(** ** One manual scan, from the button to the table *)

Lemma scan_rows_ips (miners : list Miner)
    (results : list (Result MinerData)) :
  length miners = length results ->
  ip <$> zip_with project_row miners results = ip_of <$> miners.
Proof.
  revert results.
  induction miners as [| miner miners IH]; intros [| result results] Hlen;
    try discriminate Hlen; [reflexivity |].
  injection Hlen as Hlen.
  change (zip_with project_row (miner :: miners) (result :: results))
    with (project_row miner result :: zip_with project_row miners results).
  rewrite !fmap_cons, ip_project_row, (IH results Hlen). reflexivity.
Qed.

Lemma run_app (a : App) (evs1 evs2 : list Event) :
  run a (evs1 ++ evs2) = run (run a evs1) evs2.
Proof. apply foldl_app. Qed.

(** The main loop runs the status callbacks at the head of the queue. *)
Lemma drain_status (msgs : list string) (q : list Callback) (b : App) :
  after_queue b = map CbSetStatus msgs ++ q ->
  after_queue (run b (replicate (length msgs) TkIdle)) = q
  /\ _scan_running (run b (replicate (length msgs) TkIdle)) = _scan_running b
  /\ scan_threads (run b (replicate (length msgs) TkIdle)) = scan_threads b.
Proof.
  revert b. induction msgs as [| msg msgs IH]; intros b Hq.
  - simpl. split; [exact Hq | split; reflexivity].
  - change (run b (replicate (length (msg :: msgs)) TkIdle))
      with (run (tk_idle b) (replicate (length msgs) TkIdle)).
    assert (Hb : tk_idle b
                 = set_status msg
                     (set_after_queue (map CbSetStatus msgs ++ q) b)).
    { unfold tk_idle. rewrite Hq. reflexivity. }
    rewrite Hb.
    destruct (IH (set_status msg
                    (set_after_queue (map CbSetStatus msgs ++ q) b))
                 eq_refl) as (H1 & H2 & H3).
    split; [exact H1 | split; [exact H2 | exact H3]].
Qed.

(** The state in which the last two callbacks of a manual scan are to be
    run: the table update and [_scan_done]. *)
Lemma scan_round_before_table (a : App) (network : Network)
    (rows : list MinerRow) :
  idle a ->
  snd (scan_network network (_get_subnet a) true) = Returned rows ->
  exists b,
    run a (scan_round network
             (length (fst (scan_network network (_get_subnet a) true)) + 2))
    = _scan_done (set_after_queue []
                    (_update_table rows (set_after_queue [CbScanDone] b)))
    /\ scan_threads b = [].
Proof.
  intros (Hflag & Hthreads & Hqueue) Hrows.
  unfold scan_round. rewrite replicate_add, app_assoc, !run_app.
  set (a2 := run a [OnScan; ScanThreadReturns 0 network]).
  set (out := scan_network network (_get_subnet a) true) in *.
  assert (Hq2 : after_queue a2
                = map CbSetStatus (fst out) ++ [CbUpdateTable rows; CbScanDone]).
  { unfold a2. simpl. unfold _on_scan. rewrite Hflag.
    unfold scan_thread_returns, _start_scan. simpl.
    rewrite Hthreads. simpl. rewrite Hqueue. simpl.
    fold out. unfold scan_callbacks. rewrite Hrows, <- app_assoc.
    reflexivity. }
  assert (Ht2 : scan_threads a2 = []).
  { unfold a2. simpl. unfold _on_scan. rewrite Hflag.
    unfold scan_thread_returns, _start_scan. simpl.
    rewrite Hthreads. reflexivity. }
  destruct (drain_status (fst out) _ a2 Hq2) as (Hq3 & _ & Ht3).
  set (a3 := run a2 (replicate (length (fst out)) TkIdle)) in *.
  exists a3. split; [| rewrite Ht3; exact Ht2].
  simpl. unfold tk_idle at 2. rewrite Hq3. simpl.
  unfold tk_idle. simpl. reflexivity.
Qed.

(** X24: a manual scan started while nothing is under way and none of
    whose queries is cancelled, once its thread has left [scan_network] and
    the main loop has run the callbacks queued, leaves the table showing one
    row per discovered device, the address map holding their addresses, the
    status line giving their number and their total hashrate, and the
    application ready for the next scan: flag clear, no thread, empty
    queue. *)
Theorem manual_scan_round (a : App) (network : Network)
    (miners : list Miner) (results : list (Result MinerData)) :
  idle a ->
  network (_get_subnet a) = Returned miners ->
  queries_end miners results ->
  NoDup (ip_of <$> miners) ->
  let rows := zip_with project_row miners results in
  let a' :=
    run a (scan_round network
             (length (fst (scan_network network (_get_subnet a) true)) + 2)) in
  idle a'
  /\ _rows a' = rows
  /\ dom (_miner_map a') = list_to_set (ip_of <$> miners)
  /\ size (_miner_map a') = length miners
  /\ _status_var a'
     = "✅  " +:+ pretty (length miners) +:+ " miners encontrados — "
       +:+ format_2f (total_ths rows) +:+ " TH/s".
Proof.
  intros Hidle Hnet Hend Hnd rows a'.
  destruct (scan_round_before_table a network rows Hidle) as (b & Hb & Hbt).
  { apply (scan_network_rows _ _ _ _ _ Hnet Hend). }
  pose proof (queries_end_length _ _ Hend) as Hlen.
  assert (Hips : ip <$> rows = ip_of <$> miners).
  { apply (scan_rows_ips _ _ Hlen). }
  assert (Hrows : length rows = length miners).
  { unfold rows. rewrite length_zip_with. lia. }
  unfold a'. rewrite Hb. split; [| split; [| split; [| split]]].
  - split; [reflexivity | split; [exact Hbt | reflexivity]].
  - reflexivity.
  - rewrite <- Hips. simpl.
    rewrite miner_map_fold_dom, dom_empty_L, (left_id_L ∅ (∪)). reflexivity.
  - destruct (miner_map_rows_found rows (set_after_queue [CbScanDone] b))
      as [Hsize _]; [rewrite Hips; exact Hnd |].
    rewrite Hrows in Hsize. exact Hsize.
  - simpl. unfold str_len. rewrite Hrows. reflexivity.
Qed.

Lemma manual_scan_round_witness :
  _status_var
    (run (init "10.0.0.1")
       (scan_round (fun _ => Returned three_miners) 5))
  = "✅  3 miners encontrados — 0.00 TH/s".
Proof.
  destruct (manual_scan_round (init "10.0.0.1")
              (fun _ => Returned three_miners) three_miners three_results)
    as (_ & _ & _ & _ & Hstatus).
  - split; [reflexivity | split; reflexivity].
  - reflexivity.
  - reflexivity.
  - compute_done.
  - exact Hstatus.
Defined.

(** X25: when discovery raised or found no device, the same round leaves
    the table empty and the address map empty, whatever they held, and the
    status line reading that 0 miners were found: the message of the
    failure is replaced by the table update that follows it. *)
Theorem failed_scan_empties_table (a : App) (network : Network) :
  idle a ->
  (exists e, network (_get_subnet a) = Raised e)
  \/ network (_get_subnet a) = Returned [] ->
  let a' := run a (scan_round network 4) in
  idle a'
  /\ _rows a' = []
  /\ _miner_map a' = ∅
  /\ _status_var a' = "✅  0 miners encontrados — 0.00 TH/s"
  /\ _count_var a' = "0 miners  |  0 activos  |  0.00 TH/s total".
Proof.
  intros Hidle Hnet a'.
  assert (Hout : snd (scan_network network (_get_subnet a) true) = Returned []
                 /\ length (fst (scan_network network (_get_subnet a) true))
                    = 2).
  { unfold scan_network. destruct Hnet as [[e ->] | ->]; split; reflexivity. }
  destruct Hout as [Hrows Hlen].
  destruct (scan_round_before_table a network [] Hidle Hrows)
    as (b & Hb & Hbt).
  rewrite Hlen in Hb. change (2 + 2) with 4 in Hb. unfold a'. rewrite Hb.
  split; [| split; [| split; [| split]]]; try reflexivity.
  split; [reflexivity | split; [exact Hbt | reflexivity]].
Qed.

Lemma failed_scan_empties_table_witness :
  _rows (run (_update_table [error_row (rebooting "10.0.0.2" (Returned tt))]
                            (init "300.1.1.1"))
             (scan_round (network_raises "invalid IPv4 network") 4)) = []
  /\ _status_var
       (run (_update_table [error_row (rebooting "10.0.0.2" (Returned tt))]
                           (init "300.1.1.1"))
            (scan_round (network_raises "invalid IPv4 network") 4))
     = "✅  0 miners encontrados — 0.00 TH/s".
Proof.
  destruct (failed_scan_empties_table
              (_update_table [error_row (rebooting "10.0.0.2" (Returned tt))]
                             (init "300.1.1.1"))
              (network_raises "invalid IPv4 network"))
    as (_ & Hrows & _ & Hstatus & _).
  - split; [reflexivity | split; reflexivity].
  - left. eexists. reflexivity.
  - split; [exact Hrows | exact Hstatus].
Defined.

(** ** Reboot of the selection *)

Lemma selected_scan_rows (miners sel : list Miner)
    (results : list (Result MinerData)) (a : App) :
  queries_end miners results ->
  NoDup (ip_of <$> miners) ->
  (forall miner, miner ∈ sel -> miner ∈ miners) ->
  map miner_obj
      (_get_selected_rows (ip_of <$> sel)
         (_update_table (zip_with project_row miners results) a))
  = sel.
Proof.
  intros Hend Hnd Hsub.
  pose proof (queries_end_length _ _ Hend) as Hlen.
  set (rows := zip_with project_row miners results).
  destruct (miner_map_rows_found rows a) as [_ Hfound];
    [unfold rows; rewrite (scan_rows_ips _ _ Hlen); exact Hnd |].
  unfold _get_selected_rows.
  induction sel as [| miner sel IH]; [reflexivity |].
  rewrite fmap_cons.
  change (omap ?f (?x :: ?l))
    with (match f x with Some y => y :: omap f l | None => omap f l end).
  assert (Hin : miner ∈ miners) by (apply Hsub; left).
  apply list_elem_of_lookup in Hin as [i Hi].
  destruct (queries_end_lookup _ _ i miner Hend Hi) as (result & Hr & _).
  assert (Hrow : rows !! i = Some (project_row miner result)).
  { unfold rows. rewrite lookup_zip_with, Hi. simpl. rewrite Hr.
    reflexivity. }
  rewrite <- (ip_project_row miner result).
  rewrite Hfound by (apply list_elem_of_lookup; exists i; exact Hrow).
  rewrite map_cons, miner_obj_project_row, IH; [reflexivity |].
  intros m Hm. apply Hsub. right. exact Hm.
Qed.

(** X26: once the table shows the rows of a scan whose devices have
    distinct addresses and none of whose queries was cancelled, [Reboot
    Selected] on a selection of shown addresses hands the reboot thread,
    when confirmed, exactly the devices selected, in the order of the
    selection; declined, or with nothing selected, it starts nothing and
    leaves the state as it was. *)
Theorem reboot_selected_targets (miners sel : list Miner)
    (results : list (Result MinerData)) (a : App) :
  queries_end miners results ->
  NoDup (ip_of <$> miners) ->
  (forall miner, miner ∈ sel -> miner ∈ miners) ->
  sel <> [] ->
  let t := _update_table (zip_with project_row miners results) a in
  _on_reboot_selected (ip_of <$> sel) true t
  = (set_status ("Reiniciando " +:+ pretty (length sel) +:+ " miners...") t,
     Some sel)
  /\ _on_reboot_selected (ip_of <$> sel) false t = (t, None)
  /\ forall confirm, _on_reboot_selected [] confirm t = (t, None).
Proof.
  intros Hend Hnd Hsub Hne t.
  pose proof (selected_scan_rows miners sel results a Hend Hnd Hsub) as Hsel.
  fold t in Hsel. unfold _on_reboot_selected.
  destruct (_get_selected_rows (ip_of <$> sel) t) as [| row rows_] eqn:Hrows.
  - simpl in Hsel. congruence.
  - split; [| split; reflexivity].
    unfold _do_reboot, str_len. rewrite Hsel. reflexivity.
Qed.

Lemma reboot_selected_targets_witness :
  snd (_on_reboot_selected ["10.0.0.3"; "10.0.0.1"] true
         (_update_table (zip_with project_row three_miners three_results)
            (init "10.0.0.1")))
  = Some [sample_miner "10.0.0.3" (Raised "connection refused");
          sample_miner "10.0.0.1" (Raised "timed out")].
Proof.
  destruct (reboot_selected_targets three_miners
              [sample_miner "10.0.0.3" (Raised "connection refused");
               sample_miner "10.0.0.1" (Raised "timed out")]
              three_results (init "10.0.0.1")) as (Hyes & _).
  - reflexivity.
  - compute_done.
  - intros miner Hm.
    elem_cases Hm ltac:(fun E =>
      subst; first [left | right; left | right; right; left]).
  - discriminate.
  - apply (f_equal snd) in Hyes. exact Hyes.
Defined.

(** ** Progress messages *)

(** X27: the progress callback does not change what [scan_network]
    returns, and nothing is reported without one.  With one, a scan that
    found devices, none of whose queries was cancelled, reports three
    messages: the subnet, the number of devices found and the number of
    rows completed, which are the same number, that of the rows returned. *)
Theorem scan_network_progress (network : Network) (subnet : string) :
  snd (scan_network network subnet true)
  = snd (scan_network network subnet false)
  /\ fst (scan_network network subnet false) = []
  /\ forall miners results,
       network subnet = Returned miners ->
       queries_end miners results ->
       miners <> [] ->
       exists rows,
         snd (scan_network network subnet true) = Returned rows
         /\ fst (scan_network network subnet true)
            = ["Escaneando " +:+ subnet +:+ "...";
               "Encontrados " +:+ pretty (length rows)
               +:+ " miners. Obteniendo datos...";
               "✅ Completado: " +:+ pretty (length rows)
               +:+ " miners procesados."].
Proof.
  split; [| split].
  - unfold scan_network.
    destruct (network subnet) as [e | [| miner miners]]; try reflexivity.
    unfold gather. destruct (scan_loop _ _); reflexivity.
  - unfold scan_network.
    destruct (network subnet) as [e | [| miner miners]]; try reflexivity.
    unfold gather. destruct (scan_loop _ _); reflexivity.
  - intros miners results Hnet Hend Hne.
    exists (zip_with project_row miners results).
    split; [apply (scan_network_rows _ _ _ _ _ Hnet Hend) |].
    pose proof (queries_end_length _ _ Hend) as Hlen.
    unfold scan_network. rewrite Hnet.
    destruct miners as [| miner miners]; [congruence |].
    unfold gather. cbv zeta.
    change (map get_data (miner :: miners)) with (get_data <$> miner :: miners).
    rewrite Hend, scan_loop_ended. unfold notify, str_len.
    rewrite app_nil_l, length_zip_with, <- Hlen, Nat.min_id. reflexivity.
Qed.

Lemma scan_network_progress_witness :
  exists rows,
    snd (scan_network (fun _ => Returned three_miners) "10.0.0.0/24" true)
    = Returned rows
    /\ fst (scan_network (fun _ => Returned three_miners) "10.0.0.0/24" true)
       = ["Escaneando 10.0.0.0/24...";
          "Encontrados " +:+ pretty (length rows)
          +:+ " miners. Obteniendo datos...";
          "✅ Completado: " +:+ pretty (length rows)
          +:+ " miners procesados."].
Proof.
  destruct (scan_network_progress (fun _ => Returned three_miners)
              "10.0.0.0/24") as (_ & _ & H).
  apply (H three_miners three_results); [reflexivity | reflexivity |].
  discriminate.
Defined.
